(** * Fault-driven memory virtualisation: the x86-64 decoder and the
      access-violation handler of [Utilities/Thread.cpp].

    The development embeds the decoder [decode_x64_reg_op], the register
    accessors [get_x64_reg_value] / [put_x64_reg_value], the flag routine
    [set_x64_cmp_flags], [get_x64_access_size] and [handle_access_violation]
    as executable functions, and proves properties about them.

    Conventions.
    - [u8], [u16], [u32], [u64] values are [Z] reduced modulo the width; every
      wrap-around of the C++ code is written out.
    - The instruction stream at [RIP] is a [list byte]; a read past the end of
      the supplied bytes yields [0], which is no prefix and no opcode.
    - Host memory is a finite map from addresses to bytes (little endian).
    - The saved register context is a record of the 17 general slots
      (RAX..R15, RIP), the 16 vector registers and EFLAGS. *)

From Stdlib Require Import ZArith Lia.
From Stdlib.Strings Require Import Byte.
From stdpp Require Import base numbers list option gmap.

Local Open Scope Z_scope.

(** ** Machine integers *)

Definition u8 (z : Z) : Z := z mod 2^8.
Definition u16 (z : Z) : Z := z mod 2^16.
Definition u32 (z : Z) : Z := z mod 2^32.
Definition u64 (z : Z) : Z := z mod 2^64.

(** Truncation to [8 * n] bits, for the sizes the handler works with. *)
Definition trunc (n : Z) (z : Z) : Z := z mod 2^(8 * n).

Definition byte_val (b : byte) : Z := Z.of_N (Byte.to_N b).

(** [*code], [code[i]] : a read past the supplied bytes yields 0. *)
Definition rd (code : list byte) (i : nat) : Z := byte_val (nth i code x00).

(** ** [enum x64_reg_t : u32] — the enumerators overlap, exactly as in the
    source: general and vector registers share 0..15, and [X64R_ECX] is an
    alias of [X64R_CL]. *)

Definition x64_reg_t := Z.

Definition X64R_RAX : x64_reg_t := 0.
Definition X64R_RCX : x64_reg_t := 1.
Definition X64R_RDX : x64_reg_t := 2.
Definition X64R_RBX : x64_reg_t := 3.
Definition X64R_RSP : x64_reg_t := 4.
Definition X64R_RBP : x64_reg_t := 5.
Definition X64R_RSI : x64_reg_t := 6.
Definition X64R_RDI : x64_reg_t := 7.
Definition X64R_R15 : x64_reg_t := 15.
Definition X64R_XMM0 : x64_reg_t := 0.
Definition X64R_XMM15 : x64_reg_t := 15.
Definition X64R_AL : x64_reg_t := 16.
Definition X64R_CL : x64_reg_t := 17.
Definition X64R_DL : x64_reg_t := 18.
Definition X64R_BL : x64_reg_t := 19.
Definition X64R_AH : x64_reg_t := 20.
Definition X64R_CH : x64_reg_t := 21.
Definition X64R_DH : x64_reg_t := 22.
Definition X64R_BH : x64_reg_t := 23.
Definition X64_NOT_SET : x64_reg_t := 24.
Definition X64_IMM8 : x64_reg_t := 25.
Definition X64_IMM16 : x64_reg_t := 26.
Definition X64_IMM32 : x64_reg_t := 27.
Definition X64_BIT_O : x64_reg_t := 0x90.
Definition X64_BIT_C : x64_reg_t := 0x92.
Definition X64_BIT_Z : x64_reg_t := 0x94.
Definition X64_BIT_BE : x64_reg_t := 0x96.
Definition X64_BIT_S : x64_reg_t := 0x98.
Definition X64_BIT_P : x64_reg_t := 0x9a.
Definition X64_BIT_L : x64_reg_t := 0x9c.
Definition X64_BIT_LE : x64_reg_t := 0x9e.
Definition X64_BIT_NLE : x64_reg_t := 0x9f.
Definition X64R_ECX : x64_reg_t := X64R_CL.

(** ** [enum x64_op_t] *)

Inductive x64_op_t : Set :=
| X64OP_NONE
| X64OP_LOAD
| X64OP_LOAD_BE
| X64OP_LOAD_CMP
| X64OP_LOAD_TEST
| X64OP_STORE
| X64OP_STORE_BE
| X64OP_MOVS
| X64OP_STOS
| X64OP_XCHG
| X64OP_CMPXCHG
| X64OP_AND
| X64OP_OR
| X64OP_XOR
| X64OP_INC
| X64OP_DEC
| X64OP_ADD
| X64OP_ADC
| X64OP_SUB
| X64OP_SBB.

#[global] Instance x64_op_eq_dec : EqDecision x64_op_t.
Proof. solve_decision. Defined.

(** ** The decoder *)

Module Decoder.

(** What [LOG_ERROR] reports while the prefixes are scanned. *)
Inductive anomaly : Set :=
| LockTwice
| RepneTwice
| RepeTwice
| Group2After (prefix prev : Z)
| OsoTwice
| AddressSizeOverride
| RexAfter (prefix prev : Z).

(** The locals of [decode_x64_reg_op] that the prefix loop fills in. *)
Record prefixes : Set := mk_prefixes {
  rex : Z;
  pg2 : Z;
  oso : bool;
  lock : bool;
  repne : bool;
  repe : bool;
  anomalies : list anomaly
}.

Definition no_prefixes : prefixes := mk_prefixes 0 0 false false false false [].

Definition note (a : anomaly) (p : prefixes) : prefixes :=
  mk_prefixes (rex p) (pg2 p) (oso p) (lock p) (repne p) (repe p) (anomalies p ++ [a]).

Definition set_lock (p : prefixes) : prefixes :=
  let p := if lock p then note LockTwice p else p in
  mk_prefixes (rex p) (pg2 p) (oso p) true (repne p) (repe p) (anomalies p).

Definition set_repne (p : prefixes) : prefixes :=
  let p := if repne p then note RepneTwice p else p in
  mk_prefixes (rex p) (pg2 p) (oso p) (lock p) true (repe p) (anomalies p).

Definition set_repe (p : prefixes) : prefixes :=
  let p := if repe p then note RepeTwice p else p in
  mk_prefixes (rex p) (pg2 p) (oso p) (lock p) (repne p) true (anomalies p).

Definition set_pg2 (prefix : Z) (p : prefixes) : prefixes :=
  if pg2 p =? 0
  then mk_prefixes (rex p) prefix (oso p) (lock p) (repne p) (repe p) (anomalies p)
  else note (Group2After prefix (pg2 p)) p.

Definition set_oso (p : prefixes) : prefixes :=
  let p := if oso p then note OsoTwice p else p in
  mk_prefixes (rex p) (pg2 p) true (lock p) (repne p) (repe p) (anomalies p).

Definition set_rex (prefix : Z) (p : prefixes) : prefixes :=
  if rex p =? 0
  then mk_prefixes prefix (pg2 p) (oso p) (lock p) (repne p) (repe p) (anomalies p)
  else note (RexAfter prefix (rex p)) p.

(** Outcome of the loop [for (;; code++, out_length++)]: either the early
    [return] of the address-size override, or the [break] with the locals, the
    number of bytes skipped and the remaining stream. *)
Inductive scan_result : Set :=
| Aborted (p : prefixes)
| Scanned (p : prefixes) (out_length : Z) (code : list byte).

Fixpoint scan_prefixes (code : list byte) (p : prefixes) (out_length : Z) : scan_result :=
  match code with
  | [] => Scanned p out_length []
  | prefix :: code' =>
    match prefix with
    | xf0 => scan_prefixes code' (set_lock p) (out_length + 1)
    | xf2 => scan_prefixes code' (set_repne p) (out_length + 1)
    | xf3 => scan_prefixes code' (set_repe p) (out_length + 1)
    | x2e | x36 | x3e | x26 | x64 | x65 =>
      scan_prefixes code' (set_pg2 (byte_val prefix) p) (out_length + 1)
    | x66 => scan_prefixes code' (set_oso p) (out_length + 1)
    | x67 => Aborted (note AddressSizeOverride p)
    | _ =>
      if Z.land (byte_val prefix) 0xf0 =? 0x40
      then scan_prefixes code' (set_rex (byte_val prefix) p) (out_length + 1)
      else Scanned p out_length code
    end
  end.

(** The four out-parameters. *)
Record decoded : Set := mk_decoded {
  out_op : x64_op_t;
  out_reg : x64_reg_t;
  out_size : Z;
  out_length : Z
}.

#[global] Instance decoded_eq_dec : EqDecision decoded.
Proof. solve_decision. Defined.

(** The common exit: [out_op = X64OP_NONE; out_reg = X64_NOT_SET;
    out_size = 0; out_length = 0]. *)
Definition unsupported : decoded := mk_decoded X64OP_NONE X64_NOT_SET 0 0.

Definition get_modRM_reg (code : list byte) (rex : Z) : x64_reg_t :=
  Z.lor (Z.shiftr (Z.land (rd code 0) 0x38) 3)
        (if Z.land rex 4 =? 0 then 0 else 8) + X64R_RAX.

Definition get_modRM_reg_xmm (code : list byte) (rex : Z) : x64_reg_t :=
  Z.lor (Z.shiftr (Z.land (rd code 0) 0x38) 3)
        (if Z.land rex 4 =? 0 then 0 else 8) + X64R_XMM0.

Definition get_modRM_reg_lh (code : list byte) : x64_reg_t :=
  Z.shiftr (Z.land (rd code 0) 0x38) 3 + X64R_AL.

Definition get_op_size (rex : Z) (oso : bool) : Z :=
  if Z.land rex 8 =? 0 then (if oso then 2 else 4) else 8.

Definition get_modRM_size (code : list byte) : Z :=
  match Z.shiftr (rd code 0) 6 with
  | 0 => if Z.land (rd code 0) 0x07 =? 4 then 2 else 1
  | 1 => if Z.land (rd code 0) 0x07 =? 4 then 3 else 2
  | 2 => if Z.land (rd code 0) 0x07 =? 4 then 6 else 5
  | _ => 1
  end.

(** [rex & 8 ? get_modRM_reg(code, rex) : get_modRM_reg_lh(code)] *)
Definition reg8 (code : list byte) (rex : Z) : x64_reg_t :=
  if Z.land rex 8 =? 0 then get_modRM_reg_lh code else get_modRM_reg code rex.

(** The [switch] on the ModRM reg field shared by 0x81 and 0x83. *)
Definition group1_op (mod_code : Z) : x64_op_t :=
  match mod_code with
  | 0 => X64OP_ADD
  | 1 => X64OP_OR
  | 2 => X64OP_ADC
  | 3 => X64OP_SBB
  | 4 => X64OP_AND
  | 5 => X64OP_SUB
  | 6 => X64OP_XOR
  | _ => X64OP_LOAD_CMP
  end.

(** The same [switch] in case 0x80, where [case 0] is commented out. *)
Definition group1_op8 (mod_code : Z) : x64_op_t :=
  match mod_code with
  | 1 => X64OP_OR
  | 2 => X64OP_ADC
  | 3 => X64OP_SBB
  | 4 => X64OP_AND
  | 5 => X64OP_SUB
  | 6 => X64OP_XOR
  | _ => X64OP_LOAD_CMP
  end.

Definition group3_op (mod_code : Z) : x64_op_t :=
  match mod_code with
  | 0 => X64OP_LOAD_TEST
  | _ => X64OP_NONE
  end.

(** The part of [decode_x64_reg_op] after the prefix loop: [p] holds the
    locals, [out_length] the number of prefix bytes, [code] points at the
    opcode. *)
Definition decode_opcode (p : prefixes) (out_length : Z) (code : list byte) : decoded :=
  let op1 := nth 0 code x00 in
  let out_length := out_length + 1 in
  let code := drop 1 code in
  let op2 := nth 0 code x00 in
  let op3 := nth 1 code x00 in
  match op1 with
  | x0f =>
    let out_length := out_length + 1 in
    let code := drop 1 code in
    match op2 with
    | x11 | x29 =>
      if negb (repe p) && negb (repne p)
      then mk_decoded X64OP_STORE (get_modRM_reg_xmm code (rex p)) 16
                      (out_length + get_modRM_size code)
      else unsupported
    | x7f =>
      if (repe p && negb (oso p)) || (negb (repe p) && oso p)
      then mk_decoded X64OP_STORE (get_modRM_reg_xmm code (rex p)) 16
                      (out_length + get_modRM_size code)
      else unsupported
    | xb0 =>
      if negb (oso p)
      then mk_decoded X64OP_CMPXCHG (reg8 code (rex p)) 1
                      (out_length + get_modRM_size code)
      else unsupported
    | xb1 =>
      mk_decoded X64OP_CMPXCHG (get_modRM_reg code (rex p)) (get_op_size (rex p) (oso p))
                 (out_length + get_modRM_size code)
    | x90 | x91 | x92 | x93 | x94 | x95 | x96 | x97 | x98
    | x9a | x9b | x9c | x9d | x9e | x9f =>
      if negb (lock p)
      then mk_decoded X64OP_STORE (X64_BIT_O + byte_val op2 - 0x90) 1
                      (out_length + get_modRM_size code)
      else unsupported
    | x38 =>
      let out_length := out_length + 1 in
      let code := drop 1 code in
      match op3 with
      | xf0 | xf1 =>
        if negb (repne p)
        then mk_decoded (if byte_val op3 =? 0xf0 then X64OP_LOAD_BE else X64OP_STORE_BE)
                        (get_modRM_reg code (rex p)) (get_op_size (rex p) (oso p))
                        (out_length + get_modRM_size code)
        else unsupported
      | _ => unsupported
      end
    | _ => unsupported
    end
  | x20 =>
    if negb (oso p)
    then mk_decoded X64OP_AND (reg8 code (rex p)) 1 (out_length + get_modRM_size code)
    else unsupported
  | x21 =>
    mk_decoded X64OP_AND (get_modRM_reg code (rex p)) (get_op_size (rex p) (oso p))
               (out_length + get_modRM_size code)
  | x80 =>
    mk_decoded (group1_op8 (get_modRM_reg code 0)) X64_IMM8 1
               (out_length + (get_modRM_size code + 1))
  | x81 =>
    mk_decoded (group1_op (get_modRM_reg code 0))
               (if oso p then X64_IMM16 else X64_IMM32) (get_op_size (rex p) (oso p))
               (out_length + (get_modRM_size code + (if oso p then 2 else 4)))
  | x83 =>
    mk_decoded (group1_op (get_modRM_reg code 0)) X64_IMM8 (get_op_size (rex p) (oso p))
               (out_length + (get_modRM_size code + 1))
  | x86 =>
    if negb (oso p)
    then mk_decoded X64OP_XCHG (reg8 code (rex p)) 1 (out_length + get_modRM_size code)
    else unsupported
  | x87 =>
    mk_decoded X64OP_XCHG (get_modRM_reg code (rex p)) (get_op_size (rex p) (oso p))
               (out_length + get_modRM_size code)
  | x88 =>
    if negb (lock p) && negb (oso p)
    then mk_decoded X64OP_STORE (reg8 code (rex p)) 1 (out_length + get_modRM_size code)
    else unsupported
  | x89 =>
    if negb (lock p)
    then mk_decoded X64OP_STORE (get_modRM_reg code (rex p)) (get_op_size (rex p) (oso p))
                    (out_length + get_modRM_size code)
    else unsupported
  | x8a =>
    if negb (lock p) && negb (oso p)
    then mk_decoded X64OP_LOAD (reg8 code (rex p)) 1 (out_length + get_modRM_size code)
    else unsupported
  | x8b =>
    if negb (lock p)
    then mk_decoded X64OP_LOAD (get_modRM_reg code (rex p)) (get_op_size (rex p) (oso p))
                    (out_length + get_modRM_size code)
    else unsupported
  | xa4 =>
    if negb (oso p) && negb (lock p) && negb (repe p) && (rex p =? 0)
    then mk_decoded X64OP_MOVS X64_NOT_SET 1 out_length
    else if negb (oso p) && negb (lock p) && repe p
    then mk_decoded X64OP_MOVS (if Z.land (rex p) 8 =? 0 then X64R_ECX else X64R_RCX) 1
                    out_length
    else unsupported
  | xaa =>
    if negb (oso p) && negb (lock p) && negb (repe p) && (rex p =? 0)
    then mk_decoded X64OP_STOS X64_NOT_SET 1 out_length
    else if negb (oso p) && negb (lock p) && repe p
    then mk_decoded X64OP_STOS (if Z.land (rex p) 8 =? 0 then X64R_ECX else X64R_RCX) 1
                    out_length
    else unsupported
  | xc4 | xc5 =>
    let c5 := byte_val op1 =? 0xc5 in
    (* Last prefix byte: op2 or op3 *)
    let opx := if c5 then byte_val op2 else byte_val op3 in
    (* Implied prefixes *)
    let rex := Z.lor (rex p) (if Z.land (byte_val op2) 0x80 =? 0 then 0x4 else 0) in
    let rex := Z.lor rex (if negb c5 && negb (Z.land (byte_val op3) 0x80 =? 0)
                          then 0x8 else 0) in
    let oso := Z.land opx 0x3 =? 0x1 in
    let repe := Z.land opx 0x3 =? 0x2 in
    let repne := Z.land opx 0x3 =? 0x3 in
    let vopm := if c5 then 1 else Z.land (byte_val op2) 0x1f in
    let vop1 := if c5 then op3 else nth 2 code x00 in
    let vlen := if Z.land opx 0x4 =? 0 then 16 else 32 in
    let out_length := out_length + (if c5 then 2 else 3) in
    let code := drop (if c5 then 2%nat else 3%nat) code in
    if vopm =? 0x1
    then
      match vop1 with
      | x11 | x29 =>
        if negb repe && negb repne
        then mk_decoded X64OP_STORE (get_modRM_reg_xmm code rex) vlen
                        (out_length + get_modRM_size code)
        else unsupported
      | x7f =>
        if repe || oso
        then mk_decoded X64OP_STORE (get_modRM_reg_xmm code rex) vlen
                        (out_length + get_modRM_size code)
        else unsupported
      | _ => unsupported
      end
    else unsupported
  | xc6 =>
    if negb (lock p) && negb (oso p) && (get_modRM_reg code 0 =? 0)
    then mk_decoded X64OP_STORE X64_IMM8 1 (out_length + (get_modRM_size code + 1))
    else unsupported
  | xc7 =>
    if negb (lock p) && (get_modRM_reg code 0 =? 0)
    then mk_decoded X64OP_STORE (if oso p then X64_IMM16 else X64_IMM32)
                    (get_op_size (rex p) (oso p))
                    (out_length + (get_modRM_size code + (if oso p then 2 else 4)))
    else unsupported
  | xf6 =>
    mk_decoded (group3_op (get_modRM_reg code 0)) X64_IMM8 1
               (out_length + (get_modRM_size code + 1))
  | xf7 =>
    mk_decoded (group3_op (get_modRM_reg code 0))
               (if oso p then X64_IMM16 else X64_IMM32) (get_op_size (rex p) (oso p))
               (out_length + (get_modRM_size code + (if oso p then 2 else 4)))
  | _ => unsupported
  end.

Definition decode_x64_reg_op (code : list byte) : decoded :=
  match scan_prefixes code no_prefixes 0 with
  | Aborted _ => unsupported
  | Scanned p out_length code => decode_opcode p out_length code
  end.

(** What the decoder logs for [code]. *)
Definition decode_log (code : list byte) : list anomaly :=
  match scan_prefixes code no_prefixes 0 with
  | Aborted p => anomalies p
  | Scanned p _ _ => anomalies p
  end.

(** Writing a stream down: [bytes [0x0f; 0xb1; 0x0b]]. *)
Definition to_byte (z : Z) : byte :=
  match Byte.of_N (Z.to_N (z mod 256)) with
  | Some b => b
  | None => x00
  end.

Definition bytes (l : list Z) : list byte := map to_byte l.

End Decoder.

(** ** The decoder against the instruction format

    The format, stated independently of the decoder: which bytes are
    prefixes, how many bytes the opcode takes, the ModRM rule as the
    specification words it, and the width of the immediate as the
    instruction set defines it. *)

Module Format.
Import Decoder.

Definition is_rex (b : byte) : bool := Z.land (byte_val b) 0xf0 =? 0x40.

Definition is_seg (b : byte) : bool :=
  match b with
  | x2e | x36 | x3e | x26 | x64 | x65 => true
  | _ => false
  end.

(** Lock, repeat, segment override, operand-size override and REX; the
    address-size override is not among them, it ends decoding. *)
Definition is_prefix_byte (b : byte) : bool :=
  match b with
  | xf0 | xf2 | xf3 | x66 => true
  | _ => is_seg b || is_rex b
  end.

(** The leading prefix bytes of a stream. *)
Fixpoint prefix_run (code : list byte) : list byte :=
  match code with
  | [] => []
  | b :: code' => if is_prefix_byte b then b :: prefix_run code' else []
  end.

Definition has (b : byte) (run : list byte) : bool := existsb (Byte.eqb b) run.

Definition rex_bytes (run : list byte) : list Z := map byte_val (List.filter is_rex run).
Definition seg_bytes (run : list byte) : list Z := map byte_val (List.filter is_seg run).

(** The byte that follows the prefix run. *)
Definition after_prefixes (code : list byte) : byte :=
  nth (length (prefix_run code)) code x00.

(** The stream from the opcode on. *)
Definition body (code : list byte) : list byte := drop (length (prefix_run code)) code.

(** Bytes of the opcode proper: one, two with the 0x0F escape, three with
    0x0F 0x38; a VEX prefix of two or three bytes is followed by one opcode
    byte. *)
Definition opcode_bytes (body : list byte) : nat :=
  match nth 0 body x00 with
  | x0f => match nth 1 body x00 with x38 => 3 | _ => 2 end
  | xc5 => 3
  | xc4 => 4
  | _ => 1
  end.

(** The displacement/SIB rule: the bytes taken by ModRM, SIB and
    displacement, from the Mod and RM fields of the ModRM byte. *)
Definition modRM_rule (modrm : byte) : Z :=
  let md := byte_val modrm / 64 in
  let rm := byte_val modrm mod 8 in
  if md =? 0 then (if rm =? 4 then 2 else 1)
  else if md =? 1 then (if rm =? 4 then 3 else 2)
  else if md =? 2 then (if rm =? 4 then 6 else 5)
  else 1.

(** The block operations take no ModRM byte. *)
Definition has_modRM (op1 : byte) : bool :=
  match op1 with
  | xa4 | xaa => false
  | _ => true
  end.

(** The ModRM reg field, bits 5..3. *)
Definition modRM_reg_field (modrm : byte) : Z := (byte_val modrm / 8) mod 8.

(** The REX prefix in effect.  A REX byte counts only where it immediately
    precedes the opcode: it is the last byte of the prefix run, if that byte
    is a REX byte, and there is none otherwise. *)
Definition rex_in_effect (run : list byte) : Z :=
  let b := List.last run x00 in
  if is_rex b then byte_val b else 0.

(** REX.W, which selects 64-bit operands and takes precedence over the
    operand-size override. *)
Definition rex_w (run : list byte) : bool := Z.testbit (rex_in_effect run) 3.

(** Width of the trailing immediate of the instructions behind the opcodes
    of the decoder.  0x80, 0x83 and 0xC6 take an 8-bit immediate; 0x81 and
    0xC7 take 16 bits with a 16-bit operand (0x66 without REX.W) and 32 bits
    otherwise, also with REX.W, where the immediate is sign-extended to 64
    bits; in group 3 (0xF6, 0xF7) only TEST, reg field 0 or 1, has an
    immediate: NOT, NEG, MUL, IMUL, DIV and IDIV have none. *)
Definition imm_bytes (op1 : byte) (reg_field : Z) (rex_w oso : bool) : Z :=
  let imm_z := if rex_w then 4 else if oso then 2 else 4 in
  match op1 with
  | x80 | x83 | xc6 => 1
  | x81 | xc7 => imm_z
  | xf6 => if reg_field <? 2 then 1 else 0
  | xf7 => if reg_field <? 2 then imm_z else 0
  | _ => 0
  end.

(** prefixes + opcode bytes + ModRM/SIB/displacement + immediate *)
Definition insn_length (code : list byte) : Z :=
  let run := prefix_run code in
  let b := body code in
  let op1 := nth 0 b x00 in
  Z.of_nat (length run) + Z.of_nat (opcode_bytes b)
  + (if has_modRM op1 then modRM_rule (nth (opcode_bytes b) b x00) else 0)
  + imm_bytes op1 (modRM_reg_field (nth 1 b x00)) (rex_w run) (has x66 run).

(** The one-byte opcodes the decoder has a [case] for. *)
Definition enumerated_opcode (op1 : byte) : bool :=
  match op1 with
  | x0f | x20 | x21 | x80 | x81 | x83 | x86 | x87 | x88 | x89 | x8a | x8b
  | xa4 | xaa | xc4 | xc5 | xc6 | xc7 | xf6 | xf7 => true
  | _ => false
  end.

(** The opcodes of the 0x0F map the decoder has a [case] for. *)
Definition enumerated_opcode_0f (op2 : byte) : bool :=
  match op2 with
  | x11 | x29 | x7f | xb0 | xb1 | x38
  | x90 | x91 | x92 | x93 | x94 | x95 | x96 | x97 | x98
  | x9a | x9b | x9c | x9d | x9e | x9f => true
  | _ => false
  end.

End Format.

(** ** The saved register context *)

Module Context.

(** [x64_context]: the slots [X64REG(context, 0..16)] (RAX, RCX, RDX, RBX,
    RSP, RBP, RSI, RDI, R8..R15 and, at 16, RIP), the vector registers
    [XMMREG(context, 0..15)] and [EFLAGS(context)]. *)
Record x64_context : Type := mk_context {
  gregs : list Z;
  xmm : list Z;
  eflags : Z
}.

#[global] Instance x64_context_eq_dec : EqDecision x64_context.
Proof. solve_decision. Defined.

Definition X64REG (c : x64_context) (reg : Z) : Z := gregs c !!! Z.to_nat reg.
Definition XMMREG (c : x64_context) (reg : Z) : Z := xmm c !!! Z.to_nat reg.
Definition EFLAGS (c : x64_context) : Z := eflags c.

Definition set_X64REG (c : x64_context) (reg : Z) (v : Z) : x64_context :=
  mk_context (<[Z.to_nat reg := v]> (gregs c)) (xmm c) (eflags c).

Definition set_EFLAGS (c : x64_context) (v : Z) : x64_context :=
  mk_context (gregs c) (xmm c) v.

Definition RAX (c : x64_context) : Z := X64REG c 0.
Definition RCX (c : x64_context) : Z := X64REG c 1.
Definition RSI (c : x64_context) : Z := X64REG c 6.
Definition RDI (c : x64_context) : Z := X64REG c 7.
Definition RIP (c : x64_context) : Z := X64REG c 16.

(** A context with all 17 general slots and 16 vector registers. *)
Definition well_formed (c : x64_context) : Prop :=
  length (gregs c) = 17%nat /\ length (xmm c) = 16%nat.

(** [EFLAGS(context) |= bit] / [EFLAGS(context) &= ~bit] *)
Definition flag (set : bool) (bit : Z) (c : x64_context) : x64_context :=
  set_EFLAGS c (if set then Z.lor (EFLAGS c) bit else Z.land (EFLAGS c) (Z.lnot bit)).

(** The byte at [RIP(context) + off]; the handler never reads below [RIP]
    (it rejects [i_size = 0] first), such a read yields 0 here. *)
Definition rip_byte (code : list byte) (off : Z) : Z :=
  if off <? 0 then 0 else rd code (Z.to_nat off).

(** [*(s8* )p], [*(s16* )p], [*(s32* )p] at [RIP + off], little endian. *)
Definition signed (bits : Z) (v : Z) : Z := if v <? 2^(bits - 1) then v else v - 2^bits.

Definition rip_s8 (code : list byte) (off : Z) : Z := signed 8 (rip_byte code off).
Definition rip_s16 (code : list byte) (off : Z) : Z :=
  signed 16 (rip_byte code off + 2^8 * rip_byte code (off + 1)).
Definition rip_s32 (code : list byte) (off : Z) : Z :=
  signed 32 (rip_byte code off + 2^8 * rip_byte code (off + 1)
             + 2^16 * rip_byte code (off + 2) + 2^24 * rip_byte code (off + 3)).

(** [!!v] *)
Definition nz (v : Z) : Z := if v =? 0 then 0 else 1.

Definition get_x64_reg_value (code : list byte) (c : x64_context)
    (reg : x64_reg_t) (d_size i_size : Z) : option Z :=
  if u32 (reg - X64R_RAX) <? 16 then
    (* load the value from x64 register *)
    let reg_value := X64REG c (reg - X64R_RAX) in
    match d_size with
    | 1 => Some (u8 reg_value)
    | 2 => Some (u16 reg_value)
    | 4 => Some (u32 reg_value)
    | 8 => Some reg_value
    | _ => None
    end
  else if (u32 (reg - X64R_AL) <? 4) && (d_size =? 1) then
    Some (u8 (X64REG c (reg - X64R_AL)))
  else if (u32 (reg - X64R_AH) <? 4) && (d_size =? 1) then
    Some (u8 (Z.shiftr (X64REG c (reg - X64R_AH)) 8))
  else if reg =? X64_IMM8 then
    (* load the immediate value (assuming it's at the end of the instruction) *)
    let imm_value := rip_s8 code (i_size - 1) in
    match d_size with
    | 1 => Some (u8 imm_value)
    | 2 => Some (u16 imm_value)
    | 4 => Some (u32 imm_value)
    | 8 => Some (u64 imm_value)
    | _ => None
    end
  else if reg =? X64_IMM16 then
    let imm_value := rip_s16 code (i_size - 2) in
    match d_size with
    | 2 => Some (u16 imm_value)
    | _ => None
    end
  else if reg =? X64_IMM32 then
    let imm_value := rip_s32 code (i_size - 4) in
    match d_size with
    | 4 => Some (u32 imm_value)
    | 8 => Some (u64 imm_value)
    | _ => None
    end
  else if reg =? X64R_ECX then
    Some (u32 (RCX c))
  else if (X64_BIT_O <=? reg) && (reg <=? X64_BIT_NLE) then
    let _cf := Z.land (u32 (EFLAGS c)) 0x1 in
    let _zf := Z.land (u32 (EFLAGS c)) 0x40 in
    let _sf := Z.land (u32 (EFLAGS c)) 0x80 in
    let _of := Z.land (u32 (EFLAGS c)) 0x800 in
    let _pf := Z.land (u32 (EFLAGS c)) 0x4 in
    let _l := Z.lxor (u32 (Z.shiftl _sf 4)) _of in
    let inv := Z.land reg 1 in
    let sel := Z.land reg (Z.lnot 1) in
    if sel =? X64_BIT_O then Some (Z.lxor (nz _of) inv)
    else if sel =? X64_BIT_C then Some (Z.lxor (nz _cf) inv)
    else if sel =? X64_BIT_Z then Some (Z.lxor (nz _zf) inv)
    else if sel =? X64_BIT_BE then Some (Z.lxor (nz (Z.lor _cf _zf)) inv)
    else if sel =? X64_BIT_S then Some (Z.lxor (nz _sf) inv)
    else if sel =? X64_BIT_P then Some (Z.lxor (nz _pf) inv)
    else if sel =? X64_BIT_L then Some (Z.lxor (nz _l) inv)
    else Some (Z.lxor (nz (Z.lor _l _zf)) inv)
  else None.

(** [None] is the [return false] after the log line; the context is written
    only on success. *)
Definition put_x64_reg_value (c : x64_context) (reg : x64_reg_t) (d_size : Z) (value : Z)
    : option x64_context :=
  if u32 (reg - X64R_RAX) <? 16 then
    let r := reg - X64R_RAX in
    match d_size with
    | 1 => Some (set_X64REG c r (Z.lor (Z.land value 0xff) (Z.land (X64REG c r) 0xffffff00)))
    | 2 => Some (set_X64REG c r (Z.lor (Z.land value 0xffff) (Z.land (X64REG c r) 0xffff0000)))
    | 4 => Some (set_X64REG c r (Z.land value 0xffffffff))
    | 8 => Some (set_X64REG c r value)
    | _ => None
    end
  else None.

Definition set_x64_cmp_flags (c : x64_context) (d_size : Z) (x y : Z) (carry : bool)
    : option x64_context :=
  match d_size with
  | 1 | 2 | 4 | 8 =>
    let sign := Z.shiftl 1 (d_size * 8 - 1) in (* sign mask *)
    let diff := u64 (x - y) in
    let summ := u64 (x + y) in
    let c :=
      if carry
      then flag (negb (Z.land (Z.lor (Z.land x y) (Z.land (Z.lxor x y) (Z.lnot summ))) sign
                       =? 0)) 0x1 c
      else c in
    let c := flag (x =? y) 0x40 c in
    let c := flag (negb (Z.land diff sign =? 0)) 0x80 c in
    let c := flag (negb (Z.land (Z.land (Z.lxor x summ) (Z.lxor y summ)) sign =? 0)) 0x800 c in
    let p1 := u8 (Z.lxor (u8 diff) (Z.shiftr (u8 diff) 4)) in
    let p2 := u8 (Z.lxor p1 (Z.shiftr p1 2)) in
    let p3 := u8 (Z.lxor p2 (Z.shiftr p2 1)) in
    let c := flag (Z.land p3 1 =? 0) 0x4 c in
    let c := flag (negb (Z.land (Z.lor (Z.land x y) (Z.land (Z.lxor x y) (Z.lnot summ))) 0x8
                         =? 0)) 0x10 c in
    Some c
  | _ => None
  end.

Definition is_block_op (op : x64_op_t) : bool :=
  match op with
  | X64OP_MOVS | X64OP_STOS => true
  | _ => false
  end.

(** [size_t get_x64_access_size(...)]; the failure value [-1] is [2^64 - 1]. *)
Definition get_x64_access_size (code : list byte) (c : x64_context) (op : x64_op_t)
    (reg : x64_reg_t) (d_size i_size : Z) : Z :=
  if is_block_op op && negb (Z.land (EFLAGS c) 0x400 =? 0) then
    (* skip reservation bound check (TODO) *)
    0
  else if is_block_op op && negb (reg =? X64_NOT_SET) then
    (* get "full" access size from RCX register *)
    match get_x64_reg_value code c reg 8 i_size with
    | None => u64 (-1)
    | Some counter => u64 (d_size * counter)
    end
  else if bool_decide (op = X64OP_CMPXCHG) then
    (* Detect whether the instruction can't actually modify memory *)
    match get_x64_reg_value code c reg d_size i_size,
          get_x64_reg_value code c X64R_RAX d_size i_size with
    | Some cmp, Some exch => if cmp =? exch then 0 else d_size
    | _, _ => u64 (-1)
    end
  else d_size.

End Context.

(** ** The access-violation handler *)

Module Handler.
Import Decoder Context.

(** Host memory: bytes by address, an unmapped byte reads as 0. *)
Definition memory : Type := gmap Z Z.

Fixpoint load (m : memory) (p : Z) (n : nat) : Z :=
  match n with
  | O => 0
  | S k => default 0 (m !! p) + 2^8 * load m (p + 1) k
  end.

(** [memcpy(p, &v, n)] on a little-endian host. *)
Fixpoint store (m : memory) (p : Z) (n : nat) (v : Z) : memory :=
  match n with
  | O => m
  | S k => store (<[p := v mod 2^8]> m) (p + 1) k (v / 2^8)
  end.

(** [se_storage<T>::swap] for a [T] of [n] bytes. *)
Fixpoint swap (n : nat) (v : Z) : Z :=
  match n with
  | O => 0
  | S k => (v mod 2^8) * 2^(8 * Z.of_nat k) + swap k (v / 2^8)
  end.

(** Calls that leave this translation unit. *)
Inductive event : Set :=
| EvReadReg (index addr : Z)
| EvWriteReg (index addr value : Z)
| EvReservationQuery (addr size : Z) (is_writing : bool).

Record state : Type := mk_state {
  ctx : x64_context;
  mem : memory;
  trace : list event
}.

Definition with_ctx (s : state) (c : x64_context) : state := mk_state c (mem s) (trace s).
Definition with_mem (s : state) (m : memory) : state := mk_state (ctx s) m (trace s).
Definition emit (e : event) (s : state) : state := mk_state (ctx s) (mem s) (trace s ++ [e]).

(** How a [case] of the handler's [switch] ends: [break] (the instruction is
    then skipped), an early [return], or a loop that was cut by its fuel. *)
Inductive outcome : Type :=
| Break (s : state)
| Return (handled : bool) (s : state)
| OutOfFuel.

(** The page of a 32-bit address has 4096 bytes: a block loop that advances
    by at least one byte leaves it within 4096 iterations. *)
Definition page_fuel : nat := 4097.

(** Plain load, load-BE, load-compare, load-test, store and store-BE. *)
Definition mmio_op (op : x64_op_t) : bool :=
  match op with
  | X64OP_LOAD | X64OP_LOAD_BE | X64OP_LOAD_CMP | X64OP_LOAD_TEST
  | X64OP_STORE | X64OP_STORE_BE => true
  | _ => false
  end.

Definition is_query (e : event) : bool :=
  match e with
  | EvReservationQuery _ _ _ => true
  | _ => false
  end.

Section WithPlatform.

(** Constants of [Emu/Cell/RawSPUThread.h], which is not part of this file. *)
Variables RAW_SPU_BASE_ADDR RAW_SPU_OFFSET RAW_SPU_PROB_OFFSET : Z.

(** [vm::base] and [vm::base_priv]: the host pointer of an emulated address,
    in the ordinary and in the privileged view. *)
Variables vm_base vm_base_priv : Z -> Z.

(** [rsx::g_access_violation_handler], a [std::function] that may be empty. *)
Variable g_access_violation_handler : option (Z -> bool -> bool).

(** [idm::get<RawSPUThread>(index)] and the register interface of the
    thread found: [read_reg] yields the value read or fails, [write_reg]
    reports success. *)
Variable raw_spu_thread : Z -> bool.
Variable read_reg : Z -> Z -> option Z.
Variable write_reg : Z -> Z -> Z -> bool.

(** The test [addr - RAW_SPU_BASE_ADDR < (6 * RAW_SPU_OFFSET) &&
    (addr % RAW_SPU_OFFSET) >= RAW_SPU_PROB_OFFSET] on [u32] operands. *)
Definition is_raw_spu_mmio (addr : Z) : bool :=
  (u32 (addr - RAW_SPU_BASE_ADDR) <? u32 (6 * RAW_SPU_OFFSET))
  && (RAW_SPU_PROB_OFFSET <=? addr mod RAW_SPU_OFFSET).

(** [addr] lies in the probe sub-range of one of the six register windows:
    window [i] starts at [RAW_SPU_BASE_ADDR + i * RAW_SPU_OFFSET], its
    sub-range at [RAW_SPU_PROB_OFFSET] within the slot. *)
Definition in_probe_range (addr : Z) : Prop :=
  exists i, 0 <= i < 6
    /\ RAW_SPU_BASE_ADDR + i * RAW_SPU_OFFSET + RAW_SPU_PROB_OFFSET <= addr
       < RAW_SPU_BASE_ADDR + (i + 1) * RAW_SPU_OFFSET.

(** The RawSPU branch of [handle_access_violation]. *)
Definition raw_spu_access (code : list byte) (addr : Z) (is_writing : bool)
    (op : x64_op_t) (reg : x64_reg_t) (d_size a_size i_size : Z) (s : state)
    : bool * state :=
  let index := u32 (addr - RAW_SPU_BASE_ADDR) / RAW_SPU_OFFSET in
  if negb (raw_spu_thread index) then (false, s)
  else if negb (a_size =? 4) || (d_size =? 0) || (i_size =? 0) then (false, s)
  else
    let skip (s : state) : bool * state :=
      (* skip processed instruction *)
      (true, with_ctx s (set_X64REG (ctx s) 16 (u64 (RIP (ctx s) + i_size)))) in
    match op with
    | X64OP_LOAD | X64OP_LOAD_BE | X64OP_LOAD_CMP | X64OP_LOAD_TEST =>
      if is_writing then (false, s)
      else
        let s := emit (EvReadReg index addr) s in
        match read_reg index addr with
        | None => (false, s)
        | Some value =>
          let value := if bool_decide (op = X64OP_LOAD_BE) then value else swap 4 value in
          if bool_decide (op = X64OP_LOAD_CMP) then
            match get_x64_reg_value code (ctx s) reg d_size i_size with
            | None => (false, s)
            | Some rvalue =>
              match set_x64_cmp_flags (ctx s) d_size value rvalue true with
              | None => (false, s)
              | Some c => skip (with_ctx s c)
              end
            end
          else if bool_decide (op = X64OP_LOAD_TEST) then
            match get_x64_reg_value code (ctx s) reg d_size i_size with
            | None => (false, s)
            | Some rvalue =>
              match set_x64_cmp_flags (ctx s) d_size (Z.land value rvalue) 0 true with
              | None => (false, s)
              | Some c => skip (with_ctx s c)
              end
            end
          else
            match put_x64_reg_value (ctx s) reg d_size value with
            | None => (false, s)
            | Some c => skip (with_ctx s c)
            end
        end
    | X64OP_STORE | X64OP_STORE_BE =>
      if negb is_writing then (false, s)
      else
        match get_x64_reg_value code (ctx s) reg d_size i_size with
        | None => (false, s)
        | Some reg_value =>
          let value := if bool_decide (op = X64OP_STORE)
                       then swap 4 (u32 reg_value) else u32 reg_value in
          let s := emit (EvWriteReg index addr value) s in
          if write_reg index addr value then skip s else (false, s)
        end
    | _ => (false, s)
    end.

(** The [while (a_addr >> 12 == addr >> 12)] loop of [case X64OP_MOVS]. *)
Fixpoint movs_loop (fuel : nat) (addr a_addr d_size : Z) (reg : x64_reg_t) (s : state)
    : outcome :=
  match fuel with
  | O => OutOfFuel
  | S fuel =>
    if Z.shiftr a_addr 12 =? Z.shiftr addr 12 then
      (* copy data *)
      let value := load (mem s) (RSI (ctx s)) (Z.to_nat d_size) in
      let s := with_mem s (store (mem s) (vm_base_priv a_addr) (Z.to_nat d_size) value) in
      (* shift pointers *)
      if negb (Z.land (EFLAGS (ctx s)) 0x400 =? 0) then Return false s
      else
        let c := set_X64REG (ctx s) 6 (u64 (RSI (ctx s) + d_size)) in
        let c := set_X64REG c 7 (u64 (RDI c + d_size)) in
        let a_addr := u32 (a_addr + u32 d_size) in
        (* decrement counter *)
        if reg =? X64_NOT_SET then Break (with_ctx s c)
        else
          let c := set_X64REG c 1 (u64 (RCX c - 1)) in
          if RCX c =? 0 then Break (with_ctx s c)
          else movs_loop fuel addr a_addr d_size reg (with_ctx s c)
    else Break s
  end.

(** The loop of [case X64OP_STOS]. *)
Fixpoint stos_loop (fuel : nat) (addr a_addr d_size value : Z) (reg : x64_reg_t) (s : state)
    : outcome :=
  match fuel with
  | O => OutOfFuel
  | S fuel =>
    if Z.shiftr a_addr 12 =? Z.shiftr addr 12 then
      (* fill data with value *)
      let s := with_mem s (store (mem s) (vm_base_priv a_addr) (Z.to_nat d_size) value) in
      (* shift pointers *)
      if negb (Z.land (EFLAGS (ctx s)) 0x400 =? 0) then Return false s
      else
        let c := set_X64REG (ctx s) 7 (u64 (RDI (ctx s) + d_size)) in
        let a_addr := u32 (a_addr + u32 d_size) in
        (* decrement counter *)
        if reg =? X64_NOT_SET then Break (with_ctx s c)
        else
          let c := set_X64REG c 1 (u64 (RCX c - 1)) in
          if RCX c =? 0 then Break (with_ctx s c)
          else stos_loop fuel addr a_addr d_size value reg (with_ctx s c)
    else Break s
  end.

(** After either loop: [if (reg == X64_NOT_SET || !RCX(context)) break;
    return true;] — a partially processed instruction is not skipped. *)
Definition after_block_loop (reg : x64_reg_t) (o : outcome) : outcome :=
  match o with
  | Break s =>
    if (reg =? X64_NOT_SET) || (RCX (ctx s) =? 0) then Break s else Return true s
  | o => o
  end.

(** An [atomic_t<T>] read-modify-write on [n] bytes at [p]: the new value is
    [f old] truncated; yields the old value, the new value and the memory. *)
Definition atomic_rmw (m : memory) (p : Z) (n : Z) (f : Z -> Z) : Z * Z * memory :=
  let old := load m p (Z.to_nat n) in
  let new := trunc n (f old) in
  (old, new, store m p (Z.to_nat n) new).

Definition is_access_size (d_size : Z) : bool :=
  match d_size with
  | 1 | 2 | 4 | 8 => true
  | _ => false
  end.

(** The arithmetic cases share one shape: read the operand (if any), update
    memory atomically, set the flags from [(x, y)]. *)
Definition rmw_case (s : state) (addr d_size : Z) (f : Z -> Z)
    (flags : Z -> Z * Z) (carry : bool) : outcome :=
  if negb (is_access_size d_size) then Return false s
  else
    let '(_, new, m) := atomic_rmw (mem s) (vm_base_priv addr) d_size f in
    let s := with_mem s m in
    match set_x64_cmp_flags (ctx s) d_size (fst (flags new)) (snd (flags new)) carry with
    | None => Return false s
    | Some c => Break (with_ctx s c)
    end.

(** The callback handed to [vm::reservation_query]: the privileged access
    that stands for the faulting instruction. *)
Definition privileged_access (code : list byte) (addr : Z)
    (op : x64_op_t) (reg : x64_reg_t) (d_size i_size : Z) (s : state) : outcome :=
  if (d_size =? 0) || (i_size =? 0) then Return false s
  else
    let operand := get_x64_reg_value code (ctx s) reg d_size i_size in
    match op with
    | X64OP_STORE | X64OP_STORE_BE =>
      if (d_size =? 16) && bool_decide (op = X64OP_STORE) then
        if 16 <=? u32 (reg - X64R_XMM0) then Return false s
        else Break (with_mem s (store (mem s) (vm_base_priv addr) 16
                                      (XMMREG (ctx s) (reg - X64R_XMM0))))
      else
        match operand with
        | None => Return false s
        | Some reg_value =>
          let swapped :=
            if bool_decide (op = X64OP_STORE_BE) then
              match d_size with
              | 2 => Some (swap 2 (u16 reg_value))
              | 4 => Some (swap 4 (u32 reg_value))
              | 8 => Some (swap 8 reg_value)
              | _ => None
              end
            else Some reg_value in
          match swapped with
          | None => Return false s
          | Some reg_value =>
            Break (with_mem s (store (mem s) (vm_base_priv addr) (Z.to_nat d_size) reg_value))
          end
        end
    | X64OP_MOVS =>
      if 8 <? d_size then Return false s
      else if negb (vm_base addr =? RDI (ctx s)) then Return false s
      else after_block_loop reg (movs_loop page_fuel addr addr d_size reg s)
    | X64OP_STOS =>
      if 8 <? d_size then Return false s
      else if negb (vm_base addr =? RDI (ctx s)) then Return false s
      else
        match get_x64_reg_value code (ctx s) X64R_RAX d_size i_size with
        | None => Return false s
        | Some value =>
          after_block_loop reg (stos_loop page_fuel addr addr d_size value reg s)
        end
    | X64OP_XCHG =>
      match operand with
      | None => Return false s
      | Some reg_value =>
        if negb (is_access_size d_size) then Return false s
        else
          let '(old, _, m) :=
            atomic_rmw (mem s) (vm_base_priv addr) d_size (fun _ => reg_value) in
          let s := with_mem s m in
          match put_x64_reg_value (ctx s) reg d_size old with
          | None => Return false s
          | Some c => Break (with_ctx s c)
          end
      end
    | X64OP_CMPXCHG =>
      match operand, get_x64_reg_value code (ctx s) X64R_RAX d_size i_size with
      | Some reg_value, Some cmp_value =>
        if negb (is_access_size d_size) then Return false s
        else
          let '(old_value, _, m) :=
            atomic_rmw (mem s) (vm_base_priv addr) d_size
              (fun old => if old =? trunc d_size cmp_value then reg_value else old) in
          let s := with_mem s m in
          match put_x64_reg_value (ctx s) X64R_RAX d_size old_value with
          | None => Return false s
          | Some c =>
            match set_x64_cmp_flags c d_size cmp_value old_value true with
            | None => Return false (with_ctx s c)
            | Some c => Break (with_ctx s c)
            end
          end
      | _, _ => Return false s
      end
    | X64OP_AND =>
      match operand with
      | None => Return false s
      | Some value =>
        rmw_case s addr d_size (fun old => Z.land old (trunc d_size value))
                 (fun new => (new, 0)) true
      end
    | X64OP_OR =>
      match operand with
      | None => Return false s
      | Some value =>
        rmw_case s addr d_size (fun old => Z.lor old (trunc d_size value))
                 (fun new => (new, 0)) true
      end
    | X64OP_XOR =>
      match operand with
      | None => Return false s
      | Some value =>
        rmw_case s addr d_size (fun old => Z.lxor old (trunc d_size value))
                 (fun new => (new, 0)) true
      end
    | X64OP_INC =>
      rmw_case s addr d_size (fun old => old + 1) (fun new => (new, 1)) false
    | X64OP_DEC =>
      rmw_case s addr d_size (fun old => old - 1) (fun new => (new, u64 (-1))) false
    | X64OP_ADD =>
      match operand with
      | None => Return false s
      | Some value =>
        rmw_case s addr d_size (fun old => old + trunc d_size value)
                 (fun new => (new, value)) true
      end
    | X64OP_ADC =>
      match operand with
      | None => Return false s
      | Some value =>
        let cf := Z.land (EFLAGS (ctx s)) 1 in
        rmw_case s addr d_size (fun old => old + trunc d_size (value + cf))
                 (fun new => (new, u64 (value + cf))) true
      end
    | X64OP_SUB =>
      match operand with
      | None => Return false s
      | Some value =>
        rmw_case s addr d_size (fun old => old - trunc d_size value)
                 (fun new => (new, u64 (0 - value))) true
      end
    | X64OP_SBB =>
      match operand with
      | None => Return false s
      | Some value =>
        let cf := Z.land (EFLAGS (ctx s)) 1 in
        rmw_case s addr d_size (fun old => old - trunc d_size (value + cf))
                 (fun new => (new, u64 (0 - u64 (value + cf)))) true
      end
    | _ => Return false s
    end.

(** The end of the callback: after a [break] the processed instruction is
    skipped, [RIP(context) += i_size; return true]. *)
Definition finish (i_size : Z) (o : outcome) : option (bool * state) :=
  match o with
  | Break s => Some (true, with_ctx s (set_X64REG (ctx s) 16 (u64 (RIP (ctx s) + i_size))))
  | Return handled s => Some (handled, s)
  | OutOfFuel => None
  end.

(** Modelled from the spec: [vm::reservation_query(address, size, isWrite,
    mutateCallback)], defined with the emulated memory, "executes
    mutateCallback under reservation-consistent ordering; returns its
    result". *)
Definition reservation_query (addr size : Z) (is_writing : bool)
    (callback : state -> option (bool * state)) (s : state) : option (bool * state) :=
  callback (emit (EvReservationQuery addr size is_writing) s).

(** [(size | size + addr) >= 0x100000000ull] on [size_t]. *)
Definition out_of_range (size addr : Z) : bool :=
  2^32 <=? Z.lor size (u64 (size + addr)).

(** [rsx::g_access_violation_handler && rsx::g_access_violation_handler(addr,
    is_writing)] *)
Definition hook_claims (addr : Z) (is_writing : bool) : bool :=
  match g_access_violation_handler with
  | Some handler => handler addr is_writing
  | None => false
  end.

(** The last statement of [handle_access_violation]: the reservation query
    with the privileged access as its callback. *)
Definition ram_access (code : list byte) (addr : Z) (is_writing : bool)
    (op : x64_op_t) (reg : x64_reg_t) (d_size a_size i_size : Z) (s : state)
    : option (bool * state) :=
  reservation_query addr (u32 a_size) is_writing
    (fun s => finish i_size (privileged_access code addr op reg d_size i_size s)) s.

(** [None] only if a block loop ran out of fuel, which
    [handle_access_violation_returns] excludes. *)
Definition handle_access_violation (code : list byte) (addr : Z) (is_writing : bool)
    (s : state) : option (bool * state) :=
  if hook_claims addr is_writing then Some (true, s)
  else
    (* decode single x64 instruction that causes memory access *)
    let d := decode_x64_reg_op code in
    let op := out_op d in
    let reg := out_reg d in
    let d_size := out_size d in
    let i_size := out_length d in
    if out_of_range d_size addr then Some (false, s)
    else
      (* get length of data being accessed *)
      let a_size := get_x64_access_size code (ctx s) op reg d_size i_size in
      if out_of_range a_size addr then Some (false, s)
      else if is_raw_spu_mmio addr then
        (* address is RawSPU MMIO register *)
        Some (raw_spu_access code addr is_writing op reg d_size a_size i_size s)
      else
        (* check if fault is caused by the reservation *)
        ram_access code addr is_writing op reg d_size a_size i_size s.

End WithPlatform.

End Handler.

(** ** Reference semantics *)

Module Hardware.

(** The status flags an x86-64 processor leaves after [SUB]/[CMP] of two
    operands of [d_size] bytes, as a mask over EFLAGS: CF is the borrow, PF
    the even parity of the low result byte, AF the borrow out of bit 3, ZF
    and SF describe the result, OF is the signed overflow. *)
Definition bit_if (b : bool) (mask : Z) : Z := if b then mask else 0.

Definition ones (v : Z) : Z :=
  fold_right Z.add 0 (map (fun i => Z.b2z (Z.testbit v i)) [0; 1; 2; 3; 4; 5; 6; 7]).

Definition as_signed (w : Z) (v : Z) : Z := if v <? 2^(w - 1) then v else v - 2^w.

Definition sub_flags (d_size x y : Z) : Z :=
  let w := 8 * d_size in
  let r := (x - y) mod 2^w in
  let s := as_signed w x - as_signed w y in
  bit_if (x <? y) 0x1
  + bit_if (Z.even (ones r)) 0x4
  + bit_if (x mod 16 <? y mod 16) 0x10
  + bit_if (r =? 0) 0x40
  + bit_if (2^(w - 1) <=? r) 0x80
  + bit_if ((s <? - 2^(w - 1)) || (2^(w - 1) <=? s)) 0x800.

(** The status flags the processor leaves after [ADD] of two operands of
    [d_size] bytes: CF is the carry out of the top bit, AF the carry out of
    bit 3, OF the signed overflow of the sum; PF, ZF and SF describe the
    sum. *)
Definition add_flags (d_size x y : Z) : Z :=
  let w := 8 * d_size in
  let r := (x + y) mod 2^w in
  let s := as_signed w x + as_signed w y in
  bit_if (2^w <=? x + y) 0x1
  + bit_if (Z.even (ones r)) 0x4
  + bit_if (16 <=? x mod 16 + y mod 16) 0x10
  + bit_if (r =? 0) 0x40
  + bit_if (2^(w - 1) <=? r) 0x80
  + bit_if ((s <? - 2^(w - 1)) || (2^(w - 1) <=? s)) 0x800.

(** CF, PF, AF, ZF, SF and OF together. *)
Definition status_mask : Z := 0x8d5.

(** A write of the low [d_size] bytes of a 64-bit register that leaves its
    other bytes alone. *)
Definition partial_write (d_size old value : Z) : Z :=
  old - old mod 2^(8 * d_size) + value mod 2^(8 * d_size).

End Hardware.

(** ** Sample machine for the worked cases *)

Module Sample.
Import Decoder Context Handler.

(** The values of [Emu/Cell/RawSPUThread.h]. *)
Definition RAW_SPU_BASE_ADDR : Z := 0xE0000000.
Definition RAW_SPU_OFFSET : Z := 0x00100000.
Definition RAW_SPU_PROB_OFFSET : Z := 0x00040000.

(** Emulated memory mapped at two fixed host addresses. *)
Definition vm_base (addr : Z) : Z := 0x100000000 + addr.
Definition vm_base_priv (addr : Z) : Z := 0x200000000 + addr.

(** No display hook and no RawSPU thread. *)
Definition no_hook : option (Z -> bool -> bool) := None.
Definition no_thread (index : Z) : bool := false.
Definition no_read (index addr : Z) : option Z := None.
Definition no_write (index addr value : Z) : bool := false.

(** One RawSPU thread in every slot, whose registers read as 0x11223344. *)
Definition any_thread (index : Z) : bool := true.
Definition const_read (index addr : Z) : option Z := Some 0x11223344.
Definition ok_write (index addr value : Z) : bool := true.

Definition zero_context : x64_context := mk_context (replicate 17 0) (replicate 16 0) 0.

Definition with_regs (l : list (Z * Z)) (c : x64_context) : x64_context :=
  fold_left (fun c rv => set_X64REG c (fst rv) (snd rv)) l c.

Definition start (c : x64_context) : state := mk_state c ∅ [].

Definition handle (code : list byte) (addr : Z) (is_writing : bool) (s : state)
    : option (bool * state) :=
  handle_access_violation RAW_SPU_BASE_ADDR RAW_SPU_OFFSET RAW_SPU_PROB_OFFSET
    vm_base vm_base_priv no_hook no_thread no_read no_write code addr is_writing s.

(** [xchg [rax], ebx] faulting at 0x3000, before and after the handler. *)
Definition xchg_start : state :=
  mk_state (with_regs [(0, 0x3000); (3, 0x55); (16, 0x400000)] zero_context)
           (store ∅ (vm_base_priv 0x3000) 4 0x66) [].

Definition xchg_end : state :=
  match handle (bytes [0x87; 0x18]) 0x3000 true xchg_start with
  | Some (_, s) => s
  | None => xchg_start
  end.

End Sample.

(** ** Notions used to state the properties *)

Module Props.
Import Decoder Format Context Handler.

(** The first value that sticks: a slot that is already set keeps its value. *)
Definition first_set (cur : Z) (l : list Z) : Z := if cur =? 0 then hd 0 l else cur.

(** The effect of one prefix byte on the decoder's locals. *)
Definition apply_prefix (b : byte) (p : prefixes) : prefixes :=
  match b with
  | xf0 => set_lock p
  | xf2 => set_repne p
  | xf3 => set_repe p
  | x66 => set_oso p
  | _ => if is_seg b then set_pg2 (byte_val b) p else set_rex (byte_val b) p
  end.

Definition final_prefixes (r : scan_result) : prefixes :=
  match r with
  | Aborted p => p
  | Scanned p _ _ => p
  end.

(** How often the byte [b] occurs in a prefix run. *)
Definition occurrences (b : byte) (run : list byte) : nat :=
  length (List.filter (Byte.eqb b) run).

(** The REX byte the decoder works with after the prefix loop. *)
Definition rex_used (code : list byte) : Z :=
  rex (final_prefixes (scan_prefixes code no_prefixes 0)).

(** The immediate bytes the decoder adds to the length for opcode [op1]:
    it looks at the operand-size override alone, and in group 3 at no reg
    field. *)
Definition counted_imm (op1 : byte) (oso : bool) : Z :=
  match op1 with
  | x80 | x83 | xc6 | xf6 => 1
  | x81 | xc7 | xf7 => if oso then 2 else 4
  | _ => 0
  end.

(** The length the decoder arrives at for a stream it supports. *)
Definition counted_length (code : list byte) : Z :=
  let run := prefix_run code in
  let b := body code in
  let op1 := nth 0 b x00 in
  Z.of_nat (length run) + Z.of_nat (opcode_bytes b)
  + (if has_modRM op1 then modRM_rule (nth (opcode_bytes b) b x00) else 0)
  + counted_imm op1 (has x66 run).

(** An opcode with a 16- or 32-bit immediate. *)
Definition has_imm_z (op1 : byte) : bool :=
  match op1 with
  | x81 | xc7 | xf7 => true
  | _ => false
  end.

(** The last position of the body that decoding inspects: the ModRM byte,
    or the opcode itself for the block operations. *)
Definition reach (body : list byte) : nat :=
  if has_modRM (nth 0 body x00) then opcode_bytes body else 0%nat.

(** The general registers an operation designates: the destination of a
    load or exchange, RAX for compare-exchange and block store, RCX, RSI and
    RDI for the block operations. *)
Definition designated (op : x64_op_t) (reg : x64_reg_t) : list Z :=
  match op with
  | X64OP_LOAD | X64OP_LOAD_BE | X64OP_XCHG => [reg - X64R_RAX]
  | X64OP_CMPXCHG => [0]
  | X64OP_MOVS => [1; 6; 7]
  | X64OP_STOS => [0; 1; 6; 7]
  | _ => []
  end.

(** [c'] differs from [c] in the general slots listed in [regs] and in
    EFLAGS at most. *)
Definition regs_unchanged_except (regs : list Z) (c c' : x64_context) : Prop :=
  (forall r, 0 <= r -> r ∉ regs -> X64REG c' r = X64REG c r)
  /\ xmm c' = xmm c
  /\ length (gregs c') = length (gregs c).

(** [s'] differs from [s] in those slots, in EFLAGS and in memory at most. *)
Definition unchanged_except (regs : list Z) (s s' : state) : Prop :=
  regs_unchanged_except regs (ctx s) (ctx s') /\ trace s' = trace s.

Definition outcome_holds (P : state -> Prop) (o : outcome) : Prop :=
  match o with
  | Break s => P s
  | Return _ s => P s
  | OutOfFuel => True
  end.

(** A loop outcome other than an early [return true]. *)
Definition never_handled (o : outcome) : Prop :=
  match o with
  | Return true _ => False
  | _ => True
  end.

End Props.

(** ** The formulas of the flag routine, named *)

Module FlagBits.

(** [(x & y) | ((x ^ y) & ~summ)], the vector the routine takes CF and AF
    from. *)
Definition carry_vector (x y : Z) : Z :=
  Z.lor (Z.land x y) (Z.land (Z.lxor x y) (Z.lnot (u64 (x + y)))).

(** [(x ^ summ) & (y ^ summ)], the vector it takes OF from. *)
Definition overflow_vector (x y : Z) : Z :=
  Z.land (Z.lxor x (u64 (x + y))) (Z.lxor y (u64 (x + y))).

(** The three folding steps [p1], [p2], [p3] on the low byte and the test
    [(p3 & 1) == 0]. *)
Definition parity_fold (diff : Z) : bool :=
  let p1 := u8 (Z.lxor (u8 diff) (Z.shiftr (u8 diff) 4)) in
  let p2 := u8 (Z.lxor p1 (Z.shiftr p1 2)) in
  let p3 := u8 (Z.lxor p2 (Z.shiftr p2 1)) in
  Z.land p3 1 =? 0.

(** Bit positions of CF, PF, AF, ZF, SF, DF and OF in EFLAGS. *)
Definition CF : Z := 0.
Definition PF : Z := 2.
Definition AF : Z := 4.
Definition ZF : Z := 6.
Definition SF : Z := 7.
Definition DF : Z := 10.
Definition OF : Z := 11.

Definition is_status_bit (k : Z) : bool :=
  (k =? CF) || (k =? PF) || (k =? AF) || (k =? ZF) || (k =? SF) || (k =? OF).

End FlagBits.

(** ** Condition codes of the processor *)

Module Conditions.

(** The sixteen conditions of [Jcc], [SETcc] and [CMOVcc], by the low four
    bits of the opcode: O, NO, B, NB, Z, NZ, BE, NBE, S, NS, P, NP, L, NL,
    LE, NLE; an odd code is the negation of the even one below it. *)
Definition condition (cc : Z) (flags : Z) : bool :=
  let carry := Z.testbit flags 0 in
  let parity := Z.testbit flags 2 in
  let zero := Z.testbit flags 6 in
  let sign := Z.testbit flags 7 in
  let overflow := Z.testbit flags 11 in
  let positive :=
    match cc / 2 with
    | 0 => overflow
    | 1 => carry
    | 2 => zero
    | 3 => carry || zero
    | 4 => sign
    | 5 => parity
    | 6 => xorb sign overflow
    | _ => zero || xorb sign overflow
    end in
  if Z.odd cc then negb positive else positive.

End Conditions.

(** ** Notions for the memory side of the handler *)

Module MemoryProps.
Import Decoder Context Handler.

(** Every mapped cell holds a byte. *)
Definition byte_memory (m : memory) : Prop :=
  forall p v, m !! p = Some v -> 0 <= v < 256.

(** The operations that have a [case] in the callback of the reservation
    query. *)
Definition ram_serviced (op : x64_op_t) : bool :=
  match op with
  | X64OP_STORE | X64OP_STORE_BE | X64OP_MOVS | X64OP_STOS | X64OP_XCHG | X64OP_CMPXCHG
  | X64OP_AND | X64OP_OR | X64OP_XOR | X64OP_INC | X64OP_DEC
  | X64OP_ADD | X64OP_ADC | X64OP_SUB | X64OP_SBB => true
  | _ => false
  end.

(** The value a store instruction leaves in memory: the operand, byte
    swapped for the big-endian store. *)
Definition stored_value (op : x64_op_t) (d_size reg_value : Z) : Z :=
  if bool_decide (op = X64OP_STORE_BE)
  then swap (Z.to_nat d_size) (trunc d_size reg_value)
  else trunc d_size reg_value.

(** The state after one element of a byte store: the byte written, RDI
    advanced, RCX decremented. *)
Definition stos_next (vm_base_priv : Z -> Z) (a value : Z) (s : state) : state :=
  mk_state (set_X64REG (set_X64REG (ctx s) 7 (u64 (RDI (ctx s) + 1))) 1
                       (u64 (RCX (ctx s) - 1)))
           (store (mem s) (vm_base_priv a) 1 value)
           (trace s).

(** Memory after [n] consecutive byte stores of [value] from [a] on. *)
Fixpoint fill_bytes (vm_base_priv : Z -> Z) (m : memory) (a value : Z) (n : nat) : memory :=
  match n with
  | O => m
  | S k => fill_bytes vm_base_priv (store m (vm_base_priv a) 1 value) (a + 1) value k
  end.

End MemoryProps.

(** ** From the hardware exception to the C++ exception *)

Module Fault.
Import Decoder Context Handler.

(** The thread-local variables of the fault path: [s_tls_ret_pos],
    [s_tls_ret_addr] and [vm::g_tls_fault_count]. *)
Record tls : Type := mk_tls {
  s_tls_ret_pos : Z;
  s_tls_ret_addr : Z;
  g_tls_fault_count : Z
}.

Definition RSP (c : x64_context) : Z := X64REG c 4.

(** How the operating system continues after the handler: with the
    (possibly modified) context, in the interrupt path, or not at all. *)
Inductive resumption : Type :=
| Resume (s : state) (t : tls)
| Interrupt
| Fatal
| NoFuel.

Inductive disposition : Set :=
| EXCEPTION_CONTINUE_EXECUTION
| EXCEPTION_CONTINUE_SEARCH.

Definition EXCEPTION_ACCESS_VIOLATION : Z := 0xC0000005.

(** [throw_access_violation], up to the throw: [if (s_tls_ret_pos)
    *(u64* )s_tls_ret_pos = s_tls_ret_addr;] *)
Definition throw_access_violation (t : tls) (m : memory) : memory :=
  if s_tls_ret_pos t =? 0 then m else store m (s_tls_ret_pos t) 8 (s_tls_ret_addr t).

Section WithPlatform.

Variables RAW_SPU_BASE_ADDR RAW_SPU_OFFSET RAW_SPU_PROB_OFFSET : Z.
Variables vm_base vm_base_priv : Z -> Z.
Variable g_access_violation_handler : option (Z -> bool -> bool).
Variable raw_spu_thread : Z -> bool.
Variable read_reg : Z -> Z -> option Z.
Variable write_reg : Z -> Z -> Z -> bool.

(** [ARG1] and [ARG2]: RCX and RDX on Windows, RDI and RSI elsewhere. *)
Variables ARG1 ARG2 : Z.

(** [is_leaf_function]: the lookup of the unwind data on Windows, [false]
    elsewhere. *)
Variable is_leaf_function : Z -> bool.

(** The address of [throw_access_violation], the string literals
    ["writing"] and ["reading"], and the signal number. *)
Variable throw_access_violation_entry : Z.
Variables cause_writing cause_reading : Z.
Variable SIGUSR1 : Z.

Definition prepare_throw_access_violation (cause address : Z) (c : x64_context) (t : tls)
    : x64_context * tls :=
  (* Set throw_access_violation() call args (old register values are lost) *)
  let c := set_X64REG c ARG1 (u64 cause) in
  let c := set_X64REG c ARG2 address in
  (* Push the exception address as a "return" address *)
  let ret_addr := RIP c in
  if is_leaf_function ret_addr then
    (set_X64REG c 16 (u64 throw_access_violation_entry),
     mk_tls 0 ret_addr (g_tls_fault_count t))
  else
    let c := set_X64REG c 4 (u64 (RSP c - 8)) in
    (set_X64REG c 16 (u64 throw_access_violation_entry),
     mk_tls (RSP c) ret_addr (g_tls_fault_count t)).

Definition count_fault (t : tls) : tls :=
  mk_tls (s_tls_ret_pos t) (s_tls_ret_addr t) (u64 (g_tls_fault_count t + 1)).

(** [signal_handler(sig, info, uct)]: [si_addr] is [info->si_addr], [err]
    the [REG_ERR] slot, [code] the bytes at RIP and [current] tells whether
    [thread_ctrl::get_current()] is set. *)
Definition signal_handler (sig si_addr err : Z) (code : list byte) (current : bool)
    (s : state) (t : tls) : resumption :=
  if sig =? SIGUSR1 then Interrupt
  else
    let is_writing := negb (Z.land err 0x2 =? 0) in
    let addr64 := u64 (si_addr - vm_base 0) in
    let cause := if is_writing then cause_writing else cause_reading in
    if addr64 <? 0x100000000 then
      let t := count_fault t in
      (* Try to process access violation *)
      if negb current then
        let '(c, t) := prepare_throw_access_violation cause (u32 addr64) (ctx s) t in
        Resume (with_ctx s c) t
      else
        match handle_access_violation RAW_SPU_BASE_ADDR RAW_SPU_OFFSET RAW_SPU_PROB_OFFSET
                vm_base vm_base_priv g_access_violation_handler raw_spu_thread
                read_reg write_reg code (u32 addr64) is_writing s with
        | None => NoFuel
        | Some (true, s) => Resume s t
        | Some (false, s) =>
          (* Setup throw_access_violation() call on the context *)
          let '(c, t) := prepare_throw_access_violation cause (u32 addr64) (ctx s) t in
          Resume (with_ctx s c) t
        end
    else Fatal.

(** [exception_handler], the vectored handler on Windows: [info0] and
    [info1] are [ExceptionInformation[0]] and [[1]]. *)
Definition exception_handler (ExceptionCode info0 info1 : Z) (code : list byte)
    (current : bool) (s : state) (t : tls) : option (disposition * state * tls) :=
  let addr64 := u64 (info1 - vm_base 0) in
  let is_writing := negb (info0 =? 0) in
  if (ExceptionCode =? EXCEPTION_ACCESS_VIOLATION) && (addr64 <? 0x100000000) then
    let t := count_fault t in
    if current then
      match handle_access_violation RAW_SPU_BASE_ADDR RAW_SPU_OFFSET RAW_SPU_PROB_OFFSET
              vm_base vm_base_priv g_access_violation_handler raw_spu_thread
              read_reg write_reg code (u32 addr64) is_writing s with
      | None => None
      | Some (true, s) => Some (EXCEPTION_CONTINUE_EXECUTION, s, t)
      | Some (false, s) => Some (EXCEPTION_CONTINUE_SEARCH, s, t)
      end
    else Some (EXCEPTION_CONTINUE_SEARCH, s, t)
  else Some (EXCEPTION_CONTINUE_SEARCH, s, t).

(** [exception_filter], the unhandled-exception filter on Windows: [None]
    is the fatal report, a result is [EXCEPTION_CONTINUE_EXECUTION] with the
    context set up for the throw. *)
Definition exception_filter (ExceptionCode info0 info1 : Z) (c : x64_context) (t : tls)
    : option (x64_context * tls) :=
  if ExceptionCode =? EXCEPTION_ACCESS_VIOLATION then
    let addr64 := u64 (info1 - vm_base 0) in
    let cause := if negb (info0 =? 0) then cause_writing else cause_reading in
    if (Z.land (g_tls_fault_count t) (Z.shiftl 1 63) =? 0) && (addr64 <? 0x100000000) then
      let t := mk_tls (s_tls_ret_pos t) (s_tls_ret_addr t)
                      (Z.lor (g_tls_fault_count t) (Z.shiftl 1 63)) in
      Some (prepare_throw_access_violation cause (u32 addr64) c t)
    else None
  else None.

End WithPlatform.

End Fault.

(** ** Interrupts *)

Module Interrupts.
Import Context Handler Fault.

(** What the thread does for its interrupt: wake the sender ([lock(),
    unlock(), icv.notify_one()]) and call the handler, a function pointer. *)
Inductive ievent : Set :=
| Notified
| Ran (handler : Z).

(** [m_guard] of the thread and [interrupt] of its data: the handler posted
    and not yet taken. *)
Record thread : Type := mk_thread {
  m_guard : Z;
  interrupt : option Z;
  log : list ievent
}.

(** [thread_ctrl::handle_interrupt()], as built without [_WIN32]: the
    handler is called directly and the function returns what it returns. *)
Definition handle_interrupt (th : thread) : thread :=
  if negb (Z.land (m_guard th) 0x80000000 =? 0) then
    (* Discard interrupt if interrupts are disabled *)
    match interrupt th with
    | Some _ => mk_thread (m_guard th) None (log th ++ [Notified])
    | None => mk_thread (m_guard th) None (log th)
    end
  else if m_guard th =? 0 then
    (* Set interrupt immediately if no guard set *)
    match interrupt th with
    | Some handler => mk_thread (m_guard th) None (log th ++ [Notified; Ran handler])
    | None => mk_thread (m_guard th) None (log th)
    end
  else
    (* Set delayed interrupt otherwise *)
    mk_thread (u32 (Z.lor (m_guard th) 0x40000000)) (interrupt th) (log th).

(** [thread_ctrl::test_interrupt()]; [uncaught] is
    [std::uncaught_exception()]. *)
Definition test_interrupt (uncaught : bool) (th : thread) : thread :=
  if negb (Z.land (m_guard th) 0x80000000 =? 0) then
    match interrupt th with
    | Some _ => mk_thread (m_guard th) None (log th ++ [Notified])
    | None => mk_thread (m_guard th) None (log th)
    end
  else if (m_guard th =? 0x40000000) && negb uncaught then
    (* Execute delayed interrupt handler *)
    match interrupt th with
    | Some handler => mk_thread 0 None (log th ++ [Notified; Ran handler])
    | None => mk_thread 0 None (log th)
    end
  else th.

(** What happens to a thread between a post and the end of its interrupt:
    the signal is delivered, the thread polls, or the inline functions of
    the header change the guard. *)
Inductive action : Set :=
| Deliver
| Poll (uncaught : bool)
| Guard (value : Z).

Definition step (th : thread) (a : action) : thread :=
  match a with
  | Deliver => handle_interrupt th
  | Poll uncaught => test_interrupt uncaught th
  | Guard value => mk_thread (u32 value) (interrupt th) (log th)
  end.

Definition run (acts : list action) (th : thread) : thread := fold_left step acts th.

Definition keeps_disabled (a : action) : bool :=
  match a with
  | Guard value => negb (Z.land (u32 value) 0x80000000 =? 0)
  | _ => true
  end.

Section Win32.

Variable is_leaf_function : Z -> bool.

(** The address of [execute_interrupt_handler]. *)
Variable execute_interrupt_handler_entry : Z.

(** The [_WIN32] part of [handle_interrupt], "Install function call", on
    the context the thread will be resumed with. *)
Definition install_function_call (c : x64_context) (t : tls) : x64_context * tls :=
  let ret_addr := RIP c in
  if is_leaf_function ret_addr then
    (set_X64REG c 16 (u64 execute_interrupt_handler_entry),
     mk_tls 0 ret_addr (g_tls_fault_count t))
  else
    let c := set_X64REG c 4 (u64 (RSP c - 8)) in
    (set_X64REG c 16 (u64 execute_interrupt_handler_entry),
     mk_tls (RSP c) ret_addr (g_tls_fault_count t)).

(** [execute_interrupt_handler]: [handler] is what the call [s_tls_handler()]
    does to memory, [None] if it throws; the result is the context given to
    [RtlRestoreContext]. *)
Definition execute_interrupt_handler (handler : memory -> option memory)
    (c : x64_context) (t : tls) (m : memory) : option (x64_context * tls * memory) :=
  (* Fix stack for throwing *)
  let '(t, m) :=
    if s_tls_ret_pos t =? 0 then (t, m)
    else (mk_tls (s_tls_ret_pos t) (load m (s_tls_ret_pos t) 8) (g_tls_fault_count t),
          store m (s_tls_ret_pos t) 8 (s_tls_ret_addr t)) in
  (* Run either throwing or returning interrupt handler *)
  match handler m with
  | None => None
  | Some m =>
    (* Restore context in the case of return *)
    if s_tls_ret_pos t =? 0 then Some (set_X64REG c 16 (s_tls_ret_addr t), t, m)
    else
      let c := set_X64REG c 16 (load m (s_tls_ret_pos t) 8) in
      let m := store m (s_tls_ret_pos t) 8 (s_tls_ret_addr t) in
      let c := set_X64REG c 4 (u64 (RSP c + 8)) in
      Some (c, t, m)
  end.

End Win32.

End Interrupts.

(** ** Read-modify-write instructions *)

Module Arithmetic.
Import Decoder.

(** The read-modify-write operations the decoder yields.  [X64OP_INC] and
    [X64OP_DEC] are not among them: no [case] of the decoder assigns them. *)
Definition is_rmw (op : x64_op_t) : bool :=
  match op with
  | X64OP_AND | X64OP_OR | X64OP_XOR
  | X64OP_ADD | X64OP_ADC | X64OP_SUB | X64OP_SBB => true
  | _ => false
  end.

Definition is_bitwise (op : x64_op_t) : bool :=
  match op with
  | X64OP_AND | X64OP_OR | X64OP_XOR => true
  | _ => false
  end.

(** The result of the instruction, before truncation to the operand size:
    [old] is the memory operand, [v] the other operand and [cf] the carry
    flag on entry. *)
Definition rmw_result (op : x64_op_t) (old v cf : Z) : Z :=
  match op with
  | X64OP_AND => Z.land old v
  | X64OP_OR => Z.lor old v
  | X64OP_XOR => Z.lxor old v
  | X64OP_ADD => old + v
  | X64OP_ADC => old + v + cf
  | X64OP_SUB => old - v
  | X64OP_SBB => old - v - cf
  | _ => old
  end.

End Arithmetic.


Import Decoder Format Context Handler Hardware Sample Props.

(** * Properties *)

(** ** The decoder *)

Lemma byte_val_range (b : byte) : 0 <= byte_val b < 256.
Proof. unfold byte_val. pose proof (Byte.to_N_bounded b). lia. Qed.

Lemma rd_drop (code : list byte) (k : nat) : rd (drop k code) 0 = byte_val (nth k code x00).
Proof.
  unfold rd. f_equal. revert code. induction k as [|k IH]; intros [|b code]; simpl; auto.
Qed.


Lemma scan_prefixes_cons (b : byte) (code : list byte) (p : prefixes) (n : Z) :
  scan_prefixes (b :: code) p n =
  if is_prefix_byte b then scan_prefixes code (apply_prefix b p) (n + 1)
  else if Byte.eqb b x67 then Aborted (note AddressSizeOverride p)
  else Scanned p n (b :: code).
Proof. destruct b; reflexivity. Qed.

Lemma first_set_cons (cur v : Z) (l : list Z) :
  v <> 0 -> first_set (if cur =? 0 then v else cur) l = first_set cur (v :: l).
Proof.
  intros Hv. unfold first_set. destruct (cur =? 0) eqn:E; simpl.
  - apply Z.eqb_neq in Hv. now rewrite Hv.
  - now rewrite E.
Qed.

Lemma is_rex_nonzero (b : byte) : is_rex b = true -> byte_val b <> 0.
Proof. destruct b; vm_compute; congruence. Qed.

Lemma is_seg_nonzero (b : byte) : is_seg b = true -> byte_val b <> 0.
Proof. destruct b; vm_compute; congruence. Qed.

Lemma apply_prefix_rex (b : byte) (p : prefixes) (l : list byte) :
  is_prefix_byte b = true ->
  first_set (rex (apply_prefix b p)) (rex_bytes l) = first_set (rex p) (rex_bytes (b :: l)).
Proof.
  intros Hb. unfold rex_bytes. cbn [List.filter].
  destruct (is_rex b) eqn:Hr.
  - cbn [map]. rewrite <- first_set_cons by now apply is_rex_nonzero.
    f_equal. destruct b; try discriminate Hr; destruct p, (rex0 =? 0) eqn:E;
      cbv [apply_prefix is_seg set_rex rex]; rewrite E; reflexivity.
  - f_equal. destruct b; try discriminate Hb; try discriminate Hr;
      destruct p as [r g o l0 rn re an];
      cbv [apply_prefix is_seg set_lock set_repne set_repe set_oso set_pg2 note
           rex pg2 lock oso repne repe anomalies];
      repeat match goal with |- context [if ?c then _ else _] => destruct c end; reflexivity.
Qed.

Lemma apply_prefix_pg2 (b : byte) (p : prefixes) (l : list byte) :
  is_prefix_byte b = true ->
  first_set (pg2 (apply_prefix b p)) (seg_bytes l) = first_set (pg2 p) (seg_bytes (b :: l)).
Proof.
  intros Hb. unfold seg_bytes. cbn [List.filter].
  destruct (is_seg b) eqn:Hr.
  - cbn [map]. rewrite <- first_set_cons by now apply is_seg_nonzero.
    f_equal. destruct b; try discriminate Hr; destruct p, (pg3 =? 0) eqn:E;
      cbv [apply_prefix is_seg set_pg2 pg2]; rewrite E; reflexivity.
  - f_equal. destruct b; try discriminate Hb; try discriminate Hr;
      destruct p as [r g o l0 rn re an];
      cbv [apply_prefix is_seg set_lock set_repne set_repe set_oso set_rex note
           rex pg2 lock oso repne repe anomalies];
      repeat match goal with |- context [if ?c then _ else _] => destruct c end; reflexivity.
Qed.

Lemma apply_prefix_flags (b : byte) (p : prefixes) :
  is_prefix_byte b = true ->
  oso (apply_prefix b p) = oso p || Byte.eqb x66 b
  /\ lock (apply_prefix b p) = lock p || Byte.eqb xf0 b
  /\ repne (apply_prefix b p) = repne p || Byte.eqb xf2 b
  /\ repe (apply_prefix b p) = repe p || Byte.eqb xf3 b.
Proof.
  intros Hb. destruct p as [r g o l0 rn re an].
  destruct b; try discriminate Hb;
    cbv [apply_prefix is_seg set_lock set_repne set_repe set_oso set_pg2 set_rex note
         rex pg2 lock oso repne repe anomalies];
    repeat match goal with |- context [if ?c =? 0 then _ else _] => destruct (c =? 0) end;
    destruct o, l0, rn, re; repeat split; reflexivity.
Qed.

Lemma scan_prefixes_spec (code : list byte) (p : prefixes) (n : Z) :
  match scan_prefixes code p n with
  | Aborted _ => after_prefixes code = x67
  | Scanned p' n' rest =>
    after_prefixes code <> x67
    /\ n' = n + Z.of_nat (length (prefix_run code))
    /\ rest = body code
    /\ rex p' = first_set (rex p) (rex_bytes (prefix_run code))
    /\ pg2 p' = first_set (pg2 p) (seg_bytes (prefix_run code))
    /\ oso p' = oso p || has x66 (prefix_run code)
    /\ lock p' = lock p || has xf0 (prefix_run code)
    /\ repne p' = repne p || has xf2 (prefix_run code)
    /\ repe p' = repe p || has xf3 (prefix_run code)
  end.
Proof.
  assert (Hfs : forall c, first_set c [] = c).
  { intros c. unfold first_set. destruct (c =? 0) eqn:E; auto. apply Z.eqb_eq in E. auto. }
  revert p n. induction code as [|b code IH]; intros p n.
  - cbn -[first_set]. rewrite !orb_false_r, !Hfs. repeat split; try lia; discriminate.
  - rewrite scan_prefixes_cons. unfold after_prefixes, body in *. cbn [prefix_run].
    destruct (is_prefix_byte b) eqn:Hb.
    + specialize (IH (apply_prefix b p) (n + 1)).
      destruct (scan_prefixes code _ _) as [q|q m rest]; cbn [length nth drop]; auto.
      destruct IH as (H0 & H1 & H2 & H3 & H4 & H5 & H6 & H7 & H8).
      destruct (apply_prefix_flags b p Hb) as (F1 & F2 & F3 & F4).
      rewrite apply_prefix_rex in H3 by auto. rewrite apply_prefix_pg2 in H4 by auto.
      rewrite F1 in H5. rewrite F2 in H6. rewrite F3 in H7. rewrite F4 in H8.
      unfold has. cbn [existsb]. rewrite <- !orb_assoc in *.
      repeat split; auto. lia.
    + cbn [length nth drop].
      destruct (Byte.eqb b x67) eqn:E.
      * now apply Byte.byte_dec_bl in E.
      * unfold rex_bytes, seg_bytes, has. cbn [List.filter map existsb].
        rewrite !orb_false_r, !Hfs. repeat split; auto; try lia.
        intros ->. discriminate E.
Qed.


Lemma nth_drop_byte (k i : nat) (code : list byte) :
  nth i (drop k code) x00 = nth (k + i) code x00.
Proof.
  revert code. induction k as [|k IH]; intros [|b code]; simpl; auto.
  destruct i; reflexivity.
Qed.

Lemma get_modRM_size_rule (code : list byte) (k : nat) :
  get_modRM_size (drop k code) = modRM_rule (nth k code x00).
Proof.
  unfold get_modRM_size. rewrite rd_drop. destruct (nth k code x00); reflexivity.
Qed.

Lemma get_modRM_reg_field (code : list byte) (k : nat) :
  get_modRM_reg (drop k code) 0 = modRM_reg_field (nth k code x00).
Proof.
  unfold get_modRM_reg. rewrite rd_drop. destruct (nth k code x00); reflexivity.
Qed.

(** [decode_opcode] with every pointer bump resolved to an index into the
    stream it was given. *)
Ltac index_stream :=
  cbv beta zeta delta [decode_opcode];
  rewrite ?drop_drop, ?nth_drop_byte, ?get_modRM_size_rule;
  cbn [Nat.add].

Ltac split_ifs :=
  repeat match goal with
  | |- context [if ?c then _ else _] => destruct c eqn:?
  | H : context [if ?c then _ else _] |- _ => destruct c eqn:?
  end.


Ltac close_leaf :=
  cbv beta iota;
  change (byte_val xc5 =? 197) with true; change (byte_val xc4 =? 197) with false;
  cbv beta iota;
  split_ifs; cbv beta iota delta [out_op out_length unsupported];
  solve [intros; congruence | intros; lia].

Lemma decode_opcode_length (p : prefixes) (n : Z) (code : list byte) :
  out_op (decode_opcode p n code) <> X64OP_NONE ->
  out_length (decode_opcode p n code)
  = n + Z.of_nat (opcode_bytes code)
    + (if has_modRM (nth 0 code x00)
       then modRM_rule (nth (opcode_bytes code) code x00) else 0)
    + counted_imm (nth 0 code x00) (oso p).
Proof.
  unfold opcode_bytes, has_modRM, counted_imm. index_stream.
  destruct (nth 0 code x00) eqn:E0; cbv beta iota;
    try (intros H; exfalso; apply H; reflexivity).
  - (* 0x0f *)
    destruct (nth 1 code x00) eqn:E1; cbv beta iota;
      try (intros H; exfalso; apply H; reflexivity); try solve [close_leaf].
    destruct (nth 2 code x00) eqn:E2; cbv beta iota;
      try (intros H; exfalso; apply H; reflexivity); close_leaf.
  - close_leaf.
  - close_leaf.
  - close_leaf.
  - close_leaf.
  - close_leaf.
  - close_leaf.
  - close_leaf.
  - close_leaf.
  - close_leaf.
  - close_leaf.
  - close_leaf.
  - close_leaf.
  - close_leaf.
  - (* 0xc4 *)
    change (byte_val xc5 =? 197) with true; change (byte_val xc4 =? 197) with false;
    cbv beta iota.
    destruct (nth 3 code x00) eqn:E3; close_leaf.
  - (* 0xc5 *)
    change (byte_val xc5 =? 197) with true; cbv beta iota.
    destruct (nth 2 code x00) eqn:E3; close_leaf.
  - close_leaf.
  - close_leaf.
  - close_leaf.
  - close_leaf.
Qed.


Lemma after_prefixes_body (code : list byte) : nth 0 (body code) x00 = after_prefixes code.
Proof. unfold body, after_prefixes. rewrite nth_drop_byte. f_equal. lia. Qed.

Lemma first_set_0 (l : list Z) : first_set 0 l = hd 0 l.
Proof. reflexivity. Qed.

(** Decoding is the prefix scan followed by [decode_opcode] on the body. *)
Lemma decode_scanned (code : list byte) :
  after_prefixes code <> x67 ->
  exists p,
    scan_prefixes code no_prefixes 0 = Scanned p (Z.of_nat (length (prefix_run code))) (body code)
    /\ rex p = hd 0 (rex_bytes (prefix_run code))
    /\ pg2 p = hd 0 (seg_bytes (prefix_run code))
    /\ oso p = has x66 (prefix_run code)
    /\ lock p = has xf0 (prefix_run code)
    /\ repne p = has xf2 (prefix_run code)
    /\ repe p = has xf3 (prefix_run code).
Proof.
  intros H67. pose proof (scan_prefixes_spec code no_prefixes 0) as S.
  destruct (scan_prefixes code no_prefixes 0) as [q|q m rest]; [contradiction|].
  destruct S as (_ & -> & -> & S3 & S4 & S5 & S6 & S7 & S8).
  exists q. rewrite S3, S4, S5, S6, S7, S8. cbn [no_prefixes rex pg2 oso lock repne repe orb].
  rewrite !first_set_0. repeat split; reflexivity.
Qed.

Lemma decode_aborted (code : list byte) :
  after_prefixes code = x67 -> decode_x64_reg_op code = unsupported.
Proof.
  intros H67. unfold decode_x64_reg_op.
  pose proof (scan_prefixes_spec code no_prefixes 0) as S.
  destruct (scan_prefixes code no_prefixes 0) as [q|q m rest]; [reflexivity|].
  now destruct S as (S & _).
Qed.

(** The length the decoder returns for a stream it supports. *)
Lemma decode_length_formula (code : list byte) :
  out_op (decode_x64_reg_op code) <> X64OP_NONE ->
  out_length (decode_x64_reg_op code) = counted_length code.
Proof.
  intros Hop. destruct (Byte.byte_eq_dec (after_prefixes code) x67) as [E|E].
  - rewrite (decode_aborted code E) in Hop. now contradiction Hop.
  - destruct (decode_scanned code E) as (p & Hs & _ & _ & Ho & _).
    unfold decode_x64_reg_op in *. rewrite Hs in *.
    rewrite (decode_opcode_length _ _ _ Hop). unfold counted_length. now rewrite Ho.
Qed.

Lemma group1_op_not_none (z : Z) : group1_op z <> X64OP_NONE.
Proof. destruct z as [|q|q]; try discriminate. do 4 (destruct q as [q|q|]; try discriminate). Qed.

Lemma group1_op8_not_none (z : Z) : group1_op8 z <> X64OP_NONE.
Proof. destruct z as [|q|q]; try discriminate. do 4 (destruct q as [q|q|]; try discriminate). Qed.

Lemma group3_op_none (z : Z) : group3_op z = X64OP_NONE -> z <> 0.
Proof. destruct z; intros H; discriminate. Qed.

Ltac close_none :=
  cbv beta iota;
  change (byte_val xc5 =? 197) with true; change (byte_val xc4 =? 197) with false;
  cbv beta iota;
  split_ifs; cbv beta iota delta [out_op out_length unsupported];
  solve [ intros; left; reflexivity
        | intros; congruence
        | intros H; exfalso; revert H; (apply group1_op_not_none || apply group1_op8_not_none) ].

(** A result of kind [X64OP_NONE] is the all-zero exit, except in the two
    group-3 cases. *)
Lemma decode_opcode_none (p : prefixes) (n : Z) (code : list byte) :
  out_op (decode_opcode p n code) = X64OP_NONE ->
  decode_opcode p n code = unsupported
  \/ ((nth 0 code x00 = xf6 \/ nth 0 code x00 = xf7)
      /\ modRM_reg_field (nth 1 code x00) <> 0).
Proof.
  index_stream. rewrite ?get_modRM_reg_field.
  destruct (nth 0 code x00) eqn:E0; cbv beta iota;
    try (intros _; left; reflexivity); try solve [close_none].
  - destruct (nth 1 code x00) eqn:E1; cbv beta iota;
      try (intros _; left; reflexivity); try solve [close_none].
    destruct (nth 2 code x00) eqn:E2; cbv beta iota;
      try (intros _; left; reflexivity); close_none.
  - change (byte_val xc4 =? 197) with false; cbv beta iota.
    destruct (nth 3 code x00) eqn:E3; close_none.
  - change (byte_val xc5 =? 197) with true; cbv beta iota.
    destruct (nth 2 code x00) eqn:E3; close_none.
  - cbv beta iota delta [out_op out_length]. intros H. right.
    split; [now left|]. now apply group3_op_none.
  - cbv beta iota delta [out_op out_length]. intros H. right.
    split; [now right|]. now apply group3_op_none.
Qed.

Lemma modRM_rule_pos (b : byte) : 1 <= modRM_rule b.
Proof. unfold modRM_rule. cbv zeta. repeat destruct (_ =? _); lia. Qed.

Lemma group3_op_other (z : Z) : z <> 0 -> group3_op z = X64OP_NONE.
Proof. destruct z; [contradiction|reflexivity..]. Qed.

(** The two group-3 cases with a reg field other than 0: everything but
    the kind is filled in as for TEST. *)
Lemma decode_opcode_group3 (p : prefixes) (n : Z) (code : list byte) :
  modRM_reg_field (nth 1 code x00) <> 0 ->
  (nth 0 code x00 = xf6 ->
   decode_opcode p n code
   = mk_decoded X64OP_NONE X64_IMM8 1 (n + 1 + modRM_rule (nth 1 code x00) + 1))
  /\ (nth 0 code x00 = xf7 ->
      decode_opcode p n code
      = mk_decoded X64OP_NONE (if oso p then X64_IMM16 else X64_IMM32)
                   (if Z.land (rex p) 8 =? 0 then (if oso p then 2 else 4) else 8)
                   (n + 1 + modRM_rule (nth 1 code x00) + (if oso p then 2 else 4))).
Proof.
  intros Hf. index_stream. rewrite ?get_modRM_reg_field.
  split; intros ->; cbv beta iota; rewrite (group3_op_other _ Hf); unfold get_op_size;
    f_equal; lia.
Qed.

Lemma decode_opcode_not_enumerated (p : prefixes) (n : Z) (code : list byte) :
  enumerated_opcode (nth 0 code x00) = false -> decode_opcode p n code = unsupported.
Proof.
  cbv beta zeta delta [decode_opcode]. destruct (nth 0 code x00); try discriminate; reflexivity.
Qed.

Lemma decode_opcode_not_enumerated_0f (p : prefixes) (n : Z) (code : list byte) :
  nth 0 code x00 = x0f -> enumerated_opcode_0f (nth 1 code x00) = false ->
  decode_opcode p n code = unsupported.
Proof.
  index_stream. intros ->. cbv beta iota. destruct (nth 1 code x00); try discriminate; reflexivity.
Qed.

(** C2. A stream whose prefix run is followed by the address-size override,
    or whose opcode has no [case] in the decoder (one-byte map or 0x0F map),
    decodes to the all-zero exit: kind [X64OP_NONE], operand not set, size 0,
    length 0.  A result of kind [X64OP_NONE] is that exit except for opcodes
    0xF6 and 0xF7 with a ModRM reg field other than 0; these unsupported
    forms yield kind [X64OP_NONE] with a length that is not 0: the prefix
    bytes, the opcode, the ModRM bytes and an immediate of 1 byte for 0xF6,
    of 2 bytes (with 0x66) or 4 bytes for 0xF7. *)
Theorem decode_unsupported_forms (code : list byte) :
  let run := prefix_run code in
  let modrm := nth 1 (body code) x00 in
  let n := Z.of_nat (length run) in
  let o16 := has x66 run in
  let rex1 := hd 0 (rex_bytes run) in
  (after_prefixes code = x67 -> decode_x64_reg_op code = unsupported)
  /\ (enumerated_opcode (after_prefixes code) = false -> decode_x64_reg_op code = unsupported)
  /\ (after_prefixes code = x0f -> enumerated_opcode_0f (nth 1 (body code) x00) = false ->
      decode_x64_reg_op code = unsupported)
  /\ (out_op (decode_x64_reg_op code) = X64OP_NONE ->
      decode_x64_reg_op code = unsupported
      \/ ((after_prefixes code = xf6 \/ after_prefixes code = xf7)
          /\ modRM_reg_field modrm <> 0))
  /\ (after_prefixes code = xf6 -> modRM_reg_field modrm <> 0 ->
      decode_x64_reg_op code
      = mk_decoded X64OP_NONE X64_IMM8 1 (n + 1 + modRM_rule modrm + 1))
  /\ (after_prefixes code = xf7 -> modRM_reg_field modrm <> 0 ->
      decode_x64_reg_op code
      = mk_decoded X64OP_NONE (if o16 then X64_IMM16 else X64_IMM32)
                   (if Z.land rex1 8 =? 0 then (if o16 then 2 else 4) else 8)
                   (n + 1 + modRM_rule modrm + (if o16 then 2 else 4)))
  /\ 0 < n + 1 + modRM_rule modrm.
Proof.
  cbv zeta.
  assert (Hpos : 0 < Z.of_nat (length (prefix_run code)) + 1
                     + modRM_rule (nth 1 (body code) x00)).
  { pose proof (modRM_rule_pos (nth 1 (body code) x00)). lia. }
  destruct (Byte.byte_eq_dec (after_prefixes code) x67) as [E|E].
  { pose proof (decode_aborted code E) as D. rewrite D, E.
    repeat split; auto; try discriminate. }
  destruct (decode_scanned code E) as (p & Hs & Hr & _ & Ho & _).
  unfold decode_x64_reg_op. rewrite Hs. rewrite <- after_prefixes_body in *.
  rewrite <- Hr, <- Ho.
  split; [intros; contradiction|].
  split; [apply decode_opcode_not_enumerated|].
  split; [apply decode_opcode_not_enumerated_0f|].
  split; [apply decode_opcode_none|].
  split; [|split; [|exact Hpos]]; intros Hop Hf;
    now apply (decode_opcode_group3 p _ (body code) Hf).
Qed.

Lemma decode_unsupported_forms_witness :
  decode_x64_reg_op (bytes [0x67; 0x8b; 0x00]) = unsupported
  /\ decode_x64_reg_op (bytes [0x90]) = unsupported
  /\ decode_x64_reg_op (bytes [0x0f; 0x05]) = unsupported
  /\ (decode_x64_reg_op (bytes [0xf0; 0x8b; 0x00]) = unsupported
      \/ ((after_prefixes (bytes [0xf0; 0x8b; 0x00]) = xf6
           \/ after_prefixes (bytes [0xf0; 0x8b; 0x00]) = xf7)
          /\ modRM_reg_field (nth 1 (body (bytes [0xf0; 0x8b; 0x00])) x00) <> 0))
  /\ decode_x64_reg_op (bytes [0xf6; 0x10]) = mk_decoded X64OP_NONE X64_IMM8 1 3
  /\ decode_x64_reg_op (bytes [0x66; 0x48; 0xf7; 0x5c; 0x24; 0x08])
     = mk_decoded X64OP_NONE X64_IMM16 8 8.
Proof.
  pose proof (decode_unsupported_forms (bytes [0x67; 0x8b; 0x00])) as (H1 & _).
  pose proof (decode_unsupported_forms (bytes [0x90])) as (_ & H2 & _).
  pose proof (decode_unsupported_forms (bytes [0x0f; 0x05])) as (_ & _ & H3 & _).
  pose proof (decode_unsupported_forms (bytes [0xf0; 0x8b; 0x00])) as (_ & _ & _ & H4 & _).
  pose proof (decode_unsupported_forms (bytes [0xf6; 0x10])) as (_ & _ & _ & _ & H5 & _).
  pose proof (decode_unsupported_forms (bytes [0x66; 0x48; 0xf7; 0x5c; 0x24; 0x08]))
    as (_ & _ & _ & _ & _ & H6 & _).
  split; [exact (H1 eq_refl)|]. split; [exact (H2 eq_refl)|].
  split; [exact (H3 eq_refl eq_refl)|]. split; [exact (H4 eq_refl)|].
  split; [apply H5; [reflexivity|vm_compute; discriminate]|].
  apply H6; [reflexivity|vm_compute; discriminate].
Defined.

(** [F6 /2] (NOT r/m8) is not among the supported forms: kind
    [X64OP_NONE], but length 3. *)
Lemma decode_group3_none_with_length :
  out_op (decode_x64_reg_op (bytes [0xf6; 0x10; 0x00])) = X64OP_NONE
  /\ out_length (decode_x64_reg_op (bytes [0xf6; 0x10; 0x00])) = 3
  /\ out_length (decode_x64_reg_op (bytes [0xf6; 0x10; 0x00])) <> 0.
Proof. vm_compute. repeat split; congruence. Qed.


Lemma apply_prefix_log (b : byte) (p : prefixes) :
  is_prefix_byte b = true ->
  (is_rex b = true /\ rex p = 0 /\ rex (apply_prefix b p) = byte_val b
   /\ anomalies (apply_prefix b p) = anomalies p)
  \/ (is_rex b = true /\ rex p <> 0 /\ rex (apply_prefix b p) = rex p
      /\ anomalies (apply_prefix b p) = anomalies p ++ [RexAfter (byte_val b) (rex p)])
  \/ (is_rex b = false /\ rex (apply_prefix b p) = rex p
      /\ exists l, anomalies (apply_prefix b p) = anomalies p ++ l).
Proof.
  intros Hb. destruct p as [r g o l0 rn re an]. cbn [rex anomalies].
  destruct (is_rex b) eqn:Hr.
  - destruct (r =? 0) eqn:E; [left|right; left].
    + apply Z.eqb_eq in E. subst r.
      destruct b; try discriminate Hr; repeat split; reflexivity.
    + assert (r <> 0) by now apply Z.eqb_neq.
      destruct b; try discriminate Hr;
        cbv [apply_prefix is_seg set_rex rex anomalies note pg2 oso lock repne repe];
        rewrite E; repeat split; auto.
  - right; right. split; [reflexivity|].
    destruct b; try discriminate Hb; try discriminate Hr;
      cbv [apply_prefix is_seg set_lock set_repne set_repe set_oso set_pg2 note
           rex pg2 lock oso repne repe anomalies];
      repeat match goal with |- context [if ?c then _ else _] => destruct c end;
      cbv [rex anomalies]; split; try reflexivity;
      first [ now exists [] ; rewrite app_nil_r | eexists; reflexivity ].
Qed.

Lemma scan_prefixes_log (code : list byte) (p : prefixes) (n : Z) :
  let p' := final_prefixes (scan_prefixes code p n) in
  let rs := rex_bytes (prefix_run code) in
  (rex p <> 0 -> forall r, r ∈ rs -> RexAfter r (rex p) ∈ anomalies p')
  /\ (rex p = 0 -> forall r, r ∈ tail rs -> RexAfter r (hd 0 rs) ∈ anomalies p')
  /\ exists l, anomalies p' = anomalies p ++ l.
Proof.
  revert p n. induction code as [|b code IH]; intros p n.
  - cbn. split; [|split]; try (intros _ r Hr; now apply elem_of_nil in Hr).
    exists []. now rewrite app_nil_r.
  - rewrite scan_prefixes_cons. cbn [prefix_run].
    destruct (is_prefix_byte b) eqn:Hb.
    + specialize (IH (apply_prefix b p) (n + 1)). cbv zeta in *.
      destruct IH as (I1 & I2 & l & I3).
      set (p' := final_prefixes _) in *.
      unfold rex_bytes in *. cbn [List.filter].
      destruct (apply_prefix_log b p Hb)
        as [(Hr & H0 & H1 & H2)|[(Hr & H0 & H1 & H2)|(Hr & H1 & l' & H2)]];
        rewrite Hr; cbn [map hd tail].
      * split; [intros; contradiction|]. split.
        -- intros _ r Hin. rewrite <- H1. apply I1; auto.
           rewrite H1. now apply is_rex_nonzero.
        -- exists l. now rewrite I3, H2.
      * split; [|split; [intros; contradiction|]].
        -- intros _ r Hin. apply elem_of_cons in Hin as [->|Hin].
           ++ rewrite I3, H2. apply elem_of_app. left. apply elem_of_app. right.
              apply list_elem_of_here.
           ++ rewrite <- H1. apply I1; auto. now rewrite H1.
        -- exists ([RexAfter (byte_val b) (rex p)] ++ l). now rewrite I3, H2, <- app_assoc.
      * rewrite H1 in *. split; [auto|split; [auto|]].
        exists (l' ++ l). now rewrite I3, H2, <- app_assoc.
    + cbn. destruct (Byte.eqb b x67); cbn.
      * split; [|split]; try (intros _ r Hr; now apply elem_of_nil in Hr). eexists; reflexivity.
      * split; [|split]; try (intros _ r Hr; now apply elem_of_nil in Hr).
        exists []. now rewrite app_nil_r.
Qed.

Lemma apply_prefix_seg_log (b : byte) (p : prefixes) :
  is_prefix_byte b = true ->
  (is_seg b = true /\ pg2 p = 0 /\ pg2 (apply_prefix b p) = byte_val b
   /\ anomalies (apply_prefix b p) = anomalies p)
  \/ (is_seg b = true /\ pg2 p <> 0 /\ pg2 (apply_prefix b p) = pg2 p
      /\ anomalies (apply_prefix b p) = anomalies p ++ [Group2After (byte_val b) (pg2 p)])
  \/ (is_seg b = false /\ pg2 (apply_prefix b p) = pg2 p
      /\ exists l, anomalies (apply_prefix b p) = anomalies p ++ l).
Proof.
  intros Hb. destruct p as [r g o l0 rn re an]. cbn [pg2 anomalies].
  destruct (is_seg b) eqn:Hr.
  - destruct (g =? 0) eqn:E; [left|right; left].
    + apply Z.eqb_eq in E. subst g.
      destruct b; try discriminate Hr; repeat split; reflexivity.
    + assert (g <> 0) by now apply Z.eqb_neq.
      destruct b; try discriminate Hr;
        cbv [apply_prefix is_seg set_pg2 rex anomalies note pg2 oso lock repne repe];
        rewrite E; repeat split; auto.
  - right; right. split; [reflexivity|].
    destruct b; try discriminate Hb; try discriminate Hr;
      cbv [apply_prefix is_seg set_lock set_repne set_repe set_oso set_rex note
           rex pg2 lock oso repne repe anomalies];
      repeat match goal with |- context [if ?c then _ else _] => destruct c end;
      cbv [pg2 anomalies]; split; try reflexivity;
      first [ now exists [] ; rewrite app_nil_r | eexists; reflexivity ].
Qed.

Lemma scan_prefixes_seg_log (code : list byte) (p : prefixes) (n : Z) :
  let p' := final_prefixes (scan_prefixes code p n) in
  let gs := seg_bytes (prefix_run code) in
  (pg2 p <> 0 -> forall g, g ∈ gs -> Group2After g (pg2 p) ∈ anomalies p')
  /\ (pg2 p = 0 -> forall g, g ∈ tail gs -> Group2After g (hd 0 gs) ∈ anomalies p')
  /\ exists l, anomalies p' = anomalies p ++ l.
Proof.
  revert p n. induction code as [|b code IH]; intros p n.
  - cbn. split; [|split]; try (intros _ r Hr; now apply elem_of_nil in Hr).
    exists []. now rewrite app_nil_r.
  - rewrite scan_prefixes_cons. cbn [prefix_run].
    destruct (is_prefix_byte b) eqn:Hb.
    + specialize (IH (apply_prefix b p) (n + 1)). cbv zeta in *.
      destruct IH as (I1 & I2 & l & I3).
      set (p' := final_prefixes _) in *.
      unfold seg_bytes in *. cbn [List.filter].
      destruct (apply_prefix_seg_log b p Hb)
        as [(Hr & H0 & H1 & H2)|[(Hr & H0 & H1 & H2)|(Hr & H1 & l' & H2)]];
        rewrite Hr; cbn [map hd tail].
      * split; [intros; contradiction|]. split.
        -- intros _ r Hin. rewrite <- H1. apply I1; auto.
           rewrite H1. now apply is_seg_nonzero.
        -- exists l. now rewrite I3, H2.
      * split; [|split; [intros; contradiction|]].
        -- intros _ r Hin. apply elem_of_cons in Hin as [->|Hin].
           ++ rewrite I3, H2. apply elem_of_app. left. apply elem_of_app. right.
              apply list_elem_of_here.
           ++ rewrite <- H1. apply I1; auto. now rewrite H1.
        -- exists ([Group2After (byte_val b) (pg2 p)] ++ l). now rewrite I3, H2, <- app_assoc.
      * rewrite H1 in *. split; [auto|split; [auto|]].
        exists (l' ++ l). now rewrite I3, H2, <- app_assoc.
    + cbn. destruct (Byte.eqb b x67); cbn.
      * split; [|split]; try (intros _ r Hr; now apply elem_of_nil in Hr). eexists; reflexivity.
      * split; [|split]; try (intros _ r Hr; now apply elem_of_nil in Hr).
        exists []. now rewrite app_nil_r.
Qed.

Lemma occurrences_cons (B b : byte) (l : list byte) :
  occurrences B (b :: l)
  = if Byte.eqb B b then S (occurrences B l) else occurrences B l.
Proof. unfold occurrences. cbn [List.filter]. now destruct (Byte.eqb B b). Qed.

Ltac not_logged :=
  let H := fresh in
  intros H;
  repeat (apply elem_of_cons in H as [H|H]; [discriminate H|]);
  now apply elem_of_nil in H.

(** The log entry of a flag prefix: one byte [B], the flag [f] it sets and
    the anomaly [A] reported when the flag is set already. *)
Section FlagLog.

Variable B : byte.
Variable f : prefixes -> bool.
Variable A : anomaly.

Hypothesis A_flag : A <> AddressSizeOverride.

Hypothesis step_same : forall p,
  f (apply_prefix B p) = true
  /\ anomalies (apply_prefix B p) = anomalies p ++ (if f p then [A] else []).

Hypothesis step_other : forall b p,
  is_prefix_byte b = true -> b <> B ->
  f (apply_prefix b p) = f p
  /\ exists l, anomalies (apply_prefix b p) = anomalies p ++ l /\ A ∉ l.

Lemma scan_flag_log (code : list byte) (p : prefixes) (n : Z) :
  A ∈ anomalies (final_prefixes (scan_prefixes code p n))
  <-> A ∈ anomalies p
      \/ (if f p then 1 <= occurrences B (prefix_run code)
          else 2 <= occurrences B (prefix_run code))%nat.
Proof.
  revert p n. induction code as [|b code IH]; intros p n.
  - cbn. destruct (f p); (split; [auto|intros [H|H]; [auto|lia]]).
  - rewrite scan_prefixes_cons. cbn [prefix_run].
    destruct (is_prefix_byte b) eqn:Hb.
    + rewrite IH, occurrences_cons.
      destruct (Byte.byte_eq_dec b B) as [->|Hne].
      * destruct (step_same p) as [E1 E2]. rewrite E1, E2.
        rewrite (Byte.byte_dec_lb eq_refl).
        rewrite elem_of_app. destruct (f p).
        -- split; [intros _; right; lia|intros _; left; right; apply list_elem_of_here].
        -- split.
           ++ intros [[H|H]|H]; [now left|now apply elem_of_nil in H|right; lia].
           ++ intros [H|H]; [now left; left|right; lia].
      * destruct (step_other b p Hb Hne) as (E1 & l & E2 & Hl). rewrite E1, E2.
        destruct (Byte.eqb B b) eqn:E; [apply Byte.byte_dec_bl in E; congruence|].
        rewrite elem_of_app. split.
        -- intros [[H|H]|H]; [now left|contradiction|now right].
        -- intros [H|H]; [now left; left|now right].
    + cbn [final_prefixes]. unfold occurrences. cbn [List.filter length].
      assert (R : A ∈ anomalies p
                  \/ (if f p then (1 <= 0)%nat else (2 <= 0)%nat) <-> A ∈ anomalies p)
        by (destruct (f p); (split; [intros [H|H]; [auto|lia]|auto])).
      rewrite R. destruct (Byte.eqb b x67); cbn [final_prefixes]; [|reflexivity].
      cbn [note anomalies]. rewrite elem_of_app. split; [|now left].
      intros [H|H]; [assumption|].
      apply elem_of_cons in H as [H|H]; [contradiction|now apply elem_of_nil in H].
Qed.

End FlagLog.

Ltac flag_step_same :=
  intros [r g o l0 rn re an];
  cbv [apply_prefix is_seg set_lock set_repne set_repe set_oso note
       rex pg2 lock oso repne repe anomalies];
  repeat match goal with |- context [if ?c then _ else _] => destruct c end;
  cbv [rex pg2 lock oso repne repe anomalies];
  split; rewrite ?app_nil_r; reflexivity.

Ltac flag_step_other :=
  intros b [r g o l0 rn re an] Hb Hne;
  destruct b; try discriminate Hb; try (contradiction Hne; reflexivity);
  cbv [apply_prefix is_seg set_lock set_repne set_repe set_oso set_pg2 set_rex note
       rex pg2 lock oso repne repe anomalies];
  repeat match goal with |- context [if ?c then _ else _] => destruct c end;
  cbv [rex pg2 lock oso repne repe anomalies];
  (split; [reflexivity|]);
  first [ exists []; split; [now rewrite app_nil_r|not_logged]
        | eexists; split; [reflexivity|not_logged] ].

Lemma lock_log (code : list byte) :
  LockTwice ∈ anomalies (final_prefixes (scan_prefixes code no_prefixes 0))
  <-> (2 <= occurrences xf0 (prefix_run code))%nat.
Proof.
  rewrite (scan_flag_log xf0 lock LockTwice);
    [|discriminate|flag_step_same|flag_step_other].
  cbn [no_prefixes anomalies lock]. split; [intros [H|H]; [now apply elem_of_nil in H|exact H]|now right].
Qed.

Lemma repne_log (code : list byte) :
  RepneTwice ∈ anomalies (final_prefixes (scan_prefixes code no_prefixes 0))
  <-> (2 <= occurrences xf2 (prefix_run code))%nat.
Proof.
  rewrite (scan_flag_log xf2 repne RepneTwice);
    [|discriminate|flag_step_same|flag_step_other].
  cbn [no_prefixes anomalies repne]. split; [intros [H|H]; [now apply elem_of_nil in H|exact H]|now right].
Qed.

Lemma repe_log (code : list byte) :
  RepeTwice ∈ anomalies (final_prefixes (scan_prefixes code no_prefixes 0))
  <-> (2 <= occurrences xf3 (prefix_run code))%nat.
Proof.
  rewrite (scan_flag_log xf3 repe RepeTwice);
    [|discriminate|flag_step_same|flag_step_other].
  cbn [no_prefixes anomalies repe]. split; [intros [H|H]; [now apply elem_of_nil in H|exact H]|now right].
Qed.

Lemma oso_log (code : list byte) :
  OsoTwice ∈ anomalies (final_prefixes (scan_prefixes code no_prefixes 0))
  <-> (2 <= occurrences x66 (prefix_run code))%nat.
Proof.
  rewrite (scan_flag_log x66 oso OsoTwice);
    [|discriminate|flag_step_same|flag_step_other].
  cbn [no_prefixes anomalies oso]. split; [intros [H|H]; [now apply elem_of_nil in H|exact H]|now right].
Qed.

(** A scan that reaches the opcode has not reported the address-size
    override. *)
Lemma scan_prefixes_no_abort (code : list byte) (p : prefixes) (n : Z) :
  AddressSizeOverride ∉ anomalies p ->
  match scan_prefixes code p n with
  | Scanned p' _ _ => AddressSizeOverride ∉ anomalies p'
  | Aborted _ => True
  end.
Proof.
  revert p n. induction code as [|b code IH]; intros p n Hp; [exact Hp|].
  rewrite scan_prefixes_cons. destruct (is_prefix_byte b) eqn:Hb.
  - apply IH. intros Hin. apply Hp.
    destruct p as [r g o l0 rn re an].
    destruct b; try discriminate Hb; revert Hin;
      cbv [apply_prefix is_seg set_lock set_repne set_repe set_oso set_pg2 set_rex note
           rex pg2 lock oso repne repe anomalies];
      repeat match goal with |- context [if ?c then _ else _] => destruct c end;
      cbv [rex pg2 lock oso repne repe anomalies]; intros Hin; try exact Hin;
      apply elem_of_app in Hin as [Hin|Hin]; try exact Hin;
      (apply elem_of_cons in Hin as [Hin|Hin]; [discriminate Hin|now apply elem_of_nil in Hin]).
  - destruct (Byte.eqb b x67); [exact I|exact Hp].
Qed.

(** C9. Every prefix group keeps what its first occurrence set: the REX byte in
    effect is the first REX byte of the run, the segment byte the first
    segment byte, the flags record presence.  A repeated prefix does not stop
    decoding and is reported: each later REX byte against the first one,
    each later segment byte against the first one, and a second LOCK, REPNE,
    REPE or operand-size override as found twice; these reports are made
    for repeated prefixes only. *)
Theorem prefix_first_occurrence_wins (code : list byte) :
  after_prefixes code <> x67 ->
  exists p : prefixes,
    decode_x64_reg_op code
    = decode_opcode p (Z.of_nat (length (prefix_run code))) (body code)
    /\ rex p = hd 0 (rex_bytes (prefix_run code))
    /\ pg2 p = hd 0 (seg_bytes (prefix_run code))
    /\ oso p = has x66 (prefix_run code)
    /\ lock p = has xf0 (prefix_run code)
    /\ repne p = has xf2 (prefix_run code)
    /\ repe p = has xf3 (prefix_run code)
    /\ (forall r, r ∈ tail (rex_bytes (prefix_run code)) ->
          RexAfter r (hd 0 (rex_bytes (prefix_run code))) ∈ decode_log code)
    /\ (forall g, g ∈ tail (seg_bytes (prefix_run code)) ->
          Group2After g (hd 0 (seg_bytes (prefix_run code))) ∈ decode_log code)
    /\ (LockTwice ∈ decode_log code <-> (2 <= occurrences xf0 (prefix_run code))%nat)
    /\ (RepneTwice ∈ decode_log code <-> (2 <= occurrences xf2 (prefix_run code))%nat)
    /\ (RepeTwice ∈ decode_log code <-> (2 <= occurrences xf3 (prefix_run code))%nat)
    /\ (OsoTwice ∈ decode_log code <-> (2 <= occurrences x66 (prefix_run code))%nat)
    /\ AddressSizeOverride ∉ decode_log code.
Proof.
  intros H67. destruct (decode_scanned code H67) as (p & Hs & H1 & H2 & H3 & H4 & H5 & H6).
  exists p.
  pose proof (scan_prefixes_log code no_prefixes 0) as L.
  pose proof (scan_prefixes_seg_log code no_prefixes 0) as G.
  pose proof (lock_log code) as F1. pose proof (repne_log code) as F2.
  pose proof (repe_log code) as F3. pose proof (oso_log code) as F4.
  pose proof (scan_prefixes_no_abort code no_prefixes 0) as N.
  unfold decode_x64_reg_op, decode_log. rewrite Hs in *.
  cbv zeta in L, G. cbn [final_prefixes no_prefixes rex pg2 anomalies] in *.
  destruct L as (_ & L & _). destruct G as (_ & G & _).
  repeat split; auto; try apply F1; try apply F2; try apply F3; try apply F4.
  apply N. intros Hin. now apply elem_of_nil in Hin.
Qed.

Lemma prefix_first_occurrence_wins_witness :
  let code := bytes [0x48; 0x66; 0x2e; 0xf0; 0x41; 0x66; 0x3e; 0xf0; 0x8b; 0x00] in
  exists p : prefixes,
    decode_x64_reg_op code = decode_opcode p 8 (bytes [0x8b; 0x00])
    /\ rex p = 0x48
    /\ pg2 p = 0x2e
    /\ oso p = true
    /\ lock p = true
    /\ repne p = false
    /\ repe p = false
    /\ (forall r, r ∈ [0x41] -> RexAfter r 0x48 ∈ decode_log code)
    /\ (forall g, g ∈ [0x3e] -> Group2After g 0x2e ∈ decode_log code)
    /\ (LockTwice ∈ decode_log code <-> (2 <= 2)%nat)
    /\ (RepneTwice ∈ decode_log code <-> (2 <= 0)%nat)
    /\ (RepeTwice ∈ decode_log code <-> (2 <= 0)%nat)
    /\ (OsoTwice ∈ decode_log code <-> (2 <= 2)%nat)
    /\ AddressSizeOverride ∉ decode_log code.
Proof.
  apply (prefix_first_occurrence_wins
           (bytes [0x48; 0x66; 0x2e; 0xf0; 0x41; 0x66; 0x3e; 0xf0; 0x8b; 0x00])).
  vm_compute. discriminate.
Defined.

(** With the REX bytes 0x48 then 0x40 the decoder keeps 0x48, not the last
    one: the operand is 8 bytes wide, where 0x40 alone gives 4. *)
Lemma rex_last_byte_does_not_win :
  rex_used (bytes [0x48; 0x40; 0x8b; 0x00])
    <> List.last (rex_bytes (prefix_run (bytes [0x48; 0x40; 0x8b; 0x00]))) 0
  /\ rex_used (bytes [0x48; 0x40; 0x8b; 0x00]) = 0x48
  /\ out_size (decode_x64_reg_op (bytes [0x48; 0x40; 0x8b; 0x00])) = 8
  /\ out_size (decode_x64_reg_op (bytes [0x40; 0x8b; 0x00])) = 4.
Proof. vm_compute. repeat split; congruence. Qed.


(** *** Register file *)

Lemma X64REG_set_same (c : x64_context) (r v : Z) :
  (Z.to_nat r < length (gregs c))%nat -> X64REG (set_X64REG c r v) r = v.
Proof. intros H. unfold X64REG, set_X64REG. cbn. now apply list_lookup_total_insert_eq. Qed.

Lemma X64REG_set_other (c : x64_context) (r r' v : Z) :
  Z.to_nat r <> Z.to_nat r' -> X64REG (set_X64REG c r v) r' = X64REG c r'.
Proof. intros H. unfold X64REG, set_X64REG. cbn. now apply list_lookup_total_insert_ne. Qed.

(** Reads of a register after a chain of register writes. *)
Ltac regs_simpl :=
  repeat match goal with
  | |- context [X64REG (set_X64REG ?c ?r ?v) ?r'] =>
    first [ rewrite (X64REG_set_same c r v)
              by (cbn [gregs set_X64REG]; rewrite ?length_insert; lia)
          | rewrite (X64REG_set_other c r r' v) by lia ]
  end.

Lemma set_X64REG_well_formed (c : x64_context) (r v : Z) :
  well_formed c -> well_formed (set_X64REG c r v).
Proof. unfold well_formed, set_X64REG. cbn. now rewrite length_insert. Qed.

(** *** Operand sizes *)

Lemma match_size {A : Type} (d : Z) (a1 a2 a4 a8 dflt : A) :
  d <> 1 -> d <> 2 -> d <> 4 -> d <> 8 ->
  match d with 1 => a1 | 2 => a2 | 4 => a4 | 8 => a8 | _ => dflt end = dflt.
Proof.
  intros H1 H2 H4 H8. destruct d as [|p|p]; auto.
  do 4 (try (destruct p as [p|p|]; auto; try congruence)).
Qed.

Lemma is_access_size_cases (d : Z) :
  is_access_size d = true <-> d = 1 \/ d = 2 \/ d = 4 \/ d = 8.
Proof.
  split.
  - intros H. destruct (Z.eq_dec d 1); auto. destruct (Z.eq_dec d 2); auto.
    destruct (Z.eq_dec d 4); auto. destruct (Z.eq_dec d 8); auto.
    unfold is_access_size in H. rewrite match_size in H by auto. discriminate.
  - intros [->|[->|[->| ->]]]; reflexivity.
Qed.

(** Splits on the operand size: 1, 2, 4, 8 or none of them. *)
Ltac size_cases d :=
  destruct (Z.eq_dec d 1) as [->|?];
  [|destruct (Z.eq_dec d 2) as [->|?];
    [|destruct (Z.eq_dec d 4) as [->|?];
      [|destruct (Z.eq_dec d 8) as [->|?];
        [|rewrite ?match_size in * by assumption]]]].

(** *** Bit masks *)

Lemma land_le_mask (a m : Z) : 0 <= m -> 0 <= Z.land a m <= m.
Proof.
  intros Hm. split; [apply Z.land_nonneg; now right|].
  assert (E : Z.ldiff m a + Z.land a m = m).
  { rewrite Z.add_nocarry_lor.
    - rewrite (Z.land_comm a m). apply Z.lor_ldiff_and.
    - apply Z.bits_inj'. intros n Hn.
      rewrite !Z.land_spec, Z.ldiff_spec, Z.bits_0.
      destruct (Z.testbit m n), (Z.testbit a n); reflexivity. }
  assert (0 <= Z.ldiff m a) by (apply Z.ldiff_nonneg; now left). lia.
Qed.

Lemma lor_bound (a b n : Z) : 0 <= n -> 0 <= a < 2^n -> 0 <= b < 2^n -> 0 <= Z.lor a b < 2^n.
Proof.
  intros Hn Ha Hb.
  assert (Hnn : 0 <= Z.lor a b) by (apply Z.lor_nonneg; lia).
  split; [exact Hnn|].
  destruct (Z.eq_dec (Z.lor a b) 0) as [E|Hz]; [rewrite E; lia|].
  assert (0 < n) by (destruct (Z.eq_dec n 0) as [->|]; [|lia];
                     change (2^0) with 1 in *; assert (a = 0) by lia; assert (b = 0) by lia;
                     subst; now contradiction Hz).
  apply Z.log2_lt_pow2; [lia|]. rewrite Z.log2_lor by lia.
  assert (La : Z.log2 a < n).
  { destruct (Z.eq_dec a 0) as [->|]; [cbn; lia|apply Z.log2_lt_pow2; lia]. }
  assert (Lb : Z.log2 b < n).
  { destruct (Z.eq_dec b 0) as [->|]; [cbn; lia|apply Z.log2_lt_pow2; lia]. }
  lia.
Qed.

Lemma lor_ge_l (a b : Z) : 0 <= a -> 0 <= b -> a <= Z.lor a b.
Proof.
  intros Ha Hb.
  assert (E : a + Z.ldiff b a = Z.lor a b).
  { rewrite Z.add_nocarry_lor.
    - apply Z.bits_inj'. intros n Hn. rewrite !Z.lor_spec, Z.ldiff_spec.
      destruct (Z.testbit a n), (Z.testbit b n); reflexivity.
    - apply Z.bits_inj'. intros n Hn. rewrite Z.land_spec, Z.ldiff_spec, Z.bits_0.
      destruct (Z.testbit a n), (Z.testbit b n); reflexivity. }
  assert (0 <= Z.ldiff b a) by (apply Z.ldiff_nonneg; now left). lia.
Qed.

Lemma lor_ge_r (a b : Z) : 0 <= a -> 0 <= b -> b <= Z.lor a b.
Proof. intros. rewrite Z.lor_comm. now apply lor_ge_l. Qed.

(** C3. A byte or word write keeps bits 8..31 (16..31) of the register but
    clears bits 32..63: the masks [0xffffff00] and [0xffff0000] are 32 bits
    wide. *)
Theorem put_x64_reg_value_partial_write_clears_high
    (c : x64_context) (reg d_size value : Z) :
  well_formed c -> 0 <= reg < 16 -> d_size = 1 \/ d_size = 2 ->
  exists c',
    put_x64_reg_value c reg d_size value = Some c'
    /\ X64REG c' reg
       = Z.lor (Z.land value (2^(8 * d_size) - 1))
               (Z.land (X64REG c reg) (2^32 - 2^(8 * d_size)))
    /\ X64REG c' reg < 2^32.
Proof.
  intros [Hg _] Hr Hd. unfold put_x64_reg_value, X64R_RAX, u32.
  rewrite Z.sub_0_r, Z.mod_small by lia.
  destruct (reg <? 16) eqn:E; [|lia].
  assert (Hlen : (Z.to_nat reg < length (gregs c))%nat) by lia.
  destruct Hd as [-> | ->]; eexists; (split; [reflexivity|]);
    rewrite X64REG_set_same by auto; (split; [reflexivity|]).
  - pose proof (land_le_mask value 0xff). pose proof (land_le_mask (X64REG c reg) 0xffffff00).
    apply (lor_bound _ _ 32); lia.
  - pose proof (land_le_mask value 0xffff). pose proof (land_le_mask (X64REG c reg) 0xffff0000).
    apply (lor_bound _ _ 32); lia.
Qed.

(** RAX holds 0x1122334455667788 and the byte 0xAB is written: the register
    ends as 0x556677AB, where a partial write gives 0x11223344556677AB. *)
Lemma put_x64_reg_value_partial_write_clears_high_witness :
  exists c',
    put_x64_reg_value (with_regs [(0, 0x1122334455667788)] zero_context) 0 1 0xAB = Some c'
    /\ X64REG c' 0 = 0x556677AB
    /\ X64REG c' 0 < 2^32.
Proof.
  apply (put_x64_reg_value_partial_write_clears_high
           (with_regs [(0, 0x1122334455667788)] zero_context) 0 1 0xAB).
  - split; reflexivity.
  - lia.
  - now left.
Defined.

Lemma partial_write_sample :
  partial_write 1 0x1122334455667788 0xAB = 0x11223344556677AB.
Proof. reflexivity. Qed.

(** The remaining cases of [put_x64_reg_value]: a dword write zero-extends,
    a qword write replaces the register, and an operand that is no general
    register is refused. *)
Lemma put_x64_reg_value_dword (c : x64_context) (reg value : Z) :
  well_formed c -> 0 <= reg < 16 ->
  exists c', put_x64_reg_value c reg 4 value = Some c' /\ X64REG c' reg = value mod 2^32.
Proof.
  intros [Hg _] Hr. unfold put_x64_reg_value, X64R_RAX, u32.
  rewrite Z.sub_0_r, Z.mod_small by lia. destruct (reg <? 16) eqn:E; [|lia].
  eexists; split; [reflexivity|]. rewrite X64REG_set_same by lia.
  change 0xffffffff with (Z.ones 32). now rewrite Z.land_ones by lia.
Qed.

Lemma put_x64_reg_value_qword (c : x64_context) (reg value : Z) :
  well_formed c -> 0 <= reg < 16 ->
  exists c', put_x64_reg_value c reg 8 value = Some c' /\ X64REG c' reg = value.
Proof.
  intros [Hg _] Hr. unfold put_x64_reg_value, X64R_RAX, u32.
  rewrite Z.sub_0_r, Z.mod_small by lia. destruct (reg <? 16) eqn:E; [|lia].
  eexists; split; [reflexivity|]. now rewrite X64REG_set_same by lia.
Qed.

Lemma put_x64_reg_value_refused (c : x64_context) (reg d_size value : Z) :
  16 <= reg < 2^32 -> put_x64_reg_value c reg d_size value = None.
Proof.
  intros Hr. unfold put_x64_reg_value, X64R_RAX, u32.
  rewrite Z.sub_0_r, Z.mod_small by lia. destruct (reg <? 16) eqn:E; [lia|reflexivity].
Qed.

Lemma put_x64_reg_value_frame (c c' : x64_context) (reg d_size value r : Z) :
  put_x64_reg_value c reg d_size value = Some c' ->
  0 <= reg -> 0 <= r -> r <> reg ->
  X64REG c' r = X64REG c r /\ xmm c' = xmm c /\ eflags c' = eflags c.
Proof.
  unfold put_x64_reg_value, X64R_RAX. rewrite Z.sub_0_r.
  destruct (u32 reg <? 16); [|discriminate].
  intros H Hreg Hr Hne.
  assert (Z.to_nat reg <> Z.to_nat r) by lia.
  size_cases d_size; try discriminate H;
    injection H as <-; rewrite X64REG_set_other by auto; auto.
Qed.

(** *** The flag routine *)

Lemma flag_frame (b : bool) (bit : Z) (c : x64_context) :
  gregs (flag b bit c) = gregs c /\ xmm (flag b bit c) = xmm c.
Proof. split; reflexivity. Qed.

Lemma set_x64_cmp_flags_frame (c c' : x64_context) (d_size x y : Z) (carry : bool) :
  set_x64_cmp_flags c d_size x y carry = Some c' -> gregs c' = gregs c /\ xmm c' = xmm c.
Proof.
  unfold set_x64_cmp_flags.
  size_cases d_size; try discriminate;
    intros H; injection H as <-; destruct carry; split; reflexivity.
Qed.

Lemma set_x64_cmp_flags_defined (c : x64_context) (d_size x y : Z) (carry : bool) :
  is_access_size d_size = true -> exists c', set_x64_cmp_flags c d_size x y carry = Some c'.
Proof.
  intros H. apply is_access_size_cases in H as [->|[->|[->| ->]]]; eexists; reflexivity.
Qed.

(** C1. At width 4 with [x = 0], [y = 1] the routine leaves CF and AF clear,
    where the subtraction [0 - 1] borrows: the processor sets CF, PF, AF and
    SF.  Of the five listed vectors, [(0,0)] and [(1,0)] agree with the
    processor; [(0,1)], [(0x7FFFFFFF,0xFFFFFFFF)] (OF expected, AF set
    instead) and [(0xFF,0xFF)] at width 1 (CF and AF set) do not. *)
Theorem set_x64_cmp_flags_misses_borrow :
  (EFLAGS <$> set_x64_cmp_flags zero_context 4 0 1 true) = Some 0x84
  /\ sub_flags 4 0 1 = 0x95
  /\ (EFLAGS <$> set_x64_cmp_flags zero_context 4 0x7FFFFFFF 0xFFFFFFFF true) = Some 0x95
  /\ sub_flags 4 0x7FFFFFFF 0xFFFFFFFF = 0x885
  /\ (EFLAGS <$> set_x64_cmp_flags zero_context 1 0xFF 0xFF true) = Some 0x55
  /\ sub_flags 1 0xFF 0xFF = 0x44
  /\ (EFLAGS <$> set_x64_cmp_flags zero_context 4 0 0 true) = Some (sub_flags 4 0 0)
  /\ (EFLAGS <$> set_x64_cmp_flags zero_context 4 1 0 true) = Some (sub_flags 4 1 0).
Proof. repeat split; reflexivity. Qed.


(** *** Sizes the decoder produces *)

Lemma get_op_size_cases (rex : Z) (oso : bool) :
  get_op_size rex oso = 2 \/ get_op_size rex oso = 4 \/ get_op_size rex oso = 8.
Proof. unfold get_op_size. destruct (_ =? 0), oso; auto. Qed.

Ltac close_size :=
  cbv beta iota;
  change (byte_val xc5 =? 197) with true; change (byte_val xc4 =? 197) with false;
  cbv beta iota;
  split_ifs; cbv beta iota delta [out_size out_op unsupported];
  solve [ lia | match goal with
                | |- context [get_op_size ?r ?o] => pose proof (get_op_size_cases r o); lia
                end ].

Lemma decode_opcode_size_range (p : prefixes) (n : Z) (code : list byte) :
  0 <= out_size (decode_opcode p n code) <= 32.
Proof.
  index_stream.
  destruct (nth 0 code x00) eqn:E0; cbv beta iota; try (cbn; lia); try solve [close_size].
  - destruct (nth 1 code x00) eqn:E1; cbv beta iota; try (cbn; lia); try solve [close_size].
    destruct (nth 2 code x00) eqn:E2; cbv beta iota; try (cbn; lia); close_size.
  - change (byte_val xc4 =? 197) with false; cbv beta iota.
    destruct (nth 3 code x00) eqn:E3; close_size.
  - change (byte_val xc5 =? 197) with true; cbv beta iota.
    destruct (nth 2 code x00) eqn:E3; close_size.
Qed.

Lemma decode_size_range (code : list byte) : 0 <= out_size (decode_x64_reg_op code) <= 32.
Proof.
  unfold decode_x64_reg_op. destruct (scan_prefixes code no_prefixes 0); [cbn; lia|].
  apply decode_opcode_size_range.
Qed.

(** *** The range test *)

Lemma u64_range (z : Z) : 0 <= u64 z < 2^64.
Proof. apply Z.mod_pos_bound. lia. Qed.

Lemma u32_range (z : Z) : 0 <= u32 z < 2^32.
Proof. apply Z.mod_pos_bound. lia. Qed.

Lemma out_of_range_spec (size addr : Z) :
  0 <= addr < 2^32 -> 0 <= size < 2^64 ->
  out_of_range size addr = true <-> 2^32 <= addr + size.
Proof.
  intros Ha Hs. unfold out_of_range. rewrite Z.leb_le.
  pose proof (u64_range (size + addr)) as Hu. split.
  - intros H. destruct (Z_lt_le_dec (addr + size) (2^32)) as [Hlt|]; [|lia].
    exfalso. unfold u64 in *. rewrite Z.mod_small in * by lia.
    pose proof (lor_bound size (size + addr) 32). lia.
  - intros H. destruct (Z_lt_le_dec size (2^32)) as [Hlt|Hge].
    + unfold u64 in *. rewrite Z.mod_small in * by lia.
      pose proof (lor_ge_r size (size + addr)). lia.
    + pose proof (lor_ge_l size (u64 (size + addr))). lia.
Qed.

Lemma get_x64_access_size_range (code : list byte) (c : x64_context) (op : x64_op_t)
    (reg d_size i_size : Z) :
  0 <= d_size < 2^64 -> 0 <= get_x64_access_size code c op reg d_size i_size < 2^64.
Proof.
  intros Hd. unfold get_x64_access_size.
  repeat match goal with
  | |- context [if ?b then _ else _] => destruct b
  | |- context [match ?o with Some _ => _ | None => _ end] => destruct o
  end; try apply u64_range; lia.
Qed.


Section HandlerFacts.

Variables BASE OFFSET PROB : Z.
Variables vm_base vm_base_priv : Z -> Z.
Variable hook : option (Z -> bool -> bool).
Variable raw_spu_thread : Z -> bool.
Variable read_reg : Z -> Z -> option Z.
Variable write_reg : Z -> Z -> Z -> bool.

Local Notation "'hav'" :=
  (handle_access_violation BASE OFFSET PROB vm_base vm_base_priv hook
     raw_spu_thread read_reg write_reg).
Local Notation "'mmio'" := (raw_spu_access BASE OFFSET raw_spu_thread read_reg write_reg).
Local Notation "'ram'" := (ram_access vm_base vm_base_priv).

(** C7. When the hook does not claim the fault and the operand size or the
    access size reaches past the 32-bit space ([addr + size >= 2^32], which
    includes an access ending exactly at the top and the failure value of
    [get_x64_access_size]), the fault is unhandled and nothing was touched:
    same context, same memory, no outside call. *)
Theorem range_failure_is_unhandled
    (code : list byte) (addr : Z) (is_writing : bool) (s : state) :
  hook_claims hook addr is_writing = false ->
  0 <= addr < 2^32 ->
  2^32 <= addr + out_size (decode_x64_reg_op code)
  \/ 2^32 <= addr + get_x64_access_size code (ctx s) (out_op (decode_x64_reg_op code))
                      (out_reg (decode_x64_reg_op code)) (out_size (decode_x64_reg_op code))
                      (out_length (decode_x64_reg_op code)) ->
  hav code addr is_writing s = Some (false, s).
Proof.
  intros Hh Ha H. unfold handle_access_violation. rewrite Hh. cbv zeta.
  pose proof (decode_size_range code) as Hd.
  destruct (out_of_range (out_size _) addr) eqn:E1; [reflexivity|].
  destruct (out_of_range (get_x64_access_size _ _ _ _ _ _) addr) eqn:E2; [reflexivity|].
  exfalso. destruct H as [H|H].
  - apply out_of_range_spec in H; [congruence|lia|lia].
  - apply out_of_range_spec in H; [congruence|lia|].
    apply get_x64_access_size_range. lia.
Qed.

(** *** RawSPU windows *)

Local Notation "'in_probe'" := (in_probe_range BASE OFFSET PROB).

Hypothesis offset_pos : 0 < OFFSET.
Hypothesis base_pos : 0 < BASE.
Hypothesis base_aligned : BASE mod OFFSET = 0.
Hypothesis windows_fit : BASE + 6 * OFFSET <= 2^32.
Hypothesis prob_nonneg : 0 <= PROB.

Lemma is_raw_spu_mmio_spec (addr : Z) :
  0 <= addr < 2^32 ->
  is_raw_spu_mmio BASE OFFSET PROB addr = true <-> in_probe addr.
Proof.
  intros Ha. unfold is_raw_spu_mmio, in_probe_range.
  rewrite andb_true_iff, Z.ltb_lt, Z.leb_le.
  assert (E6 : u32 (6 * OFFSET) = 6 * OFFSET) by (unfold u32; apply Z.mod_small; lia).
  rewrite E6.
  assert (Em : addr mod OFFSET = (addr - BASE) mod OFFSET).
  { assert (Eb : BASE = OFFSET * (BASE / OFFSET)) by (apply Z.div_exact; lia).
    replace (addr mod OFFSET) with ((addr - BASE + (BASE / OFFSET) * OFFSET) mod OFFSET)
      by (f_equal; lia).
    now rewrite Z.mod_add by lia. }
  rewrite Em. split.
  - intros [H1 H2].
    assert (Hge : BASE <= addr).
    { destruct (Z_lt_le_dec addr BASE); [|assumption]. exfalso.
      unfold u32 in H1.
      replace (addr - BASE) with (addr - BASE + 2^32 + (-1) * 2^32) in H1 by lia.
      rewrite Z.mod_add, Z.mod_small in H1 by lia. lia. }
    unfold u32 in H1. rewrite Z.mod_small in H1 by lia.
    exists ((addr - BASE) / OFFSET).
    pose proof (Z.div_mod (addr - BASE) OFFSET ltac:(lia)) as Hdm.
    pose proof (Z.mod_pos_bound (addr - BASE) OFFSET offset_pos) as Hmb.
    assert (0 <= (addr - BASE) / OFFSET) by (apply Z.div_pos; lia).
    assert ((addr - BASE) / OFFSET < 6) by (apply Z.div_lt_upper_bound; lia).
    nia.
  - intros (i & Hi & Hlo & Hhi).
    assert (Hq : (addr - BASE) mod OFFSET = addr - BASE - i * OFFSET).
    { symmetry. apply (Z.mod_unique _ _ i); [left; nia|lia]. }
    split.
    + unfold u32. rewrite Z.mod_small by nia. nia.
    + rewrite Hq. lia.
Qed.

(** *** The RawSPU branch accepts six operations of size 4 *)


Lemma raw_spu_access_accepts (code : list byte) (addr : Z) (is_writing : bool)
    (op : x64_op_t) (reg d_size a_size i_size : Z) (s : state) :
  fst (mmio code addr is_writing op reg d_size a_size i_size s) = true ->
  mmio_op op = true /\ a_size = 4.
Proof.
  unfold raw_spu_access. intros H. split.
  - destruct op; try reflexivity; exfalso; revert H;
      repeat match goal with
      | |- context [if ?b then _ else _] => destruct b
      end; cbn; discriminate.
  - destruct (a_size =? 4) eqn:E4; [now apply Z.eqb_eq in E4|].
    exfalso. revert H. destruct (negb (raw_spu_thread _)); cbn; discriminate.
Qed.


Lemma raw_spu_access_trace (code : list byte) (addr : Z) (is_writing : bool)
    (op : x64_op_t) (reg d_size a_size i_size : Z) (s : state) :
  exists l, trace (snd (mmio code addr is_writing op reg d_size a_size i_size s)) = trace s ++ l
            /\ forallb (fun e => negb (is_query e)) l = true.
Proof.
  unfold raw_spu_access.
  repeat match goal with
  | |- context [if ?b then _ else _] => destruct b
  | |- context [match ?o with Some _ => _ | None => _ end] => destruct o
  | |- context [match ?o with X64OP_NONE => _ | _ => _ end] => destruct o
  end; cbn;
  first [ exists []; rewrite app_nil_r; split; reflexivity
        | eexists; split; reflexivity ].
Qed.

(** C6. Past the hook and the range tests, a fault goes to the RawSPU
    register interface exactly when its address lies in the probe sub-range
    of one of the six windows, and to the reservation query otherwise; the
    RawSPU branch handles only the six load/store operations with access size
    4 and never queries the reservation. *)
Theorem raw_spu_routing
    (code : list byte) (addr : Z) (is_writing : bool) (s : state) :
  let d := decode_x64_reg_op code in
  let a_size := get_x64_access_size code (ctx s) (out_op d) (out_reg d) (out_size d)
                                    (out_length d) in
  0 <= addr < 2^32 ->
  hook_claims hook addr is_writing = false ->
  out_of_range (out_size d) addr = false ->
  out_of_range a_size addr = false ->
  (in_probe addr ->
   let r := mmio code addr is_writing (out_op d) (out_reg d) (out_size d) a_size
                 (out_length d) s in
   hav code addr is_writing s = Some r
   /\ (fst r = true -> mmio_op (out_op d) = true /\ a_size = 4)
   /\ exists l, trace (snd r) = trace s ++ l /\ forallb (fun e => negb (is_query e)) l = true)
  /\ (~ in_probe addr ->
      hav code addr is_writing s
      = ram code addr is_writing (out_op d) (out_reg d) (out_size d) a_size (out_length d) s).
Proof.
  intros d a_size Ha Hh H1 H2. unfold handle_access_violation. rewrite Hh. cbv zeta.
  fold d. rewrite H1. fold a_size. rewrite H2.
  pose proof (is_raw_spu_mmio_spec addr Ha) as Hs. split.
  - intros Hin. apply Hs in Hin. rewrite Hin. split; [reflexivity|]. split.
    + apply raw_spu_access_accepts.
    + apply raw_spu_access_trace.
  - intros Hout. destruct (is_raw_spu_mmio BASE OFFSET PROB addr); [|reflexivity].
    exfalso. apply Hout, Hs. reflexivity.
Qed.

End HandlerFacts.


(** A load from the problem-state area of the first RawSPU window, with the
    sample constants and a thread in every slot. *)
Lemma raw_spu_routing_witness :
  let code := bytes [0x8b; 0x00] in
  let s := start zero_context in
  let hav := handle_access_violation RAW_SPU_BASE_ADDR RAW_SPU_OFFSET RAW_SPU_PROB_OFFSET
               vm_base vm_base_priv no_hook any_thread const_read ok_write in
  (in_probe_range RAW_SPU_BASE_ADDR RAW_SPU_OFFSET RAW_SPU_PROB_OFFSET 0xE0040000 ->
   let r := raw_spu_access RAW_SPU_BASE_ADDR RAW_SPU_OFFSET any_thread const_read ok_write
              code 0xE0040000 false X64OP_LOAD 0 4 4 2 s in
   hav code 0xE0040000 false s = Some r
   /\ (fst r = true -> mmio_op X64OP_LOAD = true /\ 4 = 4)
   /\ exists l, trace (snd r) = trace s ++ l /\ forallb (fun e => negb (is_query e)) l = true)
  /\ (~ in_probe_range RAW_SPU_BASE_ADDR RAW_SPU_OFFSET RAW_SPU_PROB_OFFSET 0xE0040000 ->
      hav code 0xE0040000 false s
      = ram_access vm_base vm_base_priv code 0xE0040000 false X64OP_LOAD 0 4 4 2 s).
Proof.
  apply (raw_spu_routing RAW_SPU_BASE_ADDR RAW_SPU_OFFSET RAW_SPU_PROB_OFFSET
           vm_base vm_base_priv no_hook any_thread const_read ok_write);
    try reflexivity; try (unfold RAW_SPU_BASE_ADDR, RAW_SPU_OFFSET, RAW_SPU_PROB_OFFSET; lia).
Defined.

(** An access that would end past the top of the 32-bit space. *)
Lemma range_failure_is_unhandled_witness :
  handle (bytes [0x48; 0x89; 0x03]) 0xFFFFFFFC true (start zero_context)
  = Some (false, start zero_context).
Proof.
  apply (range_failure_is_unhandled RAW_SPU_BASE_ADDR RAW_SPU_OFFSET RAW_SPU_PROB_OFFSET
           vm_base vm_base_priv no_hook no_thread no_read no_write).
  - reflexivity.
  - lia.
  - left. vm_compute. discriminate.
Defined.

(** A NOP at the faulting instruction pointer: both sizes pass the range
    test, and the fault is unhandled all the same. *)
Lemma unhandled_without_range_failure :
  let d := decode_x64_reg_op (bytes [0x90]) in
  out_of_range (out_size d) 0x1000 = false
  /\ out_of_range (get_x64_access_size (bytes [0x90]) zero_context (out_op d) (out_reg d)
                     (out_size d) (out_length d)) 0x1000 = false
  /\ fst <$> handle (bytes [0x90]) 0x1000 false (start zero_context) = Some false.
Proof. repeat split; reflexivity. Qed.


(** ** Block operations *)

(** Membership in an explicit list of register numbers. *)
Ltac mem_list :=
  intros;
  repeat match goal with
  | H : _ ∈ _ |- _ => rewrite ?elem_of_cons, ?elem_of_nil in H
  end;
  rewrite ?elem_of_cons, ?elem_of_nil; intuition lia.

Lemma regs_unchanged_refl (regs : list Z) (c : x64_context) : regs_unchanged_except regs c c.
Proof. repeat split; auto. Qed.

Lemma regs_unchanged_trans (regs : list Z) (c1 c2 c3 : x64_context) :
  regs_unchanged_except regs c1 c2 -> regs_unchanged_except regs c2 c3 ->
  regs_unchanged_except regs c1 c3.
Proof.
  intros (A1 & A2 & A3) (B1 & B2 & B3). repeat split; try congruence.
  intros r Hr Hn. rewrite B1, A1; auto.
Qed.

Lemma regs_unchanged_set (regs : list Z) (c c' : x64_context) (r v : Z) :
  regs_unchanged_except regs c c' -> 0 <= r -> r ∈ regs ->
  regs_unchanged_except regs c (set_X64REG c' r v).
Proof.
  intros (A1 & A2 & A3) Hr Hin. repeat split; cbn; auto.
  - intros r' Hr' Hn. rewrite X64REG_set_other; auto. intros E.
    assert (r = r') by lia. subst. contradiction.
  - now rewrite length_insert.
Qed.

Lemma regs_unchanged_flags (regs : list Z) (c c' c'' : x64_context) :
  regs_unchanged_except regs c c' -> gregs c'' = gregs c' -> xmm c'' = xmm c' ->
  regs_unchanged_except regs c c''.
Proof.
  intros (A1 & A2 & A3) Hg Hx. repeat split; try congruence.
  intros r Hr Hn. unfold X64REG in *. rewrite Hg. auto.
Qed.

Lemma regs_unchanged_weaken (regs regs' : list Z) (c c' : x64_context) :
  (forall r, r ∈ regs -> r ∈ regs') ->
  regs_unchanged_except regs c c' -> regs_unchanged_except regs' c c'.
Proof. intros Hsub (A1 & A2 & A3). repeat split; auto. Qed.

Lemma unchanged_except_refl (regs : list Z) (s : state) : unchanged_except regs s s.
Proof. split; [apply regs_unchanged_refl|reflexivity]. Qed.

Lemma unchanged_except_trans (regs : list Z) (s1 s2 s3 : state) :
  unchanged_except regs s1 s2 -> unchanged_except regs s2 s3 -> unchanged_except regs s1 s3.
Proof.
  intros [A1 A2] [B1 B2]. split; [eapply regs_unchanged_trans; eauto|congruence].
Qed.

(** Closes a frame goal whose final context is a chain of register writes
    on the initial one. *)
Ltac frame_writes :=
  split; [cbn [ctx mem trace with_ctx with_mem];
          repeat (apply regs_unchanged_set; [|lia|mem_list]);
          apply regs_unchanged_refl
         |reflexivity].

Section BlockLoops.

Variable vm_base_priv : Z -> Z.

Lemma stos_loop_frame (fuel : nat) (addr a_addr d_size value reg : Z) (s : state) :
  outcome_holds (unchanged_except [1; 6; 7] s)
                (stos_loop vm_base_priv fuel addr a_addr d_size value reg s).
Proof.
  revert a_addr s. induction fuel as [|fuel IH]; intros a_addr s; cbn [stos_loop]; [exact I|].
  cbv zeta.
  repeat match goal with
  | |- context [if ?b then _ else _] => destruct b
  end; cbn [outcome_holds]; try solve [frame_writes].
  match goal with
  | |- outcome_holds _ (stos_loop _ _ _ ?a _ _ _ ?s') =>
    specialize (IH a s'); assert (F : unchanged_except [1; 6; 7] s s') by frame_writes
  end.
  destruct (stos_loop _ _ _ _ _ _ _ _); cbn [outcome_holds] in *; auto;
    eapply unchanged_except_trans; eauto.
Qed.

Lemma movs_loop_frame (fuel : nat) (addr a_addr d_size reg : Z) (s : state) :
  outcome_holds (unchanged_except [1; 6; 7] s)
                (movs_loop vm_base_priv fuel addr a_addr d_size reg s).
Proof.
  revert a_addr s. induction fuel as [|fuel IH]; intros a_addr s; cbn [movs_loop]; [exact I|].
  cbv zeta.
  repeat match goal with
  | |- context [if ?b then _ else _] => destruct b
  end; cbn [outcome_holds]; try solve [frame_writes].
  match goal with
  | |- outcome_holds _ (movs_loop _ _ _ ?a _ _ ?s') =>
    specialize (IH a s'); assert (F : unchanged_except [1; 6; 7] s s') by frame_writes
  end.
  destruct (movs_loop _ _ _ _ _ _ _); cbn [outcome_holds] in *; auto;
    eapply unchanged_except_trans; eauto.
Qed.

(** Pages and fuel: [a >> 12] is the page, and a loop that starts in the
    page of [addr] with more fuel than bytes left in the page ends by
    itself. *)
Lemma next_in_page (addr a d : Z) :
  0 <= a < 2^32 -> 1 <= d <= 8 ->
  Z.shiftr a 12 = Z.shiftr addr 12 ->
  Z.shiftr (u32 (a + u32 d)) 12 <> Z.shiftr addr 12
  \/ 4096 - u32 (a + u32 d) mod 4096 < 4096 - a mod 4096.
Proof.
  intros Ha Hd Hp. rewrite !Z.shiftr_div_pow2 in * by lia. change (2^12) with 4096 in *.
  unfold u32. rewrite (Z.mod_small d) by lia.
  destruct (Z_lt_le_dec (a + d) (2^32)) as [Hlt|Hge].
  - rewrite Z.mod_small by lia.
    destruct (Z.eq_dec ((a + d) / 4096) (a / 4096)) as [E|E]; [right|left; congruence].
    pose proof (Z.div_mod a 4096 ltac:(lia)). pose proof (Z.div_mod (a + d) 4096 ltac:(lia)).
    lia.
  - left. rewrite <- Hp.
    replace (a + d) with (a + d - 2^32 + 1 * 2^32) by lia.
    rewrite Z.mod_add, Z.mod_small by lia.
    assert ((a + d - 2^32) / 4096 = 0) by (apply Z.div_small; lia).
    assert (1 <= a / 4096) by (apply Z.div_le_lower_bound; lia). lia.
Qed.

Lemma u32_next_range (a d : Z) : 0 <= u32 (a + u32 d) < 2^32.
Proof. apply u32_range. Qed.

Lemma stos_loop_ends (fuel : nat) (addr a_addr d_size value reg : Z) (s : state) :
  0 <= a_addr < 2^32 -> 1 <= d_size <= 8 ->
  (Z.shiftr a_addr 12 <> Z.shiftr addr 12 /\ (1 <= fuel)%nat)
  \/ 4096 - a_addr mod 4096 < Z.of_nat fuel ->
  stos_loop vm_base_priv fuel addr a_addr d_size value reg s <> OutOfFuel.
Proof.
  revert a_addr s. induction fuel as [|fuel IH]; intros a_addr s Ha Hd Hf.
  - exfalso. pose proof (Z.mod_pos_bound a_addr 4096). lia.
  - cbn [stos_loop]. cbv zeta.
    destruct (Z.shiftr a_addr 12 =? Z.shiftr addr 12) eqn:Ep; [|discriminate].
    apply Z.eqb_eq in Ep.
    repeat match goal with
    | |- context [if ?b then _ else _] => destruct b
    end; try discriminate.
    apply IH; [apply u32_next_range|assumption|].
    destruct Hf as [[Hne _]|Hf]; [congruence|].
    pose proof (Z.mod_pos_bound a_addr 4096).
    destruct (next_in_page addr a_addr d_size Ha Hd Ep) as [Hn|Hn]; [left|right]; lia.
Qed.

Lemma movs_loop_ends (fuel : nat) (addr a_addr d_size reg : Z) (s : state) :
  0 <= a_addr < 2^32 -> 1 <= d_size <= 8 ->
  (Z.shiftr a_addr 12 <> Z.shiftr addr 12 /\ (1 <= fuel)%nat)
  \/ 4096 - a_addr mod 4096 < Z.of_nat fuel ->
  movs_loop vm_base_priv fuel addr a_addr d_size reg s <> OutOfFuel.
Proof.
  revert a_addr s. induction fuel as [|fuel IH]; intros a_addr s Ha Hd Hf.
  - exfalso. pose proof (Z.mod_pos_bound a_addr 4096). lia.
  - cbn [movs_loop]. cbv zeta.
    destruct (Z.shiftr a_addr 12 =? Z.shiftr addr 12) eqn:Ep; [|discriminate].
    apply Z.eqb_eq in Ep.
    repeat match goal with
    | |- context [if ?b then _ else _] => destruct b
    end; try discriminate.
    apply IH; [apply u32_next_range|assumption|].
    destruct Hf as [[Hne _]|Hf]; [congruence|].
    pose proof (Z.mod_pos_bound a_addr 4096).
    destruct (next_in_page addr a_addr d_size Ha Hd Ep) as [Hn|Hn]; [left|right]; lia.
Qed.

Lemma page_fuel_enough (addr : Z) : 4096 - addr mod 4096 < Z.of_nat page_fuel.
Proof. pose proof (Z.mod_pos_bound addr 4096). unfold page_fuel. lia. Qed.

End BlockLoops.


Section BlockOperations.

Variables vm_base vm_base_priv : Z -> Z.

Local Notation "'access'" := (privileged_access vm_base vm_base_priv).

Lemma stos_loop_never_handled (fuel : nat) (addr a_addr d_size value reg : Z) (s : state) :
  never_handled (stos_loop vm_base_priv fuel addr a_addr d_size value reg s).
Proof.
  revert a_addr s. induction fuel as [|fuel IH]; intros a_addr s; cbn [stos_loop]; [exact I|].
  cbv zeta.
  repeat match goal with
  | |- context [if ?b then _ else _] => destruct b
  end; cbn; auto.
Qed.

Lemma movs_loop_never_handled (fuel : nat) (addr a_addr d_size reg : Z) (s : state) :
  never_handled (movs_loop vm_base_priv fuel addr a_addr d_size reg s).
Proof.
  revert a_addr s. induction fuel as [|fuel IH]; intros a_addr s; cbn [movs_loop]; [exact I|].
  cbv zeta.
  repeat match goal with
  | |- context [if ?b then _ else _] => destruct b
  end; cbn; auto.
Qed.

(** After a block loop that left the registers outside RCX, RSI, RDI alone,
    the instruction is skipped exactly when there is no counter or the
    counter is exhausted. *)
Lemma after_block_loop_rip (reg i_size : Z) (s s' : state) (o : outcome) :
  well_formed (ctx s) ->
  outcome_holds (unchanged_except [1; 6; 7] s) o ->
  never_handled o ->
  finish i_size (after_block_loop reg o) = Some (true, s') ->
  unchanged_except [1; 6; 7; 16] s s'
  /\ if (reg =? X64_NOT_SET) || (RCX (ctx s') =? 0)
     then RIP (ctx s') = u64 (RIP (ctx s) + i_size)
     else RIP (ctx s') = RIP (ctx s).
Proof.
  intros [Hg Hx] Hf Hn. destruct o as [s1|[] s1|]; cbn in Hn; try contradiction;
    cbn [after_block_loop finish outcome_holds] in *; try discriminate.
  destruct Hf as [(F1 & F2 & F3) F4].
  assert (R16 : RIP (ctx s1) = RIP (ctx s)) by (apply F1; [lia|mem_list]).
  destruct ((reg =? X64_NOT_SET) || (RCX (ctx s1) =? 0)) eqn:E; cbn [finish];
    intros H; injection H as <-.
  - split.
    + split; [|exact F4]. cbn [ctx with_ctx].
      apply regs_unchanged_set; [|lia|mem_list].
      eapply regs_unchanged_weaken; [|repeat split; eauto]. mem_list.
    + cbn [ctx with_ctx]. unfold RCX, RIP in *.
      assert (length (gregs (ctx s1)) = 17%nat) by congruence.
      regs_simpl. rewrite E. now rewrite R16.
  - split.
    + split; [|exact F4].
      eapply regs_unchanged_weaken; [|repeat split; eauto]. mem_list.
    + now rewrite E.
Qed.

(** The rule for every block move and block store. *)
Lemma block_op_rip (code : list byte) (addr : Z) (op : x64_op_t) (reg d_size i_size : Z)
    (s s' : state) :
  is_block_op op = true -> well_formed (ctx s) ->
  finish i_size (access code addr op reg d_size i_size s) = Some (true, s') ->
  unchanged_except [1; 6; 7; 16] s s'
  /\ if (reg =? X64_NOT_SET) || (RCX (ctx s') =? 0)
     then RIP (ctx s') = u64 (RIP (ctx s) + i_size)
     else RIP (ctx s') = RIP (ctx s).
Proof.
  intros Hop Hwf. unfold privileged_access.
  destruct ((d_size =? 0) || (i_size =? 0)); [discriminate|].
  destruct op; try discriminate Hop.
  - destruct (8 <? d_size); [discriminate|].
    destruct (negb (vm_base addr =? RDI (ctx s))); [discriminate|].
    apply after_block_loop_rip; auto using movs_loop_frame, movs_loop_never_handled.
  - destruct (8 <? d_size); [discriminate|].
    destruct (negb (vm_base addr =? RDI (ctx s))); [discriminate|].
    destruct (get_x64_reg_value code (ctx s) X64R_RAX d_size i_size); [|discriminate].
    apply after_block_loop_rip; auto using stos_loop_frame, stos_loop_never_handled.
Qed.

(** One full iteration of the store loop. *)
Lemma stos_loop_step (fuel : nat) (addr a_addr d_size value reg : Z) (s : state) :
  Z.shiftr a_addr 12 = Z.shiftr addr 12 ->
  Z.land (EFLAGS (ctx s)) 0x400 = 0 ->
  reg <> X64_NOT_SET ->
  well_formed (ctx s) ->
  u64 (RCX (ctx s) - 1) <> 0 ->
  stos_loop vm_base_priv (S fuel) addr a_addr d_size value reg s
  = stos_loop vm_base_priv fuel addr (u32 (a_addr + u32 d_size)) d_size value reg
      (mk_state (set_X64REG (set_X64REG (ctx s) 7 (u64 (RDI (ctx s) + d_size))) 1
                            (u64 (RCX (ctx s) - 1)))
                (store (mem s) (vm_base_priv a_addr) (Z.to_nat d_size) value)
                (trace s)).
Proof.
  intros Hp Hdf Hreg [Hg Hx] Hc. cbn [stos_loop]. cbv zeta.
  rewrite Hp, Z.eqb_refl. cbn [ctx with_mem with_ctx mem trace]. rewrite Hdf. cbn [Z.eqb negb].
  apply Z.eqb_neq in Hreg. rewrite Hreg.
  unfold RCX in *. regs_simpl.
  apply Z.eqb_neq in Hc. rewrite Hc. reflexivity.
Qed.

End BlockOperations.


(** ** The privileged access: termination and frame *)

Section PrivilegedAccess.

Variables vm_base vm_base_priv : Z -> Z.

Local Notation "'access'" := (privileged_access vm_base vm_base_priv).

Ltac split_access :=
  repeat match goal with
  | |- context [if ?b then _ else _] => destruct b eqn:?
  | |- context [match ?o with Some _ => _ | None => _ end] => destruct o eqn:?
  end.

Lemma after_block_loop_ends (reg : Z) (o : outcome) :
  o <> OutOfFuel -> after_block_loop reg o <> OutOfFuel.
Proof. destruct o; cbn; auto. destruct (_ || _); discriminate. Qed.

Lemma privileged_access_ends (code : list byte) (addr : Z) (op : x64_op_t)
    (reg d_size i_size : Z) (s : state) :
  0 <= addr < 2^32 -> 0 <= d_size ->
  access code addr op reg d_size i_size s <> OutOfFuel.
Proof.
  intros Ha Hd. unfold privileged_access.
  destruct ((d_size =? 0) || (i_size =? 0)) eqn:E0; [discriminate|].
  apply orb_false_iff in E0 as [E0 _]. apply Z.eqb_neq in E0.
  destruct op; cbv beta iota zeta delta [rmw_case atomic_rmw]; try discriminate;
    try solve [split_access; discriminate].
  - destruct (8 <? d_size) eqn:E8; [discriminate|]. apply Z.ltb_ge in E8.
    destruct (negb _); [discriminate|].
    apply after_block_loop_ends, movs_loop_ends; [lia|lia|].
    right. apply page_fuel_enough.
  - destruct (8 <? d_size) eqn:E8; [discriminate|]. apply Z.ltb_ge in E8.
    destruct (negb _); [discriminate|].
    destruct (get_x64_reg_value _ _ _ _ _); [|discriminate].
    apply after_block_loop_ends, stos_loop_ends; [lia|lia|].
    right. apply page_fuel_enough.
Qed.

Lemma put_x64_reg_value_regs (c c' : x64_context) (reg d_size value : Z) :
  0 <= reg ->
  put_x64_reg_value c reg d_size value = Some c' ->
  regs_unchanged_except [reg - X64R_RAX] c c'.
Proof.
  unfold put_x64_reg_value, X64R_RAX. rewrite Z.sub_0_r. intros Hr.
  destruct (u32 reg <? 16) eqn:E; [|discriminate].
  intros H. size_cases d_size; try discriminate H; injection H as <-;
    (apply regs_unchanged_set; [apply regs_unchanged_refl|assumption|mem_list]).
Qed.

Lemma set_x64_cmp_flags_regs (regs : list Z) (c c' : x64_context) (d_size x y : Z)
    (carry : bool) :
  set_x64_cmp_flags c d_size x y carry = Some c' -> regs_unchanged_except regs c c'.
Proof.
  intros H. apply set_x64_cmp_flags_frame in H as [Hg Hx].
  eapply regs_unchanged_flags; [apply regs_unchanged_refl|assumption|assumption].
Qed.

Ltac frame_case :=
  cbn [outcome_holds];
  first
    [ apply unchanged_except_refl
    | solve [frame_writes]
    | (split; [|reflexivity]); cbn [ctx with_ctx with_mem designated] in *;
      first
        [ eapply put_x64_reg_value_regs; solve [eauto]
        | eapply set_x64_cmp_flags_regs; eassumption
        | eapply regs_unchanged_trans;
          [ eapply (put_x64_reg_value_regs _ _ X64R_RAX); [discriminate|eassumption]
          | eapply set_x64_cmp_flags_regs; eassumption ]
        | eapply (put_x64_reg_value_regs _ _ X64R_RAX); [discriminate|eassumption] ] ].

Lemma privileged_access_frame (code : list byte) (addr : Z) (op : x64_op_t)
    (reg d_size i_size : Z) (s : state) :
  0 <= reg ->
  outcome_holds (unchanged_except (designated op reg) s)
                (access code addr op reg d_size i_size s).
Proof.
  intros Hreg. unfold privileged_access.
  destruct ((d_size =? 0) || (i_size =? 0)); [apply unchanged_except_refl|].
  destruct op; cbv beta iota zeta delta [rmw_case atomic_rmw];
    try apply unchanged_except_refl.
  - (* store *) split_access; cbn [outcome_holds]; frame_writes.
  - (* store, big endian *) split_access; cbn [outcome_holds]; frame_writes.
  - (* block move *)
    split_access; cbn [outcome_holds]; try apply unchanged_except_refl.
    pose proof (movs_loop_frame vm_base_priv page_fuel addr addr d_size reg s) as F.
    destruct (movs_loop _ _ _ _ _ _ _) as [s1|b s1|]; cbn [after_block_loop outcome_holds] in *;
      auto. destruct (_ || _); exact F.
  - (* block store *)
    split_access; cbn [outcome_holds]; try apply unchanged_except_refl.
    match goal with
    | |- context [stos_loop _ _ _ _ _ ?v _ _] =>
      pose proof (stos_loop_frame vm_base_priv page_fuel addr addr d_size v reg s) as F
    end.
    destruct (stos_loop _ _ _ _ _ _ _ _) as [s1|b s1|];
      cbn [after_block_loop outcome_holds] in *; auto;
      try destruct (_ || _); cbn [outcome_holds designated];
      (split; [eapply regs_unchanged_weaken; [|apply F]; mem_list|apply F]).
  - (* exchange *) split_access; frame_case.
  - (* compare and exchange *) split_access; frame_case.
  - split_access; frame_case.
  - split_access; frame_case.
  - split_access; frame_case.
  - split_access; frame_case.
  - split_access; frame_case.
  - split_access; frame_case.
  - split_access; frame_case.
  - split_access; frame_case.
  - split_access; frame_case.
Qed.

End PrivilegedAccess.


(** ** What the decoder hands to the handler *)

Lemma rd_nonneg (code : list byte) (i : nat) : 0 <= rd code i.
Proof. unfold rd. pose proof (byte_val_range (nth i code x00)). lia. Qed.

Lemma modRM_field_nonneg (code : list byte) : 0 <= Z.shiftr (Z.land (rd code 0) 0x38) 3.
Proof. apply Z.shiftr_nonneg, Z.land_nonneg. left. apply rd_nonneg. Qed.

Lemma get_modRM_reg_nonneg (code : list byte) (rex : Z) : 0 <= get_modRM_reg code rex.
Proof.
  unfold get_modRM_reg, X64R_RAX. pose proof (modRM_field_nonneg code).
  assert (0 <= Z.lor (Z.shiftr (Z.land (rd code 0) 0x38) 3) (if Z.land rex 4 =? 0 then 0 else 8))
    by (apply Z.lor_nonneg; split; [assumption|destruct (_ =? 0); lia]).
  lia.
Qed.

Lemma get_modRM_reg_xmm_nonneg (code : list byte) (rex : Z) : 0 <= get_modRM_reg_xmm code rex.
Proof. apply get_modRM_reg_nonneg. Qed.

Lemma reg8_nonneg (code : list byte) (rex : Z) : 0 <= reg8 code rex.
Proof.
  unfold reg8. destruct (_ =? 0); [|apply get_modRM_reg_nonneg].
  unfold get_modRM_reg_lh, X64R_AL. pose proof (modRM_field_nonneg code). lia.
Qed.

Lemma group1_op_kind (z : Z) :
  group1_op z <> X64OP_CMPXCHG /\ is_block_op (group1_op z) = false.
Proof.
  destruct z as [|q|q]; try (split; [discriminate|reflexivity]);
    do 4 (try (destruct q as [q|q|]; try (split; [discriminate|reflexivity]))).
Qed.

Lemma group1_op8_kind (z : Z) :
  group1_op8 z <> X64OP_CMPXCHG /\ is_block_op (group1_op8 z) = false.
Proof.
  destruct z as [|q|q]; try (split; [discriminate|reflexivity]);
    do 4 (try (destruct q as [q|q|]; try (split; [discriminate|reflexivity]))).
Qed.

Lemma group3_op_kind (z : Z) :
  group3_op z <> X64OP_CMPXCHG /\ is_block_op (group3_op z) = false.
Proof. destruct z; split; try discriminate; reflexivity. Qed.

Ltac close_facts :=
  cbv beta iota;
  change (byte_val xc5 =? 197) with true; change (byte_val xc4 =? 197) with false;
  cbv beta iota;
  split_ifs; cbv beta iota delta [out_op out_reg out_size out_length unsupported];
  (split; [|split]);
  solve
    [ discriminate
    | intros _; (split; [reflexivity|]);
      match goal with
      | |- context [modRM_rule ?b] => pose proof (modRM_rule_pos b); lia
      end
    | intros _; match goal with
      | |- context [get_op_size ?r ?o] =>
        split; [destruct (get_op_size_cases r o) as [->|[-> | ->]]; reflexivity|]
      end;
      match goal with
      | |- context [modRM_rule ?b] => pose proof (modRM_rule_pos b); lia
      end
    | intros H; exfalso; revert H;
      first [apply group1_op_kind | apply group1_op8_kind | apply group3_op_kind]
    | intros H; exfalso; revert H;
      first [rewrite (proj2 (group1_op_kind _)) | rewrite (proj2 (group1_op8_kind _))
            | rewrite (proj2 (group3_op_kind _))]; discriminate
    | intros _; reflexivity
    | apply get_modRM_reg_nonneg | apply get_modRM_reg_xmm_nonneg | apply reg8_nonneg
    | destruct (_ =? 0); vm_compute; discriminate
    | vm_compute; discriminate ].

Lemma decode_opcode_facts (p : prefixes) (n : Z) (code : list byte) :
  0 <= n ->
  let d := decode_opcode p n code in
  (out_op d = X64OP_CMPXCHG -> is_access_size (out_size d) = true /\ 0 < out_length d)
  /\ (is_block_op (out_op d) = true -> out_size d = 1)
  /\ 0 <= out_reg d.
Proof.
  intros Hn. cbv zeta. index_stream.
  destruct (nth 0 code x00) eqn:E0; cbv beta iota; try solve [close_facts].
  - destruct (nth 1 code x00) eqn:E1; cbv beta iota; try solve [close_facts].
    destruct (nth 2 code x00) eqn:E2; cbv beta iota; close_facts.
  - change (byte_val xc4 =? 197) with false; cbv beta iota.
    destruct (nth 3 code x00) eqn:E3; close_facts.
  - change (byte_val xc5 =? 197) with true; cbv beta iota.
    destruct (nth 2 code x00) eqn:E3; close_facts.
Qed.

Lemma decode_facts (code : list byte) :
  let d := decode_x64_reg_op code in
  (out_op d = X64OP_CMPXCHG -> is_access_size (out_size d) = true /\ 0 < out_length d)
  /\ (is_block_op (out_op d) = true -> out_size d = 1)
  /\ 0 <= out_reg d.
Proof.
  unfold decode_x64_reg_op.
  pose proof (scan_prefixes_spec code no_prefixes 0) as S.
  destruct (scan_prefixes code no_prefixes 0) as [q|q m rest].
  - cbn. repeat split; try discriminate. 
  - destruct S as (_ & -> & _). apply decode_opcode_facts. lia.
Qed.


(** ** The handler as a whole *)

Section HandlerTheorems.

Variables BASE OFFSET PROB : Z.
Variables vm_base vm_base_priv : Z -> Z.
Variable hook : option (Z -> bool -> bool).
Variable raw_spu_thread : Z -> bool.
Variable read_reg : Z -> Z -> option Z.
Variable write_reg : Z -> Z -> Z -> bool.

Local Notation "'hav'" :=
  (handle_access_violation BASE OFFSET PROB vm_base vm_base_priv hook
     raw_spu_thread read_reg write_reg).

(** X23. The handler returns on every fault at a 32-bit address: a block
    move or block store leaves the page of the fault, and with it its loop,
    within 4096 elements, so the handler never spins on one fault. *)
Theorem handle_access_violation_returns
    (code : list byte) (addr : Z) (is_writing : bool) (s : state) :
  0 <= addr < 2^32 -> exists r, hav code addr is_writing s = Some r.
Proof.
  intros Ha. unfold handle_access_violation, ram_access, reservation_query.
  repeat match goal with
  | |- context [if ?b then _ else _] => destruct b
  end; try (eexists; reflexivity).
  match goal with
  | |- context [finish _ ?o] =>
    assert (E : o <> OutOfFuel)
      by (apply privileged_access_ends; [assumption|apply decode_size_range]);
    destruct o; [eexists; reflexivity..|contradiction]
  end.
Qed.

(** C10. A fault handled on the RAM path leaves every general register
    outside the designated ones, and every vector register, as it was. *)
Theorem ram_path_preserves_other_registers
    (code : list byte) (addr : Z) (is_writing : bool) (s s' : state) :
  is_raw_spu_mmio BASE OFFSET PROB addr = false ->
  hav code addr is_writing s = Some (true, s') ->
  (forall r, 0 <= r < 16 ->
     r ∉ designated (out_op (decode_x64_reg_op code)) (out_reg (decode_x64_reg_op code)) ->
     X64REG (ctx s') r = X64REG (ctx s) r)
  /\ xmm (ctx s') = xmm (ctx s).
Proof.
  intros Hm. unfold handle_access_violation, ram_access, reservation_query. rewrite Hm.
  destruct (hook_claims hook addr is_writing).
  { intros H. injection H as <-. auto. }
  cbv zeta. destruct (out_of_range _ addr); [discriminate|].
  destruct (out_of_range _ addr); [discriminate|].
  set (d := decode_x64_reg_op code).
  set (e := EvReservationQuery _ _ _).
  pose proof (privileged_access_frame vm_base vm_base_priv code addr (out_op d) (out_reg d)
                (out_size d) (out_length d) (emit e s)
                (proj2 (proj2 (decode_facts code)))) as F.
  destruct (privileged_access _ _ _ _ _ _ _ _ _) as [s1|b s1|]; cbn [finish outcome_holds] in *;
    try discriminate.
  - intros H. injection H as <-. destruct F as [(F1 & F2 & F3) _]. cbn [ctx emit with_ctx] in *.
    split; [|exact F2].
    intros r Hr Hn. rewrite X64REG_set_other by lia. apply F1; [lia|assumption].
  - intros H. injection H as -> <-. destruct F as [(F1 & F2 & F3) _]. cbn [ctx emit] in *.
    split; [|exact F2]. intros r Hr Hn. apply F1; [lia|assumption].
Qed.

End HandlerTheorems.

(** A handled exchange on the sample machine: RBX, the designated register,
    is the only general register that may differ. *)
Lemma ram_path_preserves_other_registers_witness :
  (forall r, 0 <= r < 16 -> r ∉ designated X64OP_XCHG 3 ->
     X64REG (ctx xchg_end) r = X64REG (ctx xchg_start) r)
  /\ xmm (ctx xchg_end) = xmm (ctx xchg_start).
Proof.
  apply (ram_path_preserves_other_registers RAW_SPU_BASE_ADDR RAW_SPU_OFFSET
           RAW_SPU_PROB_OFFSET vm_base vm_base_priv no_hook no_thread no_read no_write
           (bytes [0x87; 0x18]) 0x3000 true xchg_start xchg_end).
  - reflexivity.
  - vm_compute. reflexivity.
Defined.

Lemma handle_access_violation_returns_witness :
  exists r, handle (bytes [0xf3; 0xaa]) 0x10ff8 true (start zero_context) = Some r.
Proof.
  apply (handle_access_violation_returns RAW_SPU_BASE_ADDR RAW_SPU_OFFSET RAW_SPU_PROB_OFFSET
           vm_base vm_base_priv no_hook no_thread no_read no_write). lia.
Defined.


(** ** Decoding looks at no byte past the instruction *)

Lemma scan_prefixes_ext (code code' : list byte) (p : prefixes) (n : Z) :
  (forall i, (i <= length (prefix_run code))%nat -> nth i code' x00 = nth i code x00) ->
  prefix_run code' = prefix_run code
  /\ scan_prefixes code' p n
     = match scan_prefixes code p n with
       | Scanned q m _ => Scanned q m (body code')
       | Aborted q => Aborted q
       end.
Proof.
  revert code' p n. induction code as [|b code IH]; intros code' p n H.
  - specialize (H 0%nat (Nat.le_0_l _)). destruct code' as [|b' code']; [split; reflexivity|].
    cbn in H. subst b'. split; reflexivity.
  - pose proof (H 0%nat (Nat.le_0_l _)) as H0. destruct code' as [|b' code'].
    + cbn in H0. subst b. split; reflexivity.
    + cbn in H0. subst b'. unfold body. rewrite !scan_prefixes_cons. cbn [prefix_run] in *.
      destruct (is_prefix_byte b) eqn:Hb.
      * destruct (IH code' (apply_prefix b p) (n + 1)) as [E1 E2].
        { intros i Hi. apply (H (S i)). cbn [length]. lia. }
        rewrite E1. split; [reflexivity|]. rewrite E2. unfold body. rewrite E1. reflexivity.
      * split; [reflexivity|]. destruct (Byte.eqb b x67); reflexivity.
Qed.

Ltac nth_form :=
  cbv beta zeta delta [decode_opcode get_modRM_reg get_modRM_reg_xmm get_modRM_reg_lh reg8
                       get_modRM_size];
  rewrite ?drop_drop, ?nth_drop_byte, ?rd_drop; cbn [Nat.add].

Ltac use_agreement :=
  repeat match goal with
  | H : (?i <= ?k)%nat -> nth ?i ?c' x00 = _ |- _ =>
    first [ rewrite (H ltac:(lia)) in * | clear H ]
  end.

Lemma decode_opcode_ext (p : prefixes) (n : Z) (code code' : list byte) :
  (forall i, (i <= reach code)%nat -> nth i code' x00 = nth i code x00) ->
  decode_opcode p n code' = decode_opcode p n code.
Proof.
  intros H.
  pose proof (H 0%nat) as H0. pose proof (H 1%nat) as H1. pose proof (H 2%nat) as H2.
  pose proof (H 3%nat) as H3. pose proof (H 4%nat) as H4. clear H.
  unfold reach, opcode_bytes, has_modRM in *. nth_form.
  rewrite (H0 ltac:(lia)). clear H0.
  destruct (nth 0 code x00) eqn:E0; cbv beta iota in *; try reflexivity;
    change (byte_val xc5 =? 197) with true; change (byte_val xc4 =? 197) with false;
    cbv beta iota; cbn [negb andb];
    try solve [use_agreement; reflexivity].
  destruct (nth 1 code x00) eqn:E1; cbv beta iota in *;
    use_agreement; rewrite ?E1; reflexivity.
Qed.

Lemma reach_below_length (p : prefixes) (n : Z) (code : list byte) :
  out_op (decode_opcode p n code) <> X64OP_NONE ->
  Z.of_nat (reach code) < out_length (decode_opcode p n code) - n.
Proof.
  intros Hop. rewrite (decode_opcode_length p n code Hop). unfold reach.
  assert (0 <= counted_imm (nth 0 code x00) (oso p))
    by (unfold counted_imm; destruct (nth 0 code x00), (oso p); lia).
  destruct (has_modRM (nth 0 code x00)).
  - pose proof (modRM_rule_pos (nth (opcode_bytes code) code x00)). lia.
  - assert (1 <= opcode_bytes code)%nat
      by (unfold opcode_bytes; repeat (destruct (nth _ code x00); try lia)).
    lia.
Qed.

Lemma decode_ext (code code' : list byte) :
  out_op (decode_x64_reg_op code) <> X64OP_NONE ->
  (forall i, Z.of_nat i < out_length (decode_x64_reg_op code) ->
     nth i code' x00 = nth i code x00) ->
  decode_x64_reg_op code' = decode_x64_reg_op code.
Proof.
  intros Hop H.
  destruct (Byte.byte_eq_dec (after_prefixes code) x67) as [E|E].
  { rewrite (decode_aborted code E) in Hop. now contradiction Hop. }
  destruct (decode_scanned code E) as (p & Hs & _).
  unfold decode_x64_reg_op in *. rewrite Hs in *.
  pose proof (reach_below_length _ _ _ Hop) as Hr.
  destruct (scan_prefixes_ext code code' no_prefixes 0) as [E1 E2].
  { intros i Hi. apply H. lia. }
  rewrite E2, Hs. apply decode_opcode_ext.
  intros i Hi. unfold body. rewrite E1, !nth_drop_byte. apply H. lia.
Qed.


(** The immediate the decoder counts against the immediate of the
    instruction: they differ for the 16/32-bit immediates when the
    operand-size override meets REX.W. *)
Lemma counted_imm_format (op1 : byte) (reg_field : Z) (w o16 : bool) :
  (op1 = xf6 \/ op1 = xf7 -> reg_field = 0) ->
  counted_imm op1 o16
  = imm_bytes op1 reg_field w o16 - (if has_imm_z op1 && o16 && w then 2 else 0).
Proof.
  intros H. unfold counted_imm, imm_bytes, has_imm_z.
  destruct op1; cbn [andb]; try lia; try (destruct o16, w; cbn [andb]; lia);
    rewrite H by auto; cbv beta iota; change (0 <? 2) with true; cbv iota;
    try lia; destruct o16, w; cbn [andb]; lia.
Qed.

Lemma decode_group3_supported (code : list byte) :
  out_op (decode_x64_reg_op code) <> X64OP_NONE ->
  after_prefixes code = xf6 \/ after_prefixes code = xf7 ->
  modRM_reg_field (nth 1 (body code) x00) = 0.
Proof.
  intros Hop Hb.
  destruct (Z.eq_dec (modRM_reg_field (nth 1 (body code) x00)) 0) as [E|E]; [exact E|].
  exfalso. apply Hop.
  destruct (Byte.byte_eq_dec (after_prefixes code) x67) as [E67|E67].
  { now rewrite (decode_aborted code E67). }
  destruct (decode_scanned code E67) as (p & Hs & _).
  unfold decode_x64_reg_op. rewrite Hs. rewrite <- after_prefixes_body in Hb.
  destruct (decode_opcode_group3 p (Z.of_nat (length (prefix_run code))) (body code) E)
    as [H6 H7].
  destruct Hb as [Hb|Hb]; [rewrite (H6 Hb)|rewrite (H7 Hb)]; reflexivity.
Qed.

(** C8. For a stream the decoder supports, the length it returns is the
    length of the instruction (prefix bytes, opcode bytes, the bytes of the
    ModRM rule, the immediate) except where an opcode with a 16/32-bit
    immediate (0x81, 0xC7, 0xF7) carries both the operand-size override and
    REX.W: the immediate then has four bytes and the decoder counts two, so
    the returned offset lies inside the instruction.  In every case the
    result depends on no byte at or past the returned length. *)
Theorem decode_length_misses_rex_w (code : list byte) :
  out_op (decode_x64_reg_op code) <> X64OP_NONE ->
  out_length (decode_x64_reg_op code)
  = insn_length code
    - (if has_imm_z (after_prefixes code) && has x66 (prefix_run code)
          && rex_w (prefix_run code)
       then 2 else 0)
  /\ forall code',
       (forall i, Z.of_nat i < out_length (decode_x64_reg_op code) ->
          nth i code' x00 = nth i code x00) ->
       decode_x64_reg_op code' = decode_x64_reg_op code.
Proof.
  intros Hop. split; [|intros code' H; now apply decode_ext].
  rewrite (decode_length_formula code Hop). unfold counted_length, insn_length. cbv zeta.
  rewrite after_prefixes_body.
  rewrite (counted_imm_format (after_prefixes code)
             (modRM_reg_field (nth 1 (body code) x00)) (rex_w (prefix_run code))).
  - lia.
  - now apply decode_group3_supported.
Qed.

(** [66 48 81 00 78 56 34 12], add qword [rax], 0x12345678 with a redundant
    operand-size override: eight bytes, of which the decoder counts six. *)
Lemma decode_length_misses_rex_w_witness :
  let code := bytes [0x66; 0x48; 0x81; 0x00; 0x78; 0x56; 0x34; 0x12] in
  out_length (decode_x64_reg_op code) = 8 - 2
  /\ forall code',
       (forall i, Z.of_nat i < 6 -> nth i code' x00 = nth i code x00) ->
       decode_x64_reg_op code' = decode_x64_reg_op code.
Proof.
  apply (decode_length_misses_rex_w
           (bytes [0x66; 0x48; 0x81; 0x00; 0x78; 0x56; 0x34; 0x12])).
  vm_compute. discriminate.
Defined.

(** The same stream evaluated: the decoder reports an 8-byte operand with a
    16-bit immediate and length 6; the instruction has 8 bytes, and decoding
    again at offset 6 meets the last two bytes of its immediate. *)
Lemma decode_wide_immediate_sample :
  let code := bytes [0x66; 0x48; 0x81; 0x00; 0x78; 0x56; 0x34; 0x12] in
  decode_x64_reg_op code = mk_decoded X64OP_ADD X64_IMM16 8 6
  /\ insn_length code = 8
  /\ drop 6 code = bytes [0x34; 0x12]
  /\ decode_x64_reg_op (drop 6 code) = unsupported.
Proof. vm_compute. repeat split; reflexivity. Qed.

Lemma nth_take_byte (k i : nat) (l : list byte) :
  (i < k)%nat -> nth i (take k l) x00 = nth i l x00.
Proof.
  revert i l. induction k as [|k IH]; intros i l Hi; [lia|].
  destruct l as [|b l]; [reflexivity|]. destruct i as [|i]; [reflexivity|].
  cbn [take nth]. apply IH. lia.
Qed.

(** The bytes that follow an instruction do not change how it decodes. *)
Lemma decode_next_instruction (code next : list byte) :
  out_op (decode_x64_reg_op code) <> X64OP_NONE ->
  out_length (decode_x64_reg_op code) <= Z.of_nat (length code) ->
  decode_x64_reg_op (take (Z.to_nat (out_length (decode_x64_reg_op code))) code ++ next)
  = decode_x64_reg_op code.
Proof.
  intros Hop Hlen. apply decode_ext; [assumption|].
  intros i Hi. rewrite app_nth1 by (rewrite length_take; lia).
  apply nth_take_byte. lia.
Qed.


(** * Further properties *)

Import FlagBits.

(** ** The flag routine, bit by bit *)

Lemma testbit_flag (b : bool) (m j k : Z) (c : x64_context) :
  m = 2^j -> 0 <= j -> 0 <= k ->
  Z.testbit (EFLAGS (flag b m c)) k = if k =? j then b else Z.testbit (EFLAGS c) k.
Proof.
  intros -> Hj Hk. unfold flag, EFLAGS, set_EFLAGS. cbn [eflags].
  destruct b.
  - rewrite Z.lor_spec, Z.pow2_bits_eqb by lia. rewrite (Z.eqb_sym j k).
    destruct (k =? j); [apply orb_true_r|apply orb_false_r].
  - rewrite Z.land_spec, Z.lnot_spec, Z.pow2_bits_eqb by lia. rewrite (Z.eqb_sym j k).
    destruct (k =? j); [apply andb_false_r|apply andb_true_r].
Qed.

Lemma set_x64_cmp_flags_bits (c c' : x64_context) (d_size x y : Z) (carry : bool) :
  set_x64_cmp_flags c d_size x y carry = Some c' ->
  forall k, 0 <= k ->
    Z.testbit (EFLAGS c') k
    = if k =? AF then negb (Z.land (carry_vector x y) 0x8 =? 0)
      else if k =? PF then parity_fold (u64 (x - y))
      else if k =? OF
           then negb (Z.land (overflow_vector x y) (Z.shiftl 1 (d_size * 8 - 1)) =? 0)
      else if k =? SF then negb (Z.land (u64 (x - y)) (Z.shiftl 1 (d_size * 8 - 1)) =? 0)
      else if k =? ZF then x =? y
      else if k =? CF
           then (if carry
                 then negb (Z.land (carry_vector x y) (Z.shiftl 1 (d_size * 8 - 1)) =? 0)
                 else Z.testbit (EFLAGS c) CF)
      else Z.testbit (EFLAGS c) k.
Proof.
  unfold set_x64_cmp_flags. intros H k Hk.
  assert (E : exists c0,
    Some c' = Some
      (flag (negb (Z.land (carry_vector x y) 0x8 =? 0)) 0x10
        (flag (parity_fold (u64 (x - y))) 0x4
          (flag (negb (Z.land (overflow_vector x y) (Z.shiftl 1 (d_size * 8 - 1)) =? 0)) 0x800
            (flag (negb (Z.land (u64 (x - y)) (Z.shiftl 1 (d_size * 8 - 1)) =? 0)) 0x80
              (flag (x =? y) 0x40 c0)))))
    /\ c0 = if carry
            then flag (negb (Z.land (carry_vector x y) (Z.shiftl 1 (d_size * 8 - 1)) =? 0))
                      0x1 c
            else c).
  { size_cases d_size; try discriminate H; eexists; (split; [rewrite <- H; reflexivity|]);
      reflexivity. }
  destruct E as (c0 & E & ->). injection E as ->.
  rewrite (testbit_flag _ 0x10 4) by (reflexivity || lia).
  rewrite (testbit_flag _ 0x4 2) by (reflexivity || lia).
  rewrite (testbit_flag _ 0x800 11) by (reflexivity || lia).
  rewrite (testbit_flag _ 0x80 7) by (reflexivity || lia).
  rewrite (testbit_flag _ 0x40 6) by (reflexivity || lia).
  unfold AF, PF, OF, SF, ZF, CF.
  assert (E0 : Z.testbit (EFLAGS (if carry
                 then flag (negb (Z.land (carry_vector x y) (Z.shiftl 1 (d_size * 8 - 1)) =? 0))
                           0x1 c
                 else c)) k
               = if k =? 0
                 then (if carry
                       then negb (Z.land (carry_vector x y) (Z.shiftl 1 (d_size * 8 - 1)) =? 0)
                       else Z.testbit (EFLAGS c) 0)
                 else Z.testbit (EFLAGS c) k).
  { destruct carry.
    - apply testbit_flag; [reflexivity|lia|assumption].
    - destruct (Z.eqb_spec k 0) as [->|]; reflexivity. }
  rewrite E0. reflexivity.
Qed.

Lemma land_pow2 (a n : Z) :
  0 <= n -> Z.land a (2^n) = if Z.testbit a n then 2^n else 0.
Proof.
  intros Hn. apply Z.bits_inj'. intros k Hk. rewrite Z.land_spec, Z.pow2_bits_eqb by lia.
  destruct (Z.testbit a n) eqn:Ea.
  - rewrite Z.pow2_bits_eqb by lia. destruct (n =? k) eqn:E; [|apply andb_false_r].
    apply Z.eqb_eq in E. subst k. now rewrite Ea.
  - rewrite Z.bits_0. destruct (n =? k) eqn:E; [|apply andb_false_r].
    apply Z.eqb_eq in E. subst k. now rewrite Ea.
Qed.

Lemma land_pow2_eqb (a n : Z) : 0 <= n -> (Z.land a (2^n) =? 0) = negb (Z.testbit a n).
Proof.
  intros Hn. rewrite land_pow2 by lia. destruct (Z.testbit a n); [|reflexivity].
  apply Z.eqb_neq. apply Z.pow_nonzero; lia.
Qed.

Lemma sign_mask (d_size : Z) :
  is_access_size d_size = true -> Z.shiftl 1 (d_size * 8 - 1) = 2^(8 * d_size - 1).
Proof. intros H. apply is_access_size_cases in H as [->|[->|[->| ->]]]; reflexivity. Qed.

(** The reference flags, bit by bit. *)
Lemma sub_flags_testbit (d_size x y : Z) :
  let w := 8 * d_size in
  let r := (x - y) mod 2^w in
  let s := as_signed w x - as_signed w y in
  Z.testbit (sub_flags d_size x y) CF = (x <? y)
  /\ Z.testbit (sub_flags d_size x y) PF = Z.even (ones r)
  /\ Z.testbit (sub_flags d_size x y) AF = (x mod 16 <? y mod 16)
  /\ Z.testbit (sub_flags d_size x y) ZF = (r =? 0)
  /\ Z.testbit (sub_flags d_size x y) SF = (2^(w - 1) <=? r)
  /\ Z.testbit (sub_flags d_size x y) OF = ((s <? - 2^(w - 1)) || (2^(w - 1) <=? s)).
Proof.
  unfold sub_flags. cbv zeta.
  generalize (x <? y), (Z.even (ones ((x - y) mod 2 ^ (8 * d_size)))), (x mod 16 <? y mod 16),
    ((x - y) mod 2 ^ (8 * d_size) =? 0), (2 ^ (8 * d_size - 1) <=? (x - y) mod 2 ^ (8 * d_size)),
    ((as_signed (8 * d_size) x - as_signed (8 * d_size) y <? - 2 ^ (8 * d_size - 1))
     || (2 ^ (8 * d_size - 1) <=? as_signed (8 * d_size) x - as_signed (8 * d_size) y)).
  intros [] [] [] [] [] []; repeat split; reflexivity.
Qed.

(** A check on every byte value settles a statement about bytes. *)
Lemma below_256 (P : Z -> bool) :
  forallb P (map Z.of_nat (seq 0 256)) = true ->
  forall q, 0 <= q < 256 -> P q = true.
Proof.
  intros H q Hq. rewrite forallb_forall in H. apply H.
  replace q with (Z.of_nat (Z.to_nat q)) by lia. apply in_map, in_seq. lia.
Qed.

Lemma parity_fold_even (q : Z) : 0 <= q < 256 -> parity_fold q = Z.even (ones q).
Proof.
  intros Hq.
  pose proof (below_256 (fun q => Bool.eqb (parity_fold q) (Z.even (ones q)))) as B.
  cbv beta in B. apply Bool.eqb_prop, B; [|exact Hq]. vm_compute. reflexivity.
Qed.

Lemma parity_fold_low_byte (diff : Z) : parity_fold diff = parity_fold (u8 diff).
Proof.
  assert (E : u8 (u8 diff) = u8 diff) by (unfold u8; apply Z.mod_mod; lia).
  unfold parity_fold. now rewrite E.
Qed.

Lemma ones_low_byte (a w : Z) : 8 <= w -> ones (a mod 2^w) = ones (a mod 2^8).
Proof.
  intros Hw. unfold ones. cbn [map fold_right].
  now rewrite !Z.mod_pow2_bits_low by lia.
Qed.

Lemma testbit_top (r w : Z) :
  0 < w -> 0 <= r < 2^w -> Z.testbit r (w - 1) = (2^(w - 1) <=? r).
Proof.
  intros Hw Hr. rewrite Z.testbit_odd, Z.shiftr_div_pow2 by lia.
  assert (Hp : 2^w = 2 * 2^(w - 1)).
  { replace w with (Z.succ (w - 1)) at 1 by lia. apply Z.pow_succ_r. lia. }
  assert (0 < 2^(w - 1)) by (apply Z.pow_pos_nonneg; lia).
  destruct (2^(w - 1) <=? r) eqn:E.
  - apply Z.leb_le in E.
    assert (r / 2^(w - 1) = 1) by (symmetry; apply (Z.div_unique _ _ _ (r - 2^(w - 1))); lia).
    now replace (r / 2^(w - 1)) with 1.
  - apply Z.leb_gt in E. now rewrite Z.div_small by lia.
Qed.

(** ZF, SF and PF of the routine against the reference, for operands of the
    given width. *)
Lemma result_flags_agree (c c' : x64_context) (d_size x y : Z) (carry : bool) :
  is_access_size d_size = true ->
  0 <= x < 2^(8 * d_size) -> 0 <= y < 2^(8 * d_size) ->
  set_x64_cmp_flags c d_size x y carry = Some c' ->
  Z.testbit (EFLAGS c') ZF = Z.testbit (sub_flags d_size x y) ZF
  /\ Z.testbit (EFLAGS c') SF = Z.testbit (sub_flags d_size x y) SF
  /\ Z.testbit (EFLAGS c') PF = Z.testbit (sub_flags d_size x y) PF.
Proof.
  intros Hsz Hx Hy H.
  pose proof (set_x64_cmp_flags_bits _ _ _ _ _ _ H) as B.
  destruct (sub_flags_testbit d_size x y) as (_ & S2 & _ & S6 & S7 & _).
  rewrite S2, S6, S7. rewrite (B ZF), (B SF), (B PF) by (unfold ZF, SF, PF; lia).
  unfold ZF, SF, PF, AF, OF. cbn [Z.eqb Pos.eqb].
  assert (Hw : 8 <= 8 * d_size <= 64) by (apply is_access_size_cases in Hsz; lia).
  assert (Hpos : 0 < 2^(8 * d_size)) by (apply Z.pow_pos_nonneg; lia).
  split; [|split].
  - (* ZF *)
    destruct (Z.eq_dec x y) as [->|Hne].
    + now rewrite Z.eqb_refl, Z.sub_diag, Z.mod_0_l, Z.eqb_refl by lia.
    + replace (x =? y) with false by (symmetry; now apply Z.eqb_neq).
      symmetry. apply Z.eqb_neq.
      destruct (Z_lt_le_dec x y).
      * replace (x - y) with (x - y + 2^(8 * d_size) + (-1) * 2^(8 * d_size)) by lia.
        rewrite Z.mod_add, Z.mod_small by lia. lia.
      * rewrite Z.mod_small by lia. lia.
  - (* SF *)
    rewrite sign_mask, land_pow2_eqb, negb_involutive by (assumption || lia).
    unfold u64. rewrite Z.mod_pow2_bits_low by lia.
    rewrite <- (testbit_top ((x - y) mod 2^(8 * d_size))) by (try apply Z.mod_pos_bound; lia).
    now rewrite Z.mod_pow2_bits_low by lia.
  - (* PF *)
    rewrite parity_fold_low_byte, ones_low_byte by lia.
    assert (E : u8 (u64 (x - y)) = (x - y) mod 2^8).
    { unfold u8, u64. apply Z.mod_mod_divide. exists (2^56). reflexivity. }
    rewrite E. apply parity_fold_even. apply Z.mod_pos_bound. lia.
Qed.

(** X1. The flag routine writes CF, PF, AF, ZF, SF and OF and nothing else:
    every other bit of EFLAGS (the direction flag among them, which the block
    operations test), every general register and every vector register keeps
    its value; without [carry], CF is kept as well. *)
Theorem set_x64_cmp_flags_touches_status_only
    (c c' : x64_context) (d_size x y : Z) (carry : bool) :
  set_x64_cmp_flags c d_size x y carry = Some c' ->
  (forall k, 0 <= k -> is_status_bit k = false ->
     Z.testbit (EFLAGS c') k = Z.testbit (EFLAGS c) k)
  /\ Z.land (EFLAGS c') 0x400 = Z.land (EFLAGS c) 0x400
  /\ (carry = false -> Z.testbit (EFLAGS c') CF = Z.testbit (EFLAGS c) CF)
  /\ gregs c' = gregs c /\ xmm c' = xmm c.
Proof.
  intros H. pose proof (set_x64_cmp_flags_bits _ _ _ _ _ _ H) as B.
  assert (Hk : forall k, 0 <= k -> is_status_bit k = false ->
                 Z.testbit (EFLAGS c') k = Z.testbit (EFLAGS c) k).
  { intros k Hk Hs. rewrite B by assumption. unfold is_status_bit in Hs.
    rewrite !orb_false_iff in Hs. destruct Hs as (((((H0 & H2) & H4) & H6) & H7) & H11).
    now rewrite H4, H2, H11, H7, H6, H0. }
  split; [exact Hk|]. split; [|split].
  - change 0x400 with (2^10). rewrite !land_pow2 by lia. rewrite Hk; [reflexivity|lia|reflexivity].
  - intros ->. rewrite B by (unfold CF; lia). reflexivity.
  - apply (set_x64_cmp_flags_frame _ _ _ _ _ _ H).
Qed.

Lemma set_x64_cmp_flags_touches_status_only_witness :
  exists c',
    set_x64_cmp_flags (set_EFLAGS zero_context 0x602) 4 5 9 false = Some c'
    /\ Z.land (EFLAGS c') 0x400 = 0x400
    /\ Z.testbit (EFLAGS c') 9 = true.
Proof.
  eexists. split; [reflexivity|].
  destruct (set_x64_cmp_flags_touches_status_only (set_EFLAGS zero_context 0x602)
              _ 4 5 9 false eq_refl) as (Hk & Hd & _).
  split; [exact Hd|]. now rewrite Hk.
Defined.

(** X2. For operands that fit the width, the routine's ZF, SF and PF are
    those of the processor's subtraction [x - y]. *)
Theorem set_x64_cmp_flags_result_bits
    (c c' : x64_context) (d_size x y : Z) (carry : bool) :
  is_access_size d_size = true ->
  0 <= x < 2^(8 * d_size) -> 0 <= y < 2^(8 * d_size) ->
  set_x64_cmp_flags c d_size x y carry = Some c' ->
  Z.testbit (EFLAGS c') ZF = Z.testbit (sub_flags d_size x y) ZF
  /\ Z.testbit (EFLAGS c') SF = Z.testbit (sub_flags d_size x y) SF
  /\ Z.testbit (EFLAGS c') PF = Z.testbit (sub_flags d_size x y) PF.
Proof. apply result_flags_agree. Qed.

Lemma set_x64_cmp_flags_result_bits_witness :
  exists c',
    set_x64_cmp_flags zero_context 2 0x1234 0x8001 true = Some c'
    /\ Z.testbit (EFLAGS c') ZF = Z.testbit (sub_flags 2 0x1234 0x8001) ZF
    /\ Z.testbit (EFLAGS c') SF = Z.testbit (sub_flags 2 0x1234 0x8001) SF
    /\ Z.testbit (EFLAGS c') PF = Z.testbit (sub_flags 2 0x1234 0x8001) PF.
Proof.
  eexists. split; [reflexivity|].
  apply (set_x64_cmp_flags_result_bits zero_context _ 2 0x1234 0x8001 true);
    [reflexivity|lia|lia|reflexivity].
Defined.

Lemma flags_against_zero
    (c c' : x64_context) (d_size x : Z) :
  is_access_size d_size = true ->
  0 <= x < 2^(8 * d_size) ->
  set_x64_cmp_flags c d_size x 0 true = Some c' ->
  forall k, is_status_bit k = true ->
    Z.testbit (EFLAGS c') k = Z.testbit (sub_flags d_size x 0) k.
Proof.
  intros Hsz Hx H k Hk.
  assert (Hw : 8 <= 8 * d_size <= 64) by (apply is_access_size_cases in Hsz; lia).
  assert (Hp : 0 < 2^(8 * d_size - 1)) by (apply Z.pow_pos_nonneg; lia).
  assert (Hpw : 2^(8 * d_size) = 2 * 2^(8 * d_size - 1)).
  { replace (8 * d_size) with (Z.succ (8 * d_size - 1)) at 1 by lia. apply Z.pow_succ_r. lia. }
  assert (H64 : 2^(8 * d_size) <= 2^64) by (apply Z.pow_le_mono_r; lia).
  destruct (result_flags_agree c c' d_size x 0 true Hsz Hx ltac:(lia) H) as (A6 & A7 & A2).
  pose proof (set_x64_cmp_flags_bits _ _ _ _ _ _ H) as B.
  destruct (sub_flags_testbit d_size x 0) as (S0 & _ & S4 & _ & _ & S11).
  assert (Ev : carry_vector x 0 = 0).
  { unfold carry_vector. rewrite Z.land_0_r, Z.lxor_0_r, Z.add_0_r. unfold u64.
    rewrite Z.mod_small by lia. now rewrite Z.land_lnot_diag. }
  assert (Eo : overflow_vector x 0 = 0).
  { unfold overflow_vector. rewrite Z.add_0_r. unfold u64. rewrite Z.mod_small by lia.
    now rewrite Z.lxor_nilpotent. }
  unfold is_status_bit in Hk.
  repeat (apply orb_true_iff in Hk as [Hk|Hk]); apply Z.eqb_eq in Hk; subst k;
    try assumption.
  - (* CF *) rewrite S0, (B CF) by (unfold CF; lia). unfold CF, AF, PF, OF, SF, ZF.
    cbn [Z.eqb Pos.eqb]. rewrite Ev. cbn [Z.land]. symmetry. apply Z.ltb_ge. lia.
  - (* AF *) rewrite S4, (B AF) by (unfold AF; lia). unfold AF. cbn [Z.eqb Pos.eqb].
    rewrite Ev. cbn [Z.land]. symmetry. apply Z.ltb_ge.
    change (0 mod 16) with 0. apply Z.mod_pos_bound. lia.
  - (* OF *) rewrite S11, (B OF) by (unfold OF; lia). unfold CF, AF, PF, OF, SF, ZF.
    cbn [Z.eqb Pos.eqb]. rewrite Eo. cbn [Z.land]. symmetry.
    unfold as_signed. replace (0 <? 2^(8 * d_size - 1)) with true
      by (symmetry; apply Z.ltb_lt; lia).
    apply orb_false_iff. rewrite Z.ltb_ge, Z.leb_gt.
    destruct (x <? 2^(8 * d_size - 1)) eqn:E;
      [apply Z.ltb_lt in E|apply Z.ltb_ge in E]; lia.
Qed.

(** X3. A comparison against zero is exact: with [y = 0] all six status
    flags are those of the processor (CF, AF and OF clear, ZF, SF and PF from
    [x]).  This is the call the bitwise AND, OR and XOR cases make. *)
Theorem set_x64_cmp_flags_against_zero
    (c c' : x64_context) (d_size x : Z) :
  is_access_size d_size = true ->
  0 <= x < 2^(8 * d_size) ->
  set_x64_cmp_flags c d_size x 0 true = Some c' ->
  forall k, is_status_bit k = true ->
    Z.testbit (EFLAGS c') k = Z.testbit (sub_flags d_size x 0) k.
Proof. apply flags_against_zero. Qed.

Lemma set_x64_cmp_flags_against_zero_witness :
  exists c',
    set_x64_cmp_flags (set_EFLAGS zero_context 0x8d5) 1 0x80 0 true = Some c'
    /\ forall k, is_status_bit k = true ->
         Z.testbit (EFLAGS c') k = Z.testbit (sub_flags 1 0x80 0) k.
Proof.
  eexists. split; [reflexivity|].
  apply (set_x64_cmp_flags_against_zero (set_EFLAGS zero_context 0x8d5) _ 1 0x80);
    [reflexivity|lia|reflexivity].
Defined.

(** ** Register access *)

Import Conditions.

Lemma land_ones_mod (a n : Z) : 0 <= n -> Z.land a (2^n - 1) = a mod 2^n.
Proof.
  intros Hn. replace (2^n - 1) with (Z.ones n) by (rewrite Z.ones_equiv; lia).
  now apply Z.land_ones.
Qed.

(** A partial write keeps the low bytes of the value written. *)
Lemma low_bytes_written (value old keep n : Z) :
  0 <= n -> keep mod 2^n = 0 ->
  (Z.lor (Z.land value (2^n - 1)) (Z.land old keep)) mod 2^n = value mod 2^n.
Proof.
  intros Hn Hk. apply Z.bits_inj'. intros k Hk0.
  destruct (Z_lt_le_dec k n).
  - rewrite !Z.mod_pow2_bits_low by lia.
    rewrite Z.lor_spec, !Z.land_spec.
    assert (Ek : Z.testbit keep k = false).
    { rewrite <- (Z.mod_pow2_bits_low keep n k) by lia. rewrite Hk. apply Z.bits_0. }
    rewrite Ek, andb_false_r, orb_false_r.
    replace (2^n - 1) with (Z.ones n) by (rewrite Z.ones_equiv; lia).
    rewrite Z.ones_spec_low by lia. apply andb_true_r.
  - now rewrite !Z.mod_pow2_bits_high by lia.
Qed.

Lemma general_register_test (reg : Z) :
  0 <= reg < 16 -> (u32 (reg - X64R_RAX) <? 16) = true.
Proof.
  intros H. unfold X64R_RAX, u32. rewrite Z.sub_0_r, Z.mod_small by lia.
  apply Z.ltb_lt. lia.
Qed.

Lemma get_general_register (code : list byte) (c : x64_context) (reg d_size i_size : Z) :
  0 <= reg < 16 ->
  get_x64_reg_value code c reg d_size i_size
  = match d_size with
    | 1 => Some (u8 (X64REG c reg))
    | 2 => Some (u16 (X64REG c reg))
    | 4 => Some (u32 (X64REG c reg))
    | 8 => Some (X64REG c reg)
    | _ => None
    end.
Proof.
  intros H. unfold get_x64_reg_value. rewrite general_register_test by assumption.
  unfold X64R_RAX. now rewrite Z.sub_0_r.
Qed.

Lemma put_low_bytes (c c' : x64_context) (reg d_size value : Z) :
  well_formed c -> 0 <= reg < 16 ->
  put_x64_reg_value c reg d_size value = Some c' ->
  trunc d_size (X64REG c' reg) = trunc d_size value
  /\ (forall r, 0 <= r -> r <> reg -> X64REG c' r = X64REG c r)
  /\ EFLAGS c' = EFLAGS c /\ xmm c' = xmm c /\ well_formed c'.
Proof.
  intros Hw Hr H.
  assert (F : (forall r, 0 <= r -> r <> reg -> X64REG c' r = X64REG c r)
              /\ EFLAGS c' = EFLAGS c /\ xmm c' = xmm c).
  { split; [|split].
    - intros r Hr0 Hne. now apply (put_x64_reg_value_frame c c' reg d_size value r H).
    - apply (put_x64_reg_value_frame c c' reg d_size value (reg + 1) H); lia.
    - apply (put_x64_reg_value_frame c c' reg d_size value (reg + 1) H); lia. }
  destruct F as (F1 & F2 & F3). repeat split; try assumption.
  - revert H. unfold put_x64_reg_value. rewrite general_register_test by assumption.
    unfold X64R_RAX. rewrite Z.sub_0_r. destruct Hw as [Hg _].
    assert (Hn : (Z.to_nat reg < length (gregs c))%nat) by lia.
    intros H. unfold trunc. size_cases d_size; try discriminate H; injection H as <-;
      rewrite X64REG_set_same by assumption.
    + apply (low_bytes_written value _ 0xffffff00 8); [lia|reflexivity].
    + apply (low_bytes_written value _ 0xffff0000 16); [lia|reflexivity].
    + change 0xffffffff with (2^32 - 1). rewrite land_ones_mod by lia.
      change (2^(8 * 4)) with (2^32). apply Z.mod_mod. lia.
    + reflexivity.
  - revert H. unfold put_x64_reg_value. destruct (_ <? 16); [|discriminate].
    intros H. size_cases d_size; try discriminate H; injection H as <-;
      now apply set_X64REG_well_formed.
  - revert H. unfold put_x64_reg_value. destruct (_ <? 16); [|discriminate].
    intros H. size_cases d_size; try discriminate H; injection H as <-;
      now apply set_X64REG_well_formed.
Qed.

(** X4. What [put_x64_reg_value] writes into a general register,
    [get_x64_reg_value] reads back at the same width: the value, truncated
    to [d_size] bytes. *)
Theorem put_get_round_trip
    (code : list byte) (c c' : x64_context) (reg d_size i_size value : Z) :
  well_formed c -> 0 <= reg < 16 -> 0 <= value < 2^64 ->
  put_x64_reg_value c reg d_size value = Some c' ->
  get_x64_reg_value code c' reg d_size i_size = Some (value mod 2^(8 * d_size)).
Proof.
  intros [Hg _] Hr Hv. rewrite get_general_register by assumption.
  unfold put_x64_reg_value. rewrite general_register_test by assumption.
  unfold X64R_RAX. rewrite Z.sub_0_r.
  assert (Hn : (Z.to_nat reg < length (gregs c))%nat) by lia.
  intros H. size_cases d_size; try discriminate H; injection H as <-;
    rewrite X64REG_set_same by assumption; f_equal.
  - unfold u8. apply (low_bytes_written value _ 0xffffff00 8); [lia|reflexivity].
  - unfold u16. apply (low_bytes_written value _ 0xffff0000 16); [lia|reflexivity].
  - unfold u32. change 0xffffffff with (2^32 - 1). rewrite land_ones_mod by lia.
    change (2^(8 * 4)) with (2^32). apply Z.mod_mod. lia.
  - change (2^(8 * 8)) with (2^64). symmetry. apply Z.mod_small. lia.
Qed.

Lemma put_get_round_trip_witness :
  exists c',
    put_x64_reg_value (with_regs [(3, 0x1122334455667788)] zero_context) 3 2 0xabcdef = Some c'
    /\ get_x64_reg_value [] c' 3 2 0 = Some 0xcdef.
Proof.
  eexists. split; [reflexivity|].
  apply (put_get_round_trip [] (with_regs [(3, 0x1122334455667788)] zero_context) _ 3 2 0
           0xabcdef); [split; reflexivity|lia|lia|reflexivity].
Defined.

Lemma land_u32_flag (e m k : Z) :
  m = 2^k -> 0 <= k < 32 -> Z.land (u32 e) m = if Z.testbit e k then m else 0.
Proof.
  intros -> Hk. rewrite land_pow2 by lia. unfold u32.
  now rewrite Z.mod_pow2_bits_low by lia.
Qed.

(** X5. The pseudo-registers [X64_BIT_O] .. [X64_BIT_NLE] read as the
    processor's condition codes: 1 when the condition holds in EFLAGS and 0
    otherwise, whatever the operand size.  In particular [(_sf << 4) ^ _of]
    is the signed less-than, SF <> OF. *)
Theorem condition_codes_read_as_conditions
    (code : list byte) (c : x64_context) (reg d_size i_size : Z) :
  X64_BIT_O <= reg <= X64_BIT_NLE ->
  get_x64_reg_value code c reg d_size i_size
  = Some (Z.b2z (condition (reg - X64_BIT_O) (EFLAGS c))).
Proof.
  unfold X64_BIT_O, X64_BIT_NLE. intros Hr.
  assert (Hc : In reg (map Z.of_nat (seq 0x90 16))).
  { apply in_map_iff. exists (Z.to_nat reg). split; [lia|]. apply in_seq. lia. }
  unfold get_x64_reg_value.
  rewrite (land_u32_flag _ 0x1 0), (land_u32_flag _ 0x40 6), (land_u32_flag _ 0x80 7),
    (land_u32_flag _ 0x800 11), (land_u32_flag _ 0x4 2) by (reflexivity || lia).
  unfold condition.
  cbn [map seq In Nat.add] in Hc.
  repeat (destruct Hc as [<-|Hc]; [
    destruct (Z.testbit (EFLAGS c) 0), (Z.testbit (EFLAGS c) 2), (Z.testbit (EFLAGS c) 6),
      (Z.testbit (EFLAGS c) 7), (Z.testbit (EFLAGS c) 11); vm_compute; reflexivity |]).
  contradiction.
Qed.

Lemma condition_codes_read_as_conditions_witness :
  get_x64_reg_value [] (set_EFLAGS zero_context 0x80) X64_BIT_L 1 0 = Some 1.
Proof.
  apply (condition_codes_read_as_conditions [] (set_EFLAGS zero_context 0x80) X64_BIT_L 1 0).
  unfold X64_BIT_O, X64_BIT_L, X64_BIT_NLE. lia.
Defined.

(** *** Immediates *)

Lemma pow2_double (w : Z) : 0 < w -> 2^w = 2 * 2^(w - 1).
Proof. intros H. replace w with (Z.succ (w - 1)) at 1 by lia. apply Z.pow_succ_r. lia. Qed.

Lemma as_signed_mod (w s : Z) :
  0 < w -> - 2^(w - 1) <= s < 2^(w - 1) -> as_signed w (s mod 2^w) = s.
Proof.
  intros Hw Hs. pose proof (pow2_double w Hw) as Hp.
  assert (0 < 2^(w - 1)) by (apply Z.pow_pos_nonneg; lia).
  unfold as_signed. destruct (Z_lt_le_dec s 0).
  - replace (s mod 2^w) with (s + 2^w).
    + destruct (s + 2^w <? 2^(w - 1)) eqn:E; [apply Z.ltb_lt in E|]; lia.
    + replace s with (s + 2^w + (-1) * 2^w) at 2 by lia.
      rewrite Z.mod_add, Z.mod_small by lia. reflexivity.
  - rewrite Z.mod_small by lia.
    destruct (s <? 2^(w - 1)) eqn:E; [reflexivity|apply Z.ltb_ge in E; lia].
Qed.

Lemma signed_range (w v : Z) :
  0 < w -> 0 <= v < 2^w -> - 2^(w - 1) <= signed w v < 2^(w - 1).
Proof.
  intros Hw Hv. pose proof (pow2_double w Hw) as Hp. unfold signed.
  destruct (v <? 2^(w - 1)) eqn:E; [apply Z.ltb_lt in E|apply Z.ltb_ge in E]; lia.
Qed.

Lemma rip_byte_range (code : list byte) (off : Z) : 0 <= rip_byte code off < 256.
Proof.
  unfold rip_byte, rd. destruct (off <? 0); [lia|apply byte_val_range].
Qed.

Lemma rip_s8_range (code : list byte) (off : Z) : - 2^7 <= rip_s8 code off < 2^7.
Proof. apply (signed_range 8); [lia|apply rip_byte_range]. Qed.

Lemma rip_s16_range (code : list byte) (off : Z) : - 2^15 <= rip_s16 code off < 2^15.
Proof.
  apply (signed_range 16); [lia|].
  pose proof (rip_byte_range code off). pose proof (rip_byte_range code (off + 1)). lia.
Qed.

Lemma rip_s32_range (code : list byte) (off : Z) : - 2^31 <= rip_s32 code off < 2^31.
Proof.
  apply (signed_range 32); [lia|].
  pose proof (rip_byte_range code off). pose proof (rip_byte_range code (off + 1)).
  pose proof (rip_byte_range code (off + 2)). pose proof (rip_byte_range code (off + 3)). lia.
Qed.

Lemma match_word {A : Type} (d : Z) (a dflt : A) :
  d <> 2 -> match d with 2 => a | _ => dflt end = dflt.
Proof.
  intros H. destruct d as [|p|p]; auto.
  do 2 (try (destruct p as [p|p|]; auto; try congruence)).
Qed.

Lemma match_dword_qword {A : Type} (d : Z) (a4 a8 dflt : A) :
  d <> 4 -> d <> 8 -> match d with 4 => a4 | 8 => a8 | _ => dflt end = dflt.
Proof.
  intros H4 H8. destruct d as [|p|p]; auto.
  do 4 (try (destruct p as [p|p|]; auto; try congruence)).
Qed.

(** X6. An immediate operand is sign-extended to the operand size: as a
    signed number of [d_size] bytes, the value read is the signed immediate
    at the end of the instruction, for every combination the routine accepts
    (so [83 /0 ib] on a quadword adds a byte in -128..127). *)
Theorem immediates_are_sign_extended
    (code : list byte) (c : x64_context) (reg d_size i_size v : Z) :
  get_x64_reg_value code c reg d_size i_size = Some v ->
  (reg = X64_IMM8 -> as_signed (8 * d_size) v = rip_s8 code (i_size - 1))
  /\ (reg = X64_IMM16 -> as_signed (8 * d_size) v = rip_s16 code (i_size - 2))
  /\ (reg = X64_IMM32 -> as_signed (8 * d_size) v = rip_s32 code (i_size - 4)).
Proof.
  intros H. pose proof (rip_s8_range code (i_size - 1)) as R8.
  pose proof (rip_s16_range code (i_size - 2)) as R16.
  pose proof (rip_s32_range code (i_size - 4)) as R32.
  repeat split; intros ->; unfold get_x64_reg_value in H;
    match type of H with
    | context [if ?b then _ else _] => change b with false in H; cbv iota in H
    end;
    repeat match type of H with
    | (if ?b then _ else _) = _ =>
      first [change b with false in H | change b with true in H]; cbv iota in H
    end;
    size_cases d_size; try rewrite match_word in H by assumption;
    try rewrite match_dword_qword in H by assumption;
    try discriminate H; injection H as <-;
    unfold u8, u16, u32, u64;
    (apply (as_signed_mod (8 * 1)) || apply (as_signed_mod (8 * 2))
     || apply (as_signed_mod (8 * 4)) || apply (as_signed_mod (8 * 8)));
    cbn; lia.
Qed.

Lemma immediates_are_sign_extended_witness :
  get_x64_reg_value (bytes [0x48; 0x83; 0x00; 0xfe]) zero_context X64_IMM8 8 4
    = Some 0xfffffffffffffffe
  /\ as_signed 64 0xfffffffffffffffe = -2.
Proof.
  split; [reflexivity|].
  exact (proj1 (immediates_are_sign_extended (bytes [0x48; 0x83; 0x00; 0xfe]) zero_context
                  X64_IMM8 8 4 0xfffffffffffffffe eq_refl) eq_refl).
Defined.

(** *** The legacy byte registers *)

Lemma byte_register_access
    (code : list byte) (c : x64_context) (reg i_size value : Z) :
  X64R_AL <= reg <= X64R_BH ->
  get_x64_reg_value code c reg 1 i_size
  = Some (if reg <? X64R_AH then X64REG c (reg - X64R_AL) mod 2^8
          else (X64REG c (reg - X64R_AH) / 2^8) mod 2^8)
  /\ put_x64_reg_value c reg 1 value = None.
Proof.
  unfold X64R_AL, X64R_BH. intros Hr.
  assert (Hc : In reg (map Z.of_nat (seq 16 8))).
  { apply in_map_iff. exists (Z.to_nat reg). split; [lia|]. apply in_seq. lia. }
  cbn [map seq In Nat.add] in Hc.
  repeat (destruct Hc as [<-|Hc]; [
    split; [|reflexivity];
    unfold get_x64_reg_value;
    repeat match goal with
    | |- (if ?b then _ else _) = _ =>
      first [change b with false | change b with true]; cbv iota
    end;
    unfold u8; rewrite ?Z.shiftr_div_pow2 by lia; reflexivity |]).
  contradiction.
Qed.

(** X7. The byte registers AL, CL, DL, BL, AH, CH, DH and BH can be read
    (bits 0..7 of the register, or bits 8..15 for the high ones) but are
    never written: [put_x64_reg_value] refuses them. *)
Theorem byte_registers_are_read_only
    (code : list byte) (c : x64_context) (reg i_size value : Z) :
  X64R_AL <= reg <= X64R_BH ->
  get_x64_reg_value code c reg 1 i_size
  = Some (if reg <? X64R_AH then X64REG c (reg - X64R_AL) mod 2^8
          else (X64REG c (reg - X64R_AH) / 2^8) mod 2^8)
  /\ put_x64_reg_value c reg 1 value = None.
Proof. apply byte_register_access. Qed.

Lemma byte_registers_are_read_only_witness :
  get_x64_reg_value [] (with_regs [(3, 0x1234)] zero_context) X64R_BH 1 0 = Some 0x12
  /\ put_x64_reg_value (with_regs [(3, 0x1234)] zero_context) X64R_BH 1 0xff = None.
Proof.
  apply (byte_registers_are_read_only [] (with_regs [(3, 0x1234)] zero_context) X64R_BH 0 0xff).
  unfold X64R_AL, X64R_BH. lia.
Defined.

(** ** Host memory *)

Import MemoryProps.

Lemma mem_insert_same (m : memory) (p v : Z) : <[p := v]> m !! p = Some v.
Proof. apply lookup_insert_eq. Qed.

Lemma mem_insert_other (m : memory) (p q v : Z) : p <> q -> <[p := v]> m !! q = m !! q.
Proof. apply lookup_insert_ne. Qed.

Lemma store_other (m : memory) (p : Z) (n : nat) (v q : Z) :
  q < p \/ p + Z.of_nat n <= q -> store m p n v !! q = m !! q.
Proof.
  revert m p v. induction n as [|n IH]; intros m p v Hq; cbn [store]; [reflexivity|].
  rewrite IH by lia. apply lookup_insert_ne. lia.
Qed.

Lemma load_ext (m m' : memory) (p : Z) (n : nat) :
  (forall q, p <= q < p + Z.of_nat n -> m !! q = m' !! q) -> load m p n = load m' p n.
Proof.
  revert p. induction n as [|n IH]; intros p H; cbn [load]; [reflexivity|].
  rewrite (H p) by lia. rewrite (IH (p + 1)); [reflexivity|]. intros q Hq. apply H. lia.
Qed.

Lemma pow2_8_succ (n : nat) : 2^(8 * Z.of_nat (S n)) = 2^8 * 2^(8 * Z.of_nat n).
Proof. rewrite <- Z.pow_add_r by lia. f_equal. lia. Qed.

(** A value stored is the value loaded, truncated to the width. *)
Lemma load_store (m : memory) (p : Z) (n : nat) (v : Z) :
  load (store m p n v) p n = v mod 2^(8 * Z.of_nat n).
Proof.
  revert m p v. induction n as [|n IH]; intros m p v.
  - cbn [load store]. change (2^(8 * Z.of_nat 0)) with 1. now rewrite Z.mod_1_r.
  - cbn [load store]. rewrite IH, store_other by lia.
    rewrite mem_insert_same. cbn [default]. rewrite pow2_8_succ.
    rewrite Z.rem_mul_r; [reflexivity|lia|].
    apply Z.pow_pos_nonneg; lia.
Qed.

Lemma store_byte_memory (m : memory) (p : Z) (n : nat) (v : Z) :
  byte_memory m -> byte_memory (store m p n v).
Proof.
  revert m p v. induction n as [|n IH]; intros m p v Hm; cbn [store]; [exact Hm|].
  apply IH. intros q w. destruct (Z.eq_dec p q) as [->|Hne].
  - rewrite mem_insert_same. intros [= <-]. apply Z.mod_pos_bound. lia.
  - rewrite mem_insert_other by assumption. apply Hm.
Qed.

Lemma load_range (m : memory) (p : Z) (n : nat) :
  byte_memory m -> 0 <= load m p n < 2^(8 * Z.of_nat n).
Proof.
  intros Hm. revert p. induction n as [|n IH]; intros p; cbn [load].
  - change (2^(8 * Z.of_nat 0)) with 1. lia.
  - rewrite pow2_8_succ. specialize (IH (p + 1)).
    assert (0 <= default 0 (m !! p) < 256).
    { destruct (m !! p) as [w|] eqn:E; cbn [default]; [apply (Hm p w E)|lia]. }
    change (2^8) with 256. lia.
Qed.

(** ** Byte swapping *)

Lemma swap_range (n : nat) (v : Z) : 0 <= swap n v < 2^(8 * Z.of_nat n).
Proof.
  revert v. induction n as [|n IH]; intros v; cbn [swap].
  - change (2^(8 * Z.of_nat 0)) with 1. lia.
  - specialize (IH (v / 2^8)).
    assert (Hp : 2^(8 * Z.of_nat (S n)) = 2^(8 * Z.of_nat n) * 2^8).
    { rewrite <- Z.pow_add_r by lia. f_equal. lia. }
    pose proof (Z.mod_pos_bound v (2^8) ltac:(lia)).
    assert (0 < 2^(8 * Z.of_nat n)) by (apply Z.pow_pos_nonneg; lia).
    rewrite Hp. nia.
Qed.

Lemma swap_mod (n : nat) (v : Z) : swap n (v mod 2^(8 * Z.of_nat n)) = swap n v.
Proof.
  revert v. induction n as [|n IH]; intros v; cbn [swap]; [reflexivity|].
  rewrite pow2_8_succ.
  assert (0 < 2^(8 * Z.of_nat n)) by (apply Z.pow_pos_nonneg; lia).
  rewrite Z.rem_mul_r by lia.
  replace ((v mod 2^8 + 2^8 * ((v / 2^8) mod 2^(8 * Z.of_nat n))) mod 2^8) with (v mod 2^8).
  - replace ((v mod 2^8 + 2^8 * ((v / 2^8) mod 2^(8 * Z.of_nat n))) / 2^8)
      with ((v / 2^8) mod 2^(8 * Z.of_nat n)); [now rewrite IH|].
    rewrite (Z.mul_comm (2^8)), Z.div_add by lia.
    rewrite (Z.div_small (v mod 2^8)) by (apply Z.mod_pos_bound; lia). reflexivity.
  - rewrite (Z.mul_comm (2^8)), Z.mod_add by lia. symmetry. apply Z.mod_mod. lia.
Qed.

(** ** The path through the reservation query *)

Section RamPath.

Variables BASE OFFSET PROB : Z.
Variables vm_base vm_base_priv : Z -> Z.
Variable hook : option (Z -> bool -> bool).
Variable raw_spu_thread : Z -> bool.
Variable read_reg : Z -> Z -> option Z.
Variable write_reg : Z -> Z -> Z -> bool.

Local Notation "'hav'" :=
  (handle_access_violation BASE OFFSET PROB vm_base vm_base_priv hook
     raw_spu_thread read_reg write_reg).
Local Notation "'access'" := (privileged_access vm_base vm_base_priv).

(** Past the hook, the range tests and the RawSPU test, the handler is the
    privileged access under the reservation query. *)
Lemma hav_ram_path (code : list byte) (addr : Z) (is_writing : bool) (s : state) :
  let d := decode_x64_reg_op code in
  let a_size := get_x64_access_size code (ctx s) (out_op d) (out_reg d) (out_size d)
                                    (out_length d) in
  hook_claims hook addr is_writing = false ->
  out_of_range (out_size d) addr = false ->
  out_of_range a_size addr = false ->
  is_raw_spu_mmio BASE OFFSET PROB addr = false ->
  hav code addr is_writing s
  = finish (out_length d)
      (access code addr (out_op d) (out_reg d) (out_size d) (out_length d)
         (emit (EvReservationQuery addr (u32 a_size) is_writing) s)).
Proof.
  intros d a_size Hh H1 H2 Hm. unfold handle_access_violation. rewrite Hh. cbv zeta.
  fold d. rewrite H1. fold a_size. rewrite H2, Hm. reflexivity.
Qed.

(** X8. The callback of the reservation query has cases for stores, block
    operations, exchanges and read-modify-write arithmetic only: a fault of
    any other instruction (a load, a compare, a test, an undecodable one)
    outside the RawSPU windows is reported unhandled, with the registers,
    the flags and the memory as they were. *)
Theorem unserviced_operations_are_unhandled
    (code : list byte) (addr : Z) (is_writing : bool) (s : state) :
  hook_claims hook addr is_writing = false ->
  is_raw_spu_mmio BASE OFFSET PROB addr = false ->
  ram_serviced (out_op (decode_x64_reg_op code)) = false ->
  exists s', hav code addr is_writing s = Some (false, s')
             /\ ctx s' = ctx s /\ mem s' = mem s.
Proof.
  intros Hh Hm Hop. unfold handle_access_violation. rewrite Hh. cbv zeta.
  destruct (out_of_range _ addr); [now exists s|].
  destruct (out_of_range _ addr); [now exists s|].
  rewrite Hm. unfold ram_access, reservation_query, privileged_access.
  destruct (_ || _); [eexists; split; [reflexivity|split; reflexivity]|].
  destruct (out_op (decode_x64_reg_op code)); try discriminate Hop;
    eexists; (split; [reflexivity|split; reflexivity]).
Qed.

End RamPath.

Lemma unserviced_operations_are_unhandled_witness :
  exists s', handle (bytes [0x8b; 0x18]) 0x3000 false xchg_start = Some (false, s')
             /\ ctx s' = ctx xchg_start /\ mem s' = mem xchg_start.
Proof.
  apply (unserviced_operations_are_unhandled RAW_SPU_BASE_ADDR RAW_SPU_OFFSET
           RAW_SPU_PROB_OFFSET vm_base vm_base_priv no_hook no_thread no_read no_write
           (bytes [0x8b; 0x18]) 0x3000 false xchg_start); reflexivity.
Defined.

(** A decoded instruction has at least its opcode byte. *)
Lemma decode_length_pos (code : list byte) :
  out_op (decode_x64_reg_op code) <> X64OP_NONE -> 1 <= out_length (decode_x64_reg_op code).
Proof.
  intros H. rewrite (decode_length_formula code H). unfold counted_length. cbv zeta.
  assert (1 <= Z.of_nat (opcode_bytes (body code))).
  { unfold opcode_bytes. destruct (nth 0 (body code) x00); try lia.
    destruct (nth 1 (body code) x00); lia. }
  assert (0 <= counted_imm (nth 0 (body code) x00) (has x66 (prefix_run code))).
  { unfold counted_imm. destruct (nth 0 (body code) x00); try lia;
      destruct (has x66 (prefix_run code)); lia. }
  destruct (has_modRM _); [|lia].
  pose proof (modRM_rule_pos (nth (opcode_bytes (body code)) (body code) x00)). lia.
Qed.

Lemma is_access_size_range (d : Z) : is_access_size d = true -> 1 <= d <= 8.
Proof. intros H. apply is_access_size_cases in H. lia. Qed.

Lemma in_range (size addr : Z) :
  0 <= addr -> 0 <= size -> addr + size < 2^32 -> out_of_range size addr = false.
Proof.
  intros Ha Hs Hr. destruct (out_of_range size addr) eqn:E; [|reflexivity].
  apply out_of_range_spec in E; lia.
Qed.

Section RamStores.

Variables BASE OFFSET PROB : Z.
Variables vm_base vm_base_priv : Z -> Z.
Variable hook : option (Z -> bool -> bool).
Variable raw_spu_thread : Z -> bool.
Variable read_reg : Z -> Z -> option Z.
Variable write_reg : Z -> Z -> Z -> bool.

Local Notation "'hav'" :=
  (handle_access_violation BASE OFFSET PROB vm_base vm_base_priv hook
     raw_spu_thread read_reg write_reg).

(** X9. A store of 1, 2, 4 or 8 bytes that faults on guarded memory is
    completed through the privileged view: afterwards the [d_size] bytes at
    the address hold the operand (byte-swapped for MOVBE), no other byte of
    memory has changed, RIP points past the instruction and nothing else in
    the context has changed; the reservation was queried once, for [d_size]
    bytes. *)
Theorem ram_store_writes_operand
    (code : list byte) (addr : Z) (is_writing : bool) (s : state) (v : Z) :
  let d := decode_x64_reg_op code in
  hook_claims hook addr is_writing = false ->
  is_raw_spu_mmio BASE OFFSET PROB addr = false ->
  out_op d = X64OP_STORE \/ (out_op d = X64OP_STORE_BE /\ out_size d <> 1) ->
  is_access_size (out_size d) = true ->
  0 <= addr -> addr + out_size d < 2^32 ->
  get_x64_reg_value code (ctx s) (out_reg d) (out_size d) (out_length d) = Some v ->
  exists s',
    hav code addr is_writing s = Some (true, s')
    /\ load (mem s') (vm_base_priv addr) (Z.to_nat (out_size d))
       = stored_value (out_op d) (out_size d) v
    /\ (forall q, q < vm_base_priv addr \/ vm_base_priv addr + out_size d <= q ->
          mem s' !! q = mem s !! q)
    /\ ctx s' = set_X64REG (ctx s) 16 (u64 (RIP (ctx s) + out_length d))
    /\ trace s' = trace s ++ [EvReservationQuery addr (out_size d) is_writing].
Proof.
  intros d Hh Hm Hop Hsz Ha Hr Hv.
  pose proof (is_access_size_range _ Hsz) as Hd.
  assert (Hne : out_op d <> X64OP_NONE) by (destruct Hop as [->|[-> _]]; discriminate).
  pose proof (decode_length_pos code Hne) as Hl. fold d in Hl.
  assert (Ea : get_x64_access_size code (ctx s) (out_op d) (out_reg d) (out_size d)
                 (out_length d) = out_size d).
  { unfold get_x64_access_size. destruct Hop as [->|[-> _]]; reflexivity. }
  rewrite hav_ram_path; fold d; rewrite ?Ea; try assumption; try (apply in_range; lia).
  unfold privileged_access. cbn [ctx mem emit].
  replace ((out_size d =? 0) || (out_length d =? 0)) with false
    by (symmetry; apply orb_false_iff; split; apply Z.eqb_neq; lia).
  rewrite Hv. unfold stored_value, trunc, u32.
  rewrite (Z.mod_small (out_size d)) by lia.
  assert (E16 : (out_size d =? 16) = false) by (apply Z.eqb_neq; lia).
  destruct Hop as [Hop|[Hop Hn1]]; rewrite Hop; rewrite ?E16; cbn [andb bool_decide];
    repeat (rewrite bool_decide_eq_false_2 by discriminate);
    repeat (rewrite bool_decide_eq_true_2 by reflexivity); cbn [andb].
  - eexists. split; [reflexivity|]. cbn [mem ctx trace with_mem with_ctx emit].
    split; [|split; [|split; reflexivity]].
    + rewrite load_store. f_equal. f_equal. lia.
    + intros q Hq. apply store_other. lia.
  - apply is_access_size_cases in Hsz. destruct Hsz as [E|[E|[E|E]]]; [contradiction|..];
      rewrite E; cbv beta iota; (eexists; split; [reflexivity|]);
      cbn [mem ctx trace with_mem with_ctx emit];
      (split; [|split; [|split; reflexivity]]);
      try (intros q Hq; apply store_other; lia).
    + rewrite load_store. rewrite Z.mod_small by apply swap_range. reflexivity.
    + rewrite load_store. rewrite Z.mod_small by apply swap_range. reflexivity.
    + rewrite load_store. rewrite Z.mod_small by apply swap_range.
      symmetry. apply (swap_mod 8).
Qed.

End RamStores.

Lemma ram_store_writes_operand_witness :
  exists s',
    handle (bytes [0x89; 0x18]) 0x3000 true xchg_start = Some (true, s')
    /\ load (mem s') (vm_base_priv 0x3000) 4 = 0x55
    /\ RIP (ctx s') = 0x400002.
Proof.
  destruct (ram_store_writes_operand RAW_SPU_BASE_ADDR RAW_SPU_OFFSET RAW_SPU_PROB_OFFSET
              vm_base vm_base_priv no_hook no_thread no_read no_write
              (bytes [0x89; 0x18]) 0x3000 true xchg_start 0x55)
    as (s' & H & Hl & _ & Hc & _);
    [reflexivity|reflexivity|left; reflexivity|reflexivity|lia|vm_compute; reflexivity
    |reflexivity|].
  exists s'. split; [exact H|]. split; [exact Hl|]. rewrite Hc. reflexivity.
Defined.

(** ** Exchanges *)

Lemma put_defined (c : x64_context) (reg d_size value : Z) :
  0 <= reg < 16 -> is_access_size d_size = true ->
  exists c', put_x64_reg_value c reg d_size value = Some c'.
Proof.
  intros Hr H. unfold put_x64_reg_value. rewrite general_register_test by assumption.
  apply is_access_size_cases in H as [->|[->|[->| ->]]]; eexists; reflexivity.
Qed.

Lemma get_general_truncated (code : list byte) (c : x64_context) (reg d_size i_size : Z) :
  0 <= reg < 16 -> is_access_size d_size = true ->
  exists v, get_x64_reg_value code c reg d_size i_size = Some v
            /\ trunc d_size v = trunc d_size (X64REG c reg)
            /\ (0 <= X64REG c reg < 2^64 -> v = trunc d_size (X64REG c reg)).
Proof.
  intros Hr H. rewrite get_general_register by assumption. unfold trunc.
  apply is_access_size_cases in H as [->|[->|[->| ->]]]; eexists; (split; [reflexivity|]);
    unfold u8, u16, u32; (split; [|intros Hv]);
    try (apply Z.mod_mod; lia); try reflexivity.
  symmetry. apply Z.mod_small. exact Hv.
Qed.

Lemma no_early_exit (d_size i_size : Z) :
  1 <= d_size -> 1 <= i_size -> (d_size =? 0) || (i_size =? 0) = false.
Proof. intros. apply orb_false_iff; split; apply Z.eqb_neq; lia. Qed.

Lemma RIP_advanced (c : x64_context) (v : Z) :
  well_formed c -> RIP (set_X64REG c 16 v) = v.
Proof. intros [Hg _]. unfold RIP. apply X64REG_set_same. lia. Qed.

Section Exchanges.

Variables BASE OFFSET PROB : Z.
Variables vm_base vm_base_priv : Z -> Z.
Variable hook : option (Z -> bool -> bool).
Variable raw_spu_thread : Z -> bool.
Variable read_reg : Z -> Z -> option Z.
Variable write_reg : Z -> Z -> Z -> bool.

Local Notation "'hav'" :=
  (handle_access_violation BASE OFFSET PROB vm_base vm_base_priv hook
     raw_spu_thread read_reg write_reg).

(** X10. XCHG of a general register with guarded memory exchanges the two:
    afterwards memory holds the low [d_size] bytes of the register, the low
    [d_size] bytes of the register hold what memory held, no other byte of
    memory and no other register has changed, and RIP points past the
    instruction. *)
Theorem xchg_exchanges
    (code : list byte) (addr : Z) (is_writing : bool) (s : state) :
  let d := decode_x64_reg_op code in
  let n := Z.to_nat (out_size d) in
  let p := vm_base_priv addr in
  hook_claims hook addr is_writing = false ->
  is_raw_spu_mmio BASE OFFSET PROB addr = false ->
  out_op d = X64OP_XCHG ->
  is_access_size (out_size d) = true ->
  0 <= out_reg d < 16 ->
  well_formed (ctx s) ->
  0 <= addr -> addr + out_size d < 2^32 ->
  exists s',
    hav code addr is_writing s = Some (true, s')
    /\ load (mem s') p n = trunc (out_size d) (X64REG (ctx s) (out_reg d))
    /\ trunc (out_size d) (X64REG (ctx s') (out_reg d)) = trunc (out_size d) (load (mem s) p n)
    /\ (forall q, q < p \/ p + out_size d <= q -> mem s' !! q = mem s !! q)
    /\ (forall r, 0 <= r < 16 -> r <> out_reg d -> X64REG (ctx s') r = X64REG (ctx s) r)
    /\ RIP (ctx s') = u64 (RIP (ctx s) + out_length d).
Proof.
  intros d n p Hh Hm Hop Hsz Hreg Hw Ha Hr.
  pose proof (is_access_size_range _ Hsz) as Hd.
  assert (Hne : out_op d <> X64OP_NONE) by (rewrite Hop; discriminate).
  pose proof (decode_length_pos code Hne) as Hl. fold d in Hl.
  assert (Ea : get_x64_access_size code (ctx s) (out_op d) (out_reg d) (out_size d)
                 (out_length d) = out_size d).
  { unfold get_x64_access_size. rewrite Hop. reflexivity. }
  rewrite hav_ram_path; fold d; rewrite ?Ea; try assumption; try (apply in_range; lia).
  unfold privileged_access. cbn [ctx mem emit].
  rewrite no_early_exit by lia. rewrite Hop.
  destruct (get_general_truncated code (ctx s) (out_reg d) (out_size d) (out_length d)
              Hreg Hsz) as (v & Hv & Hvt & _).
  rewrite Hv, Hsz. cbn [negb]. cbv beta iota zeta delta [atomic_rmw].
  cbn [ctx mem with_mem emit].
  destruct (put_defined (ctx s) (out_reg d) (out_size d)
              (load (mem s) (vm_base_priv addr) (Z.to_nat (out_size d))) Hreg Hsz)
    as [c' Hput].
  rewrite Hput. cbn [finish].
  destruct (put_low_bytes _ _ _ _ _ Hw Hreg Hput) as (P1 & P2 & _ & _ & Hw').
  eexists. split; [reflexivity|]. cbn [ctx mem with_ctx with_mem emit].
  split; [|split; [|split; [|split]]].
  - subst n p. rewrite load_store. unfold trunc in *.
    replace (8 * Z.of_nat (Z.to_nat (out_size d))) with (8 * out_size d) by lia.
    rewrite Z.mod_mod by (apply Z.pow_nonzero; lia). exact Hvt.
  - rewrite X64REG_set_other by lia. exact P1.
  - intros q Hq. apply store_other. subst n p. lia.
  - intros r Hr0 Hne'. rewrite X64REG_set_other by lia. apply P2; lia.
  - rewrite (RIP_advanced c') by assumption. f_equal. f_equal.
    unfold RIP. apply P2; lia.
Qed.

(** X11. An 8-bit XCHG whose register operand is one of the legacy byte
    registers is reported unhandled, but not before the exchange has been
    made in memory: the byte at the address now holds the register's byte,
    while the context (register, flags, RIP) is as it was. *)
Theorem xchg_byte_register_is_half_done
    (code : list byte) (addr : Z) (is_writing : bool) (s : state) :
  let d := decode_x64_reg_op code in
  let p := vm_base_priv addr in
  hook_claims hook addr is_writing = false ->
  is_raw_spu_mmio BASE OFFSET PROB addr = false ->
  out_op d = X64OP_XCHG -> out_size d = 1 ->
  X64R_AL <= out_reg d <= X64R_BH ->
  0 <= addr -> addr + 1 < 2^32 ->
  exists s',
    hav code addr is_writing s = Some (false, s')
    /\ ctx s' = ctx s
    /\ Some (load (mem s') p 1) = get_x64_reg_value code (ctx s) (out_reg d) 1 (out_length d).
Proof.
  intros d p Hh Hm Hop Hsz Hreg Ha Hr.
  assert (Hne : out_op d <> X64OP_NONE) by (rewrite Hop; discriminate).
  pose proof (decode_length_pos code Hne) as Hl. fold d in Hl.
  assert (Ea : get_x64_access_size code (ctx s) (out_op d) (out_reg d) (out_size d)
                 (out_length d) = out_size d).
  { unfold get_x64_access_size. rewrite Hop. reflexivity. }
  rewrite hav_ram_path; fold d; rewrite ?Ea; try assumption; try (apply in_range; lia).
  unfold privileged_access. cbn [ctx mem emit].
  rewrite no_early_exit by lia. rewrite Hop, Hsz.
  destruct (byte_register_access code (ctx s) (out_reg d) (out_length d)
              (load (mem s) (vm_base_priv addr) 1) Hreg) as [Hget Hput].
  rewrite Hget. cbn [is_access_size negb]. cbv beta iota zeta delta [atomic_rmw].
  cbn [ctx mem with_mem emit]. change (Z.to_nat 1) with 1%nat. rewrite Hput. cbn [finish].
  eexists. split; [reflexivity|]. cbn [ctx mem with_mem emit]. split; [reflexivity|].
  subst p. rewrite load_store. f_equal. unfold trunc. change (8 * Z.of_nat 1) with (8 * 1).
  rewrite Z.mod_mod by lia. apply Z.mod_small.
  change (2^(8 * 1)) with (2^8).
  destruct (out_reg d <? X64R_AH); apply Z.mod_pos_bound; lia.
Qed.

End Exchanges.

Lemma xchg_exchanges_witness :
  exists s',
    handle (bytes [0x87; 0x18]) 0x3000 true xchg_start = Some (true, s')
    /\ load (mem s') (vm_base_priv 0x3000) 4 = 0x55
    /\ trunc 4 (X64REG (ctx s') 3) = 0x66.
Proof.
  destruct (xchg_exchanges RAW_SPU_BASE_ADDR RAW_SPU_OFFSET RAW_SPU_PROB_OFFSET
              vm_base vm_base_priv no_hook no_thread no_read no_write
              (bytes [0x87; 0x18]) 0x3000 true xchg_start)
    as (s' & H & H1 & H2 & _);
    [reflexivity|reflexivity|reflexivity|reflexivity
    |vm_compute; split; [discriminate|reflexivity]
    |split; reflexivity|lia|vm_compute; reflexivity|].
  exists s'. split; [exact H|]. split; [exact H1|exact H2].
Defined.

Lemma xchg_byte_register_is_half_done_witness :
  exists s',
    handle (bytes [0x86; 0x18]) 0x3000 true xchg_start = Some (false, s')
    /\ ctx s' = ctx xchg_start
    /\ Some (load (mem s') (vm_base_priv 0x3000) 1) = Some 0x55.
Proof.
  apply (xchg_byte_register_is_half_done RAW_SPU_BASE_ADDR RAW_SPU_OFFSET RAW_SPU_PROB_OFFSET
           vm_base vm_base_priv no_hook no_thread no_read no_write
           (bytes [0x86; 0x18]) 0x3000 true xchg_start);
    [reflexivity|reflexivity|reflexivity|reflexivity|vm_compute; split; discriminate
    |lia|vm_compute; reflexivity].
Defined.

(** ** Compare and exchange *)

Lemma trunc_idem (d v : Z) : 0 <= d -> trunc d (trunc d v) = trunc d v.
Proof. intros H. unfold trunc. apply Z.mod_mod. apply Z.pow_nonzero; lia. Qed.

Lemma load_truncated (m : memory) (p d : Z) :
  byte_memory m -> 0 <= d -> trunc d (load m p (Z.to_nat d)) = load m p (Z.to_nat d).
Proof.
  intros Hm Hd. unfold trunc. apply Z.mod_small.
  replace (8 * d) with (8 * Z.of_nat (Z.to_nat d)) by lia. now apply load_range.
Qed.

Lemma byte_memory_empty : byte_memory ∅.
Proof. intros q w Hq. apply lookup_empty_Some in Hq. contradiction. Qed.

Section CompareExchange.

Variables BASE OFFSET PROB : Z.
Variables vm_base vm_base_priv : Z -> Z.
Variable hook : option (Z -> bool -> bool).
Variable raw_spu_thread : Z -> bool.
Variable read_reg : Z -> Z -> option Z.
Variable write_reg : Z -> Z -> Z -> bool.

Local Notation "'hav'" :=
  (handle_access_violation BASE OFFSET PROB vm_base vm_base_priv hook
     raw_spu_thread read_reg write_reg).

(** X12. CMPXCHG on guarded memory compares the accumulator with memory at
    the operand width and stores the source operand only when they are
    equal; ZF tells which happened, the low [d_size] bytes of RAX hold what
    memory held before, and RIP points past the instruction. *)
Theorem cmpxchg_compares_and_swaps
    (code : list byte) (addr : Z) (is_writing : bool) (s : state) (src : Z) :
  let d := decode_x64_reg_op code in
  let n := Z.to_nat (out_size d) in
  let p := vm_base_priv addr in
  let old := load (mem s) p n in
  let acc := trunc (out_size d) (RAX (ctx s)) in
  hook_claims hook addr is_writing = false ->
  is_raw_spu_mmio BASE OFFSET PROB addr = false ->
  out_op d = X64OP_CMPXCHG ->
  well_formed (ctx s) -> byte_memory (mem s) -> 0 <= RAX (ctx s) < 2^64 ->
  get_x64_reg_value code (ctx s) (out_reg d) (out_size d) (out_length d) = Some src ->
  0 <= addr -> addr + out_size d < 2^32 ->
  exists s',
    hav code addr is_writing s = Some (true, s')
    /\ load (mem s') p n = (if old =? acc then trunc (out_size d) src else old)
    /\ Z.testbit (EFLAGS (ctx s')) ZF = (old =? acc)
    /\ trunc (out_size d) (RAX (ctx s')) = old
    /\ RIP (ctx s') = u64 (RIP (ctx s) + out_length d).
Proof.
  intros d n p old acc Hh Hm Hop Hw Hb Hrax Hsrc Ha Hr.
  destruct (decode_facts code) as (Hc & _ & _). fold d in Hc.
  destruct (Hc Hop) as [Hsz Hlen].
  pose proof (is_access_size_range _ Hsz) as Hd.
  destruct (get_general_truncated code (ctx s) 0 (out_size d) (out_length d)
              ltac:(lia) Hsz) as (cv & Hcv & _ & Hcv').
  specialize (Hcv' Hrax). fold (RAX (ctx s)) in Hcv'. fold acc in Hcv'. subst cv.
  assert (Ea : out_of_range (get_x64_access_size code (ctx s) (out_op d) (out_reg d)
                               (out_size d) (out_length d)) addr = false).
  { unfold get_x64_access_size. rewrite Hop. cbn [is_block_op andb].
    rewrite bool_decide_eq_true_2 by reflexivity. unfold X64R_RAX. rewrite Hsrc, Hcv.
    destruct (src =? acc); apply in_range; lia. }
  rewrite hav_ram_path; fold d; try assumption; try (apply in_range; lia).
  unfold privileged_access. cbn [ctx mem emit].
  rewrite no_early_exit by lia. rewrite Hop. unfold X64R_RAX. rewrite Hsrc, Hcv, Hsz.
  cbn [negb]. cbv beta iota zeta delta [atomic_rmw]. cbn [ctx mem with_mem emit].
  fold p n old.
  destruct (put_defined (ctx s) 0 (out_size d) old ltac:(lia) Hsz) as [c1 Hput].
  rewrite Hput.
  destruct (set_x64_cmp_flags_defined c1 (out_size d) acc old true Hsz) as [c2 Hfl].
  rewrite Hfl. cbn [finish].
  destruct (put_low_bytes (ctx s) c1 0 (out_size d) old Hw ltac:(lia) Hput)
    as (P1 & P2 & _ & _ & Hw1).
  destruct (set_x64_cmp_flags_frame _ _ _ _ _ _ Hfl) as [Hg _].
  assert (Hreg : forall r, X64REG c2 r = X64REG c1 r)
    by (intros r; unfold X64REG; now rewrite Hg).
  assert (Hw2 : well_formed c2).
  { destruct Hw1 as [W1 W2]. split; [now rewrite Hg|].
    now rewrite (proj2 (set_x64_cmp_flags_frame _ _ _ _ _ _ Hfl)). }
  assert (Hold : trunc (out_size d) old = old) by (apply load_truncated; [assumption|lia]).
  eexists. split; [reflexivity|]. cbn [ctx mem with_ctx with_mem emit].
  split; [|split; [|split]].
  - rewrite load_store. subst n.
    replace (8 * Z.of_nat (Z.to_nat (out_size d))) with (8 * out_size d) by lia.
    fold (trunc (out_size d) (trunc (out_size d) (if old =? trunc (out_size d) acc
                                                   then src else old))).
    rewrite trunc_idem by lia. unfold acc at 1. rewrite trunc_idem by lia. fold acc.
    destruct (old =? acc); [reflexivity|exact Hold].
  - unfold EFLAGS. cbn [eflags set_X64REG].
    change (eflags c2) with (EFLAGS c2).
    rewrite (set_x64_cmp_flags_bits _ _ _ _ _ _ Hfl) by (unfold ZF; lia).
    unfold ZF, AF, PF, OF, SF. cbn [Z.eqb Pos.eqb]. apply Z.eqb_sym.
  - unfold RAX. rewrite X64REG_set_other by lia. rewrite Hreg, P1. exact Hold.
  - rewrite (RIP_advanced c2) by assumption. f_equal. f_equal.
    unfold RIP. rewrite Hreg. apply P2; lia.
Qed.

End CompareExchange.

(** [lock cmpxchg [rbx], ecx] with EAX = 7, ECX = 9 and 7, then 8, in
    memory. *)
Lemma cmpxchg_compares_and_swaps_witness :
  let s := mk_state (with_regs [(0, 7); (1, 9); (3, 0x100003000)] zero_context)
                    (store ∅ (vm_base_priv 0x3000) 4 7) [] in
  exists s',
    handle (bytes [0xf0; 0x0f; 0xb1; 0x0b]) 0x3000 true s = Some (true, s')
    /\ load (mem s') (vm_base_priv 0x3000) 4 = 9
    /\ Z.testbit (EFLAGS (ctx s')) ZF = true.
Proof.
  intros s.
  destruct (cmpxchg_compares_and_swaps RAW_SPU_BASE_ADDR RAW_SPU_OFFSET RAW_SPU_PROB_OFFSET
              vm_base vm_base_priv no_hook no_thread no_read no_write
              (bytes [0xf0; 0x0f; 0xb1; 0x0b]) 0x3000 true s 9)
    as (s' & H & H1 & H2 & _);
    [reflexivity|reflexivity|reflexivity|split; reflexivity
    |apply store_byte_memory, byte_memory_empty
    |vm_compute; split; [discriminate|reflexivity]
    |reflexivity|lia|vm_compute; reflexivity|].
  exists s'. split; [exact H|]. split; [exact H1|exact H2].
Defined.

(** ** Block operations *)

Ltac close_block :=
  cbv beta iota;
  change (byte_val xc5 =? 197) with true; change (byte_val xc4 =? 197) with false;
  cbv beta iota;
  split_ifs; cbv beta iota delta [out_op out_reg out_size out_length unsupported];
  solve
    [ discriminate
    | intros _; auto
    | intros H; exfalso; revert H;
      first [rewrite (proj2 (group1_op_kind _)) | rewrite (proj2 (group1_op8_kind _))
            | rewrite (proj2 (group3_op_kind _))]; discriminate ].

Lemma decode_opcode_block_reg (p : prefixes) (n : Z) (code : list byte) :
  let d := decode_opcode p n code in
  is_block_op (out_op d) = true ->
  out_reg d = X64_NOT_SET \/ out_reg d = X64R_ECX \/ out_reg d = X64R_RCX.
Proof.
  cbv zeta. index_stream.
  destruct (nth 0 code x00) eqn:E0; cbv beta iota; try solve [close_block].
  - destruct (nth 1 code x00) eqn:E1; cbv beta iota; try solve [close_block].
    destruct (nth 2 code x00) eqn:E2; cbv beta iota; close_block.
  - change (byte_val xc4 =? 197) with false; cbv beta iota.
    destruct (nth 3 code x00) eqn:E3; close_block.
  - change (byte_val xc5 =? 197) with true; cbv beta iota.
    destruct (nth 2 code x00) eqn:E3; close_block.
Qed.

(** A block operation is decoded with element size 1 and, as its counter,
    nothing, ECX or RCX. *)
Lemma decode_block_reg (code : list byte) :
  let d := decode_x64_reg_op code in
  is_block_op (out_op d) = true ->
  out_reg d = X64_NOT_SET \/ out_reg d = X64R_ECX \/ out_reg d = X64R_RCX.
Proof.
  unfold decode_x64_reg_op.
  destruct (scan_prefixes code no_prefixes 0) as [q|q m rest].
  - cbn. discriminate.
  - apply decode_opcode_block_reg.
Qed.

Section BlockRuns.

Variables vm_base vm_base_priv : Z -> Z.

(** The iteration that exhausts the counter. *)
Lemma stos_loop_last (fuel : nat) (addr a_addr d_size value reg : Z) (s : state) :
  Z.shiftr a_addr 12 = Z.shiftr addr 12 ->
  Z.land (EFLAGS (ctx s)) 0x400 = 0 ->
  reg <> X64_NOT_SET ->
  well_formed (ctx s) ->
  u64 (RCX (ctx s) - 1) = 0 ->
  stos_loop vm_base_priv (S fuel) addr a_addr d_size value reg s
  = Break (mk_state (set_X64REG (set_X64REG (ctx s) 7 (u64 (RDI (ctx s) + d_size))) 1
                                (u64 (RCX (ctx s) - 1)))
                    (store (mem s) (vm_base_priv a_addr) (Z.to_nat d_size) value)
                    (trace s)).
Proof.
  intros Hp Hdf Hreg [Hg Hx] Hc. cbn [stos_loop]. cbv zeta.
  rewrite Hp, Z.eqb_refl. cbn [ctx with_mem with_ctx mem trace]. rewrite Hdf. cbn [Z.eqb negb].
  apply Z.eqb_neq in Hreg. rewrite Hreg.
  unfold RCX in *. regs_simpl. rewrite Hc. reflexivity.
Qed.

(** The loop finds the next address outside the page. *)
Lemma stos_loop_leaves (fuel : nat) (addr a_addr d_size value reg : Z) (s : state) :
  Z.shiftr a_addr 12 <> Z.shiftr addr 12 ->
  stos_loop vm_base_priv (S fuel) addr a_addr d_size value reg s = Break s.
Proof.
  intros Hp. cbn [stos_loop]. apply Z.eqb_neq in Hp. now rewrite Hp.
Qed.

Lemma stos_next_facts (a value : Z) (s : state) :
  well_formed (ctx s) -> 1 <= RCX (ctx s) < 2^64 ->
  let s1 := stos_next vm_base_priv a value s in
  RCX (ctx s1) = RCX (ctx s) - 1
  /\ RDI (ctx s1) = u64 (RDI (ctx s) + 1)
  /\ (forall r, 0 <= r -> r <> 1 -> r <> 7 -> X64REG (ctx s1) r = X64REG (ctx s) r)
  /\ EFLAGS (ctx s1) = EFLAGS (ctx s) /\ xmm (ctx s1) = xmm (ctx s)
  /\ well_formed (ctx s1)
  /\ trace s1 = trace s
  /\ mem s1 !! vm_base_priv a = Some (value mod 2^8)
  /\ (forall q, q <> vm_base_priv a -> mem s1 !! q = mem s !! q).
Proof.
  intros Hw Hc. pose proof Hw as [Hg Hx]. cbv zeta. unfold stos_next. cbn [ctx mem trace].
  unfold RCX, RDI in *.
  split; [|split; [|split; [|split; [|split; [|split; [|split; [|split]]]]]]].
  - regs_simpl. unfold u64. apply Z.mod_small. lia.
  - regs_simpl. reflexivity.
  - intros r H0 H1 H7. now regs_simpl.
  - reflexivity.
  - reflexivity.
  - split; cbn; [now rewrite !length_insert|assumption].
  - reflexivity.
  - cbn [store]. apply mem_insert_same.
  - intros q Hq. cbn [store]. apply mem_insert_other. congruence.
Qed.

Lemma fill_bytes_lookup (m : memory) (a value : Z) (n : nat) (q : Z) :
  fill_bytes vm_base_priv m a value n !! q = m !! q
  \/ fill_bytes vm_base_priv m a value n !! q = Some (value mod 2^8).
Proof.
  revert m a. induction n as [|n IH]; intros m a; cbn [fill_bytes]; [now left|].
  destruct (IH (store m (vm_base_priv a) 1 value) (a + 1)) as [E|E]; [|now right].
  rewrite E. cbn [store]. destruct (Z.eq_dec (vm_base_priv a) q) as [<-|Hne].
  - right. apply mem_insert_same.
  - left. now apply mem_insert_other.
Qed.

Lemma fill_bytes_written (m : memory) (a value : Z) (n : nat) (j : Z) :
  0 <= j < Z.of_nat n ->
  fill_bytes vm_base_priv m a value n !! vm_base_priv (a + j) = Some (value mod 2^8).
Proof.
  revert m a j. induction n as [|n IH]; intros m a j Hj; [lia|]. cbn [fill_bytes].
  destruct (Z.eq_dec j 0) as [->|Hne].
  - rewrite Z.add_0_r.
    destruct (fill_bytes_lookup (store m (vm_base_priv a) 1 value) (a + 1) value n
                (vm_base_priv a)) as [E|E]; [|exact E].
    rewrite E. cbn [store]. apply mem_insert_same.
  - replace (a + j) with (a + 1 + (j - 1)) by lia. apply IH. lia.
Qed.

Lemma fill_bytes_frame (m : memory) (a value : Z) (n : nat) (q : Z) :
  (forall j, 0 <= j < Z.of_nat n -> q <> vm_base_priv (a + j)) ->
  fill_bytes vm_base_priv m a value n !! q = m !! q.
Proof.
  revert m a. induction n as [|n IH]; intros m a Hq; [reflexivity|]. cbn [fill_bytes].
  rewrite IH.
  - cbn [store]. apply mem_insert_other. specialize (Hq 0 ltac:(lia)).
    rewrite Z.add_0_r in Hq. congruence.
  - intros j Hj. replace (a + 1 + j) with (a + (j + 1)) by lia. apply Hq. lia.
Qed.

Lemma page_between (a b c addr : Z) :
  a <= b <= c -> a / 4096 = addr / 4096 -> c / 4096 = addr / 4096 ->
  b / 4096 = addr / 4096.
Proof.
  intros H Ha Hc.
  pose proof (Z.div_le_mono a b 4096 ltac:(lia) ltac:(lia)).
  pose proof (Z.div_le_mono b c 4096 ltac:(lia) ltac:(lia)). lia.
Qed.

Lemma page_bound (a addr : Z) : 0 <= addr < 2^32 -> a / 4096 = addr / 4096 -> a < 2^32.
Proof.
  intros Ha Hp.
  assert (addr / 4096 < 2^20) by (apply Z.div_lt_upper_bound; lia).
  destruct (Z_lt_le_dec a (2^32)) as [|Hge]; [assumption|].
  pose proof (Z.div_le_mono (2^32) a 4096 ltac:(lia) Hge) as Hd.
  change (2^32 / 4096) with (2^20) in Hd. lia.
Qed.

(** A byte-store loop that starts in the page of [addr] with [n] elements
    to go before the counter runs out or the page ends performs exactly
    these [n] stores. *)
Lemma stos_loop_run (value reg addr : Z) (n : nat) :
  reg <> X64_NOT_SET -> 0 <= addr < 2^32 ->
  forall (fuel : nat) (a : Z) (s : state),
  (n < fuel)%nat -> (1 <= n)%nat ->
  Z.land (EFLAGS (ctx s)) 0x400 = 0 -> well_formed (ctx s) ->
  0 <= a -> a / 4096 = addr / 4096 -> (a + Z.of_nat n - 1) / 4096 = addr / 4096 ->
  Z.of_nat n <= RCX (ctx s) < 2^64 ->
  (Z.of_nat n = RCX (ctx s)
   \/ (a + Z.of_nat n) / 4096 <> addr / 4096 /\ a + Z.of_nat n < 2^32) ->
  exists s',
    stos_loop vm_base_priv fuel addr a 1 value reg s = Break s'
    /\ RCX (ctx s') = RCX (ctx s) - Z.of_nat n
    /\ RDI (ctx s') = u64 (RDI (ctx s) + Z.of_nat n)
    /\ (forall r, 0 <= r -> r <> 1 -> r <> 7 -> X64REG (ctx s') r = X64REG (ctx s) r)
    /\ well_formed (ctx s')
    /\ mem s' = fill_bytes vm_base_priv (mem s) a value n.
Proof.
  intros Hreg Haddr. induction n as [|m IH];
    intros fuel a s Hf Hn Hdf Hw Ha Hp1 Hp2 Hc Hexit; [lia|].
  destruct fuel as [|fuel]; [lia|].
  assert (Hpage : Z.shiftr a 12 = Z.shiftr addr 12)
    by (rewrite !Z.shiftr_div_pow2 by lia; exact Hp1).
  destruct (stos_next_facts a value s Hw ltac:(lia))
    as (N1 & N2 & N3 & N4 & N5 & N6 & N7 & N8 & N9).
  destruct (Z.eq_dec (RCX (ctx s)) 1) as [E1|E1].
  - assert (m = 0%nat) by lia. subst m.
    rewrite stos_loop_last; try assumption; [|rewrite E1; reflexivity].
    exists (stos_next vm_base_priv a value s). split; [reflexivity|].
    split; [rewrite N1; lia|]. split; [exact N2|]. split; [exact N3|].
    split; [exact N6|reflexivity].
  - rewrite stos_loop_step; try assumption;
      [|unfold u64; rewrite Z.mod_small by lia; lia].
    change (mk_state _ _ _) with (stos_next vm_base_priv a value s).
    destruct m as [|k].
    + destruct Hexit as [Hx|[Hx Hlt]]; [lia|].
      change (u32 1) with 1. unfold u32 at 1. rewrite Z.mod_small by lia.
      destruct fuel as [|fuel]; [lia|].
      rewrite stos_loop_leaves by (rewrite !Z.shiftr_div_pow2 by lia; exact Hx).
      exists (stos_next vm_base_priv a value s). split; [reflexivity|].
      split; [rewrite N1; lia|]. split; [exact N2|]. split; [exact N3|].
      split; [exact N6|reflexivity].
    + assert (Hlt : a + 1 < 2^32).
      { apply (page_bound (a + 1) addr Haddr). apply (page_between a (a + 1) (a + Z.of_nat (S (S k)) - 1)); [lia|assumption..]. }
      change (u32 1) with 1. unfold u32 at 1. rewrite Z.mod_small by lia.
      destruct (IH fuel (a + 1) (stos_next vm_base_priv a value s))
        as (s' & R & R1 & R2 & R3 & R4 & R5).
      * lia.
      * lia.
      * now rewrite N4.
      * exact N6.
      * lia.
      * apply (page_between a (a + 1) (a + Z.of_nat (S (S k)) - 1)); [lia|assumption..].
      * replace (a + 1 + Z.of_nat (S k) - 1) with (a + Z.of_nat (S (S k)) - 1) by lia.
        exact Hp2.
      * rewrite N1. lia.
      * rewrite N1. replace (a + 1 + Z.of_nat (S k)) with (a + Z.of_nat (S (S k))) by lia.
        lia.
      * exists s'. split; [exact R|]. split; [rewrite R1, N1; lia|].
        split.
        { rewrite R2, N2. unfold u64. rewrite Zplus_mod_idemp_l. f_equal. lia. }
        split; [intros r H0 H1 H7; rewrite R3, N3 by assumption; reflexivity|].
        split; [exact R4|]. rewrite R5. reflexivity.
Qed.

End BlockRuns.

Lemma same_page (addr k : Z) :
  0 <= k < 4096 - addr mod 4096 -> (addr + k) / 4096 = addr / 4096.
Proof.
  intros Hk. pose proof (Z.mod_pos_bound addr 4096 ltac:(lia)).
  symmetry. apply (Z.div_unique _ _ _ (addr mod 4096 + k)); [lia|].
  pose proof (Z.div_mod addr 4096 ltac:(lia)). lia.
Qed.

Lemma next_page (addr : Z) : (addr + (4096 - addr mod 4096)) / 4096 = addr / 4096 + 1.
Proof.
  symmetry. apply (Z.div_unique _ _ _ 0); [lia|].
  pose proof (Z.div_mod addr 4096 ltac:(lia)). lia.
Qed.

Lemma get_counter (code : list byte) (c : x64_context) (reg i_size : Z) :
  reg = X64R_ECX \/ reg = X64R_RCX -> 0 <= RCX c < 2^32 ->
  get_x64_reg_value code c reg 8 i_size = Some (RCX c).
Proof.
  intros [-> | ->] Hc.
  - unfold get_x64_reg_value.
    repeat match goal with
    | |- (if ?b then _ else _) = _ =>
      first [change b with false | change b with true]; cbv iota
    end.
    f_equal. unfold u32. apply Z.mod_small. exact Hc.
  - reflexivity.
Qed.

Section BlockTheorems.

Variables BASE OFFSET PROB : Z.
Variables vm_base vm_base_priv : Z -> Z.
Variable hook : option (Z -> bool -> bool).
Variable raw_spu_thread : Z -> bool.
Variable read_reg : Z -> Z -> option Z.
Variable write_reg : Z -> Z -> Z -> bool.

Local Notation "'hav'" :=
  (handle_access_violation BASE OFFSET PROB vm_base vm_base_priv hook
     raw_spu_thread read_reg write_reg).

(** X13. REP STOSB on guarded memory: the handler stores AL into the bytes
    from the faulting address on, as many as the counter asks for or as are
    left in the 4096-byte page, whichever is less, and into no other byte;
    RCX and RDI account for exactly these bytes; the instruction is skipped
    when the counter is exhausted and is left to run again (and fault on
    the next page) otherwise. *)
Theorem rep_stos_fills
    (code : list byte) (addr : Z) (is_writing : bool) (s : state) :
  let d := decode_x64_reg_op code in
  let count := RCX (ctx s) in
  let n := Z.min count (4096 - addr mod 4096) in
  hook_claims hook addr is_writing = false ->
  is_raw_spu_mmio BASE OFFSET PROB addr = false ->
  out_op d = X64OP_STOS -> out_reg d <> X64_NOT_SET ->
  well_formed (ctx s) -> Z.land (EFLAGS (ctx s)) 0x400 = 0 ->
  vm_base addr = RDI (ctx s) ->
  0 <= addr -> 1 <= count -> addr + count < 2^32 ->
  exists s',
    hav code addr is_writing s = Some (true, s')
    /\ (forall j, 0 <= j < n ->
          mem s' !! vm_base_priv (addr + j) = Some (RAX (ctx s) mod 2^8))
    /\ (forall q, (forall j, 0 <= j < n -> q <> vm_base_priv (addr + j)) ->
          mem s' !! q = mem s !! q)
    /\ RCX (ctx s') = count - n
    /\ RDI (ctx s') = u64 (RDI (ctx s) + n)
    /\ RIP (ctx s') = (if n =? count then u64 (RIP (ctx s) + out_length d) else RIP (ctx s)).
Proof.
  intros d count n Hh Hm Hop Hreg Hw Hdf Hrdi Ha Hc Hr.
  destruct (decode_facts code) as (_ & Hsz & _). fold d in Hsz.
  assert (Hblock : is_block_op (out_op d) = true) by (rewrite Hop; reflexivity).
  specialize (Hsz Hblock).
  destruct (decode_block_reg code Hblock) as [Hns|Hcnt]; [contradiction|]. fold d in Hcnt.
  assert (Hne : out_op d <> X64OP_NONE) by (rewrite Hop; discriminate).
  pose proof (decode_length_pos code Hne) as Hl. fold d in Hl.
  pose proof (Z.mod_pos_bound addr 4096 ltac:(lia)) as Hmod.
  assert (Hn : 1 <= n <= 4096 /\ n <= count /\ n <= 4096 - addr mod 4096) by (subst n; lia).
  assert (Ea : get_x64_access_size code (ctx s) (out_op d) (out_reg d) (out_size d)
                 (out_length d) = count).
  { unfold get_x64_access_size. rewrite Hblock, Hdf. cbn [Z.eqb negb andb].
    apply Z.eqb_neq in Hreg. rewrite Hreg. cbn [negb].
    rewrite (get_counter code (ctx s) (out_reg d) (out_length d) Hcnt) by (fold count; lia).
    rewrite Hsz. fold count. unfold u64. rewrite Z.mod_small by lia. lia. }
  rewrite hav_ram_path; fold d; rewrite ?Ea, ?Hsz; try assumption; try (apply in_range; lia).
  unfold privileged_access. cbn [ctx mem emit].
  rewrite no_early_exit by lia. rewrite Hop. change (8 <? 1) with false. cbv iota.
  rewrite Hrdi, Z.eqb_refl. cbn [negb].
  change (get_x64_reg_value code (ctx s) X64R_RAX 1 (out_length d))
    with (Some (u8 (X64REG (ctx s) 0))). cbv iota.
  set (s0 := mk_state (ctx s) (mem s) (trace s ++ [EvReservationQuery addr (u32 count) is_writing])).
  destruct (stos_loop_run vm_base_priv (u8 (X64REG (ctx s) 0)) (out_reg d) addr (Z.to_nat n)
              Hreg ltac:(split; lia) page_fuel addr s0)
    as (s1 & R & R1 & R2 & R3 & R4 & R5).
  - unfold page_fuel. lia.
  - lia.
  - exact Hdf.
  - exact Hw.
  - lia.
  - reflexivity.
  - replace (addr + Z.of_nat (Z.to_nat n) - 1) with (addr + (n - 1)) by lia.
    apply same_page. lia.
  - cbn [ctx s0]. fold count. lia.
  - cbn [ctx s0]. fold count.
    destruct (Z.eq_dec n count) as [E|E]; [left; lia|right].
    assert (En : n = 4096 - addr mod 4096) by lia.
    replace (Z.of_nat (Z.to_nat n)) with (4096 - addr mod 4096) by lia.
    rewrite next_page. lia.
  - cbn [ctx mem s0] in R1, R2, R3, R5. fold count in R1.
    change (stos_loop vm_base_priv page_fuel addr addr 1 (u8 (X64REG (ctx s) 0)) (out_reg d)
              (emit (EvReservationQuery addr (u32 count) is_writing) s))
      with (stos_loop vm_base_priv page_fuel addr addr 1 (u8 (X64REG (ctx s) 0)) (out_reg d) s0).
    rewrite R. cbn [after_block_loop]. apply Z.eqb_neq in Hreg. rewrite Hreg. cbn [orb].
    assert (Hmem1 : forall j, 0 <= j < n ->
              mem s1 !! vm_base_priv (addr + j) = Some (RAX (ctx s) mod 2^8)).
    { intros j Hj. rewrite R5, fill_bytes_written by lia.
      unfold u8, RAX. rewrite Z.mod_mod by lia. reflexivity. }
    assert (Hmem2 : forall q, (forall j, 0 <= j < n -> q <> vm_base_priv (addr + j)) ->
              mem s1 !! q = mem s !! q).
    { intros q Hq. rewrite R5. apply fill_bytes_frame. intros j Hj. apply Hq. lia. }
    assert (Hrcx : RCX (ctx s1) = count - n) by (rewrite R1; lia).
    assert (Hrdi1 : RDI (ctx s1) = u64 (RDI (ctx s) + n))
      by (rewrite R2; f_equal; lia).
    destruct (Z.eq_dec n count) as [E|E].
    + replace (RCX (ctx s1) =? 0) with true by (symmetry; apply Z.eqb_eq; lia).
      cbn [finish]. eexists. split; [reflexivity|]. cbn [ctx mem with_ctx].
      split; [exact Hmem1|]. split; [exact Hmem2|].
      unfold RCX, RDI in *. split; [rewrite X64REG_set_other by lia; exact Hrcx|].
      split; [rewrite X64REG_set_other by lia; exact Hrdi1|].
      rewrite (RIP_advanced (ctx s1)) by assumption.
      replace (n =? count) with true by (symmetry; apply Z.eqb_eq; lia).
      f_equal. f_equal. unfold RIP. apply R3; lia.
    + replace (RCX (ctx s1) =? 0) with false by (symmetry; apply Z.eqb_neq; lia).
      cbn [finish]. exists s1. split; [reflexivity|].
      split; [exact Hmem1|]. split; [exact Hmem2|].
      split; [exact Hrcx|]. split; [exact Hrdi1|].
      replace (n =? count) with false by (symmetry; apply Z.eqb_neq; lia).
      unfold RIP. apply R3; lia.
Qed.

End BlockTheorems.

(** [rep stosb] with RCX = 16 and eight bytes left in the page: eight bytes
    are written and the instruction is not skipped. *)
Lemma rep_stos_fills_witness :
  let s := mk_state (with_regs [(0, 0xAB); (1, 16); (7, 0x100010ff8); (16, 0x400000)]
                               zero_context) ∅ [] in
  exists s',
    handle (bytes [0xf3; 0xaa]) 0x10ff8 true s = Some (true, s')
    /\ mem s' !! vm_base_priv 0x10fff = Some 0xAB
    /\ RCX (ctx s') = 8 /\ RIP (ctx s') = 0x400000.
Proof.
  intros s.
  destruct (rep_stos_fills RAW_SPU_BASE_ADDR RAW_SPU_OFFSET RAW_SPU_PROB_OFFSET
              vm_base vm_base_priv no_hook no_thread no_read no_write
              (bytes [0xf3; 0xaa]) 0x10ff8 true s)
    as (s' & H & H1 & _ & H2 & _ & H3);
    [reflexivity|reflexivity|reflexivity|vm_compute; discriminate|split; reflexivity
    |reflexivity|reflexivity|lia|vm_compute; discriminate|vm_compute; reflexivity|].
  exists s'. split; [exact H|]. split; [|split; [exact H2|exact H3]].
  apply (H1 7). vm_compute. split; [discriminate|reflexivity].
Defined.

(** ** Block operations with the direction flag set *)

Section Reversed.

Variables BASE OFFSET PROB : Z.
Variables vm_base vm_base_priv : Z -> Z.
Variable hook : option (Z -> bool -> bool).
Variable raw_spu_thread : Z -> bool.
Variable read_reg : Z -> Z -> option Z.
Variable write_reg : Z -> Z -> Z -> bool.

Local Notation "'hav'" :=
  (handle_access_violation BASE OFFSET PROB vm_base vm_base_priv hook
     raw_spu_thread read_reg write_reg).
Local Notation "'mmio'" := (raw_spu_access BASE OFFSET raw_spu_thread read_reg write_reg).

Lemma raw_spu_access_block (code : list byte) (addr : Z) (is_writing : bool)
    (op : x64_op_t) (reg d_size a_size i_size : Z) (s : state) :
  is_block_op op = true ->
  mmio code addr is_writing op reg d_size a_size i_size s = (false, s).
Proof.
  intros Hop. unfold raw_spu_access.
  destruct (negb _); [reflexivity|]. destruct (_ || _); [reflexivity|].
  destruct op; try discriminate Hop; reflexivity.
Qed.

Lemma stos_loop_reversed (fuel : nat) (addr d_size value reg : Z) (s : state) :
  Z.land (EFLAGS (ctx s)) 0x400 <> 0 ->
  stos_loop vm_base_priv (S fuel) addr addr d_size value reg s
  = Return false (with_mem s (store (mem s) (vm_base_priv addr) (Z.to_nat d_size) value)).
Proof.
  intros Hdf. cbn [stos_loop]. cbv zeta. rewrite Z.eqb_refl. cbn [ctx with_mem].
  apply Z.eqb_neq in Hdf. rewrite Hdf. reflexivity.
Qed.

Lemma movs_loop_reversed (fuel : nat) (addr d_size reg : Z) (s : state) :
  Z.land (EFLAGS (ctx s)) 0x400 <> 0 ->
  movs_loop vm_base_priv (S fuel) addr addr d_size reg s
  = Return false (with_mem s (store (mem s) (vm_base_priv addr) (Z.to_nat d_size)
                                    (load (mem s) (RSI (ctx s)) (Z.to_nat d_size)))).
Proof.
  intros Hdf. cbn [movs_loop]. cbv zeta. rewrite Z.eqb_refl. cbn [ctx with_mem].
  apply Z.eqb_neq in Hdf. rewrite Hdf. reflexivity.
Qed.

(** X14. With the direction flag set, a block move or block store is never
    handled and the context is left as it was; but when the fault is on the
    element RDI points to, the first element has been written by then. *)
Theorem reversed_block_operations_are_unhandled
    (code : list byte) (addr : Z) (is_writing : bool) (s : state) :
  let d := decode_x64_reg_op code in
  hook_claims hook addr is_writing = false ->
  is_block_op (out_op d) = true ->
  Z.land (EFLAGS (ctx s)) 0x400 <> 0 ->
  exists s',
    hav code addr is_writing s = Some (false, s')
    /\ ctx s' = ctx s
    /\ (is_raw_spu_mmio BASE OFFSET PROB addr = false ->
        0 <= addr -> addr + 1 < 2^32 -> vm_base addr = RDI (ctx s) ->
        mem s' = store (mem s) (vm_base_priv addr) 1
                   (if bool_decide (out_op d = X64OP_STOS) then RAX (ctx s)
                    else load (mem s) (RSI (ctx s)) 1)).
Proof.
  intros d Hh Hop Hdf.
  destruct (decode_facts code) as (_ & Hsz & _). fold d in Hsz. specialize (Hsz Hop).
  assert (Hne : out_op d <> X64OP_NONE) by (intros E; rewrite E in Hop; discriminate).
  pose proof (decode_length_pos code Hne) as Hl. fold d in Hl.
  assert (Ea : get_x64_access_size code (ctx s) (out_op d) (out_reg d) (out_size d)
                 (out_length d) = 0).
  { unfold get_x64_access_size. rewrite Hop. apply Z.eqb_neq in Hdf. rewrite Hdf.
    reflexivity. }
  unfold handle_access_violation. rewrite Hh. cbv zeta. fold d. rewrite Ea, Hsz.
  destruct (out_of_range 1 addr) eqn:E1.
  { exists s. split; [reflexivity|]. split; [reflexivity|]. intros _ H0 H1 _.
    rewrite in_range in E1 by lia. discriminate. }
  destruct (out_of_range 0 addr) eqn:E2.
  { exists s. split; [reflexivity|]. split; [reflexivity|]. intros _ H0 H1 _.
    rewrite in_range in E2 by lia. discriminate. }
  destruct (is_raw_spu_mmio BASE OFFSET PROB addr) eqn:Em.
  { rewrite raw_spu_access_block by assumption. exists s.
    split; [reflexivity|]. split; [reflexivity|]. discriminate. }
  unfold ram_access, reservation_query, privileged_access. cbn [ctx mem emit].
  rewrite no_early_exit by lia. change (8 <? 1) with false.
  change (get_x64_reg_value code (ctx s) X64R_RAX 1 (out_length d))
    with (Some (u8 (X64REG (ctx s) 0))).
  change page_fuel with (S 4096).
  destruct (out_op d) eqn:Eop; try discriminate Hop; cbv iota.
  - (* block move *)
    destruct (vm_base addr =? RDI (ctx s)) eqn:Er; cbn [negb].
    + rewrite movs_loop_reversed by exact Hdf. cbn [after_block_loop finish].
      eexists. split; [reflexivity|]. split; [reflexivity|]. intros _ _ _ _.
      cbn [mem with_mem emit]. rewrite bool_decide_eq_false_2 by discriminate. reflexivity.
    + cbn [finish]. eexists. split; [reflexivity|]. split; [reflexivity|].
      intros _ _ _ Hr. apply Z.eqb_neq in Er. contradiction.
  - (* block store *)
    destruct (vm_base addr =? RDI (ctx s)) eqn:Er; cbn [negb].
    + rewrite stos_loop_reversed by exact Hdf. cbn [after_block_loop finish].
      eexists. split; [reflexivity|]. split; [reflexivity|]. intros _ _ _ _.
      cbn [mem with_mem emit]. rewrite bool_decide_eq_true_2 by reflexivity.
      change (Z.to_nat 1) with 1%nat. cbn [store]. unfold u8, RAX.
      now rewrite Z.mod_mod by lia.
    + cbn [finish]. eexists. split; [reflexivity|]. split; [reflexivity|].
      intros _ _ _ Hr. apply Z.eqb_neq in Er. contradiction.
Qed.

End Reversed.

(** [std; rep stosb]: one byte is written, the fault stays unhandled. *)
Lemma reversed_block_operations_are_unhandled_witness :
  let s := mk_state (set_EFLAGS (with_regs [(0, 0xAB); (1, 16); (7, 0x100003000)]
                                           zero_context) 0x400) ∅ [] in
  exists s',
    handle (bytes [0xf3; 0xaa]) 0x3000 true s = Some (false, s')
    /\ ctx s' = ctx s
    /\ mem s' = store ∅ (vm_base_priv 0x3000) 1 0xAB.
Proof.
  intros s.
  destruct (reversed_block_operations_are_unhandled RAW_SPU_BASE_ADDR RAW_SPU_OFFSET
              RAW_SPU_PROB_OFFSET vm_base vm_base_priv no_hook no_thread no_read no_write
              (bytes [0xf3; 0xaa]) 0x3000 true s)
    as (s' & H & H1 & H2); [reflexivity|reflexivity|vm_compute; discriminate|].
  exists s'. split; [exact H|]. split; [exact H1|].
  apply H2; [reflexivity|lia|lia|reflexivity].
Defined.

(** ** The RawSPU register interface *)

Lemma put_well_formed (c c' : x64_context) (reg d_size value : Z) :
  well_formed c -> put_x64_reg_value c reg d_size value = Some c' -> well_formed c'.
Proof.
  intros Hw. unfold put_x64_reg_value. destruct (_ <? 16); [|discriminate].
  intros H. size_cases d_size; try discriminate H; injection H as <-;
    now apply set_X64REG_well_formed.
Qed.

Lemma put_keeps_rip (c c' : x64_context) (reg d_size value : Z) :
  0 <= reg < 2^32 -> put_x64_reg_value c reg d_size value = Some c' -> RIP c' = RIP c.
Proof.
  intros Hr H. unfold RIP.
  apply (put_x64_reg_value_frame c c' reg d_size value 16 H); try lia.
  intros E. subst reg. rewrite put_x64_reg_value_refused in H by lia. discriminate H.
Qed.

Lemma flags_keep_rip (c c' : x64_context) (d_size x y : Z) (carry : bool) :
  well_formed c -> set_x64_cmp_flags c d_size x y carry = Some c' ->
  RIP c' = RIP c /\ well_formed c' /\ xmm c' = xmm c.
Proof.
  intros [Hg Hx] H. destruct (set_x64_cmp_flags_frame _ _ _ _ _ _ H) as [E1 E2].
  unfold RIP, X64REG, well_formed. rewrite E1, E2. auto.
Qed.

Section RawSpu.

Variables BASE OFFSET : Z.
Variable raw_spu_thread : Z -> bool.
Variable read_reg : Z -> Z -> option Z.
Variable write_reg : Z -> Z -> Z -> bool.

Local Notation "'mmio'" := (raw_spu_access BASE OFFSET raw_spu_thread read_reg write_reg).

(** X15. A fault that the RawSPU branch handles is one call of the register
    interface of the thread that owns the window, a read for a read fault
    and a write for a write fault, at the faulting address; emulated memory
    and the vector registers are not touched, and RIP points past the
    instruction. *)
Theorem raw_spu_access_effects
    (code : list byte) (addr : Z) (is_writing : bool) (op : x64_op_t)
    (reg d_size a_size i_size : Z) (s s' : state) :
  well_formed (ctx s) -> 0 <= reg < 2^32 ->
  mmio code addr is_writing op reg d_size a_size i_size s = (true, s') ->
  mem s' = mem s
  /\ xmm (ctx s') = xmm (ctx s)
  /\ RIP (ctx s') = u64 (RIP (ctx s) + i_size)
  /\ exists e,
       trace s' = trace s ++ [e]
       /\ match e with
          | EvReadReg index a => is_writing = false /\ a = addr
                                 /\ index = u32 (addr - BASE) / OFFSET
          | EvWriteReg index a _ => is_writing = true /\ a = addr
                                    /\ index = u32 (addr - BASE) / OFFSET
          | EvReservationQuery _ _ _ => False
          end.
Proof.
  intros Hw Hreg. unfold raw_spu_access.
  destruct (negb (raw_spu_thread _)); [discriminate|].
  destruct (_ || _); [discriminate|].
  destruct op; try discriminate;
    repeat (rewrite bool_decide_eq_false_2 by discriminate);
    repeat (rewrite bool_decide_eq_true_2 by reflexivity);
    destruct is_writing; cbn [negb]; try discriminate;
    try (destruct (read_reg _ _); [|discriminate]);
    cbn [ctx emit];
    try (destruct (get_x64_reg_value _ _ _ _ _); [|discriminate]);
    try match goal with
        | |- context [put_x64_reg_value ?c ?r ?d ?v] =>
          destruct (put_x64_reg_value c r d v) as [c'|] eqn:Ep; [|discriminate];
          pose proof (put_keeps_rip _ _ _ _ _ Hreg Ep) as Hrip;
          pose proof (put_well_formed _ _ _ _ _ Hw Ep) as Hw';
          assert (Hx : xmm c' = xmm (ctx s))
            by (apply (put_x64_reg_value_frame _ _ _ _ _ (reg + 1) Ep); lia)
        | |- context [set_x64_cmp_flags ?c ?d ?x ?y ?b] =>
          destruct (set_x64_cmp_flags c d x y b) as [c'|] eqn:Ep; [|discriminate];
          destruct (flags_keep_rip _ _ _ _ _ _ Hw Ep) as (Hrip & Hw' & Hx)
        | |- context [write_reg ?i ?a ?v] =>
          destruct (write_reg i a v); [|discriminate]
        end;
    cbn [ctx mem trace with_ctx emit];
    intros H; injection H as <-; cbn [ctx mem trace with_ctx emit];
    (split; [reflexivity|]);
    (split; [first [exact Hx | reflexivity]|]);
    (split; [first [rewrite (RIP_advanced c') by assumption; now rewrite Hrip
                   | now rewrite (RIP_advanced (ctx s)) by assumption]|]);
    eexists; (split; [reflexivity|]); cbn; auto.
Qed.

End RawSpu.

(** [mov eax, [rbx]] on a register of RawSPU thread 0. *)
Lemma raw_spu_access_effects_witness :
  let s := start (with_regs [(16, 0x400000)] zero_context) in
  let r := raw_spu_access RAW_SPU_BASE_ADDR RAW_SPU_OFFSET any_thread const_read ok_write
             (bytes [0x8b; 0x03]) 0xE0044000 false X64OP_LOAD 0 4 4 2 s in
  fst r = true
  /\ mem (snd r) = mem s
  /\ RIP (ctx (snd r)) = 0x400002
  /\ trace (snd r) = [EvReadReg 0 0xE0044000].
Proof.
  intros s r.
  destruct (raw_spu_access_effects RAW_SPU_BASE_ADDR RAW_SPU_OFFSET any_thread const_read
              ok_write (bytes [0x8b; 0x03]) 0xE0044000 false X64OP_LOAD 0 4 4 2 s (snd r))
    as (H1 & _ & H3 & _); [split; reflexivity|lia|reflexivity|].
  split; [reflexivity|]. split; [exact H1|]. split; [exact H3|reflexivity].
Defined.

(** ** What an unhandled fault leaves behind *)

Section Unhandled.

Variables BASE OFFSET PROB : Z.
Variables vm_base vm_base_priv : Z -> Z.
Variable hook : option (Z -> bool -> bool).
Variable raw_spu_thread : Z -> bool.
Variable read_reg : Z -> Z -> option Z.
Variable write_reg : Z -> Z -> Z -> bool.

Local Notation "'hav'" :=
  (handle_access_violation BASE OFFSET PROB vm_base vm_base_priv hook
     raw_spu_thread read_reg write_reg).
Local Notation "'mmio'" := (raw_spu_access BASE OFFSET raw_spu_thread read_reg write_reg).
Local Notation "'access'" := (privileged_access vm_base vm_base_priv).

Lemma raw_spu_access_unhandled (code : list byte) (addr : Z) (is_writing : bool)
    (op : x64_op_t) (reg d_size a_size i_size : Z) (s s' : state) :
  mmio code addr is_writing op reg d_size a_size i_size s = (false, s') ->
  ctx s' = ctx s /\ mem s' = mem s.
Proof.
  unfold raw_spu_access.
  repeat match goal with
  | |- context [if ?b then _ else _] => destruct b
  | |- context [match ?o with Some _ => _ | None => _ end] => destruct o
  | |- context [match ?o with X64OP_NONE => _ | _ => _ end] => destruct o
  end; cbn [ctx mem emit with_ctx]; intros H; try discriminate H;
    injection H as <-; split; reflexivity.
Qed.

(** With the direction flag clear a block loop ends by [break]. *)
Lemma stos_loop_forward (fuel : nat) (addr a_addr d_size value reg : Z) (s : state)
    (b : bool) (s' : state) :
  Z.land (EFLAGS (ctx s)) 0x400 = 0 ->
  stos_loop vm_base_priv fuel addr a_addr d_size value reg s <> Return b s'.
Proof.
  revert a_addr s. induction fuel as [|fuel IH]; intros a_addr s Hdf; cbn [stos_loop];
    [discriminate|].
  cbv zeta. destruct (_ =? _); [|discriminate]. cbn [ctx with_mem]. rewrite Hdf.
  cbn [Z.eqb negb]. destruct (reg =? X64_NOT_SET); [discriminate|].
  destruct (_ =? 0); [discriminate|]. apply IH. exact Hdf.
Qed.

Lemma movs_loop_forward (fuel : nat) (addr a_addr d_size reg : Z) (s : state)
    (b : bool) (s' : state) :
  Z.land (EFLAGS (ctx s)) 0x400 = 0 ->
  movs_loop vm_base_priv fuel addr a_addr d_size reg s <> Return b s'.
Proof.
  revert a_addr s. induction fuel as [|fuel IH]; intros a_addr s Hdf; cbn [movs_loop];
    [discriminate|].
  cbv zeta. destruct (_ =? _); [|discriminate]. cbn [ctx with_mem]. rewrite Hdf.
  cbn [Z.eqb negb]. destruct (reg =? X64_NOT_SET); [discriminate|].
  destruct (_ =? 0); [discriminate|]. apply IH. exact Hdf.
Qed.

Lemma stos_loop_unhandled (fuel : nat) (addr a_addr d_size value reg : Z) (s : state)
    (b : bool) (s' : state) :
  stos_loop vm_base_priv fuel addr a_addr d_size value reg s = Return b s' ->
  ctx s' = ctx s.
Proof.
  destruct (Z.eq_dec (Z.land (EFLAGS (ctx s)) 0x400) 0) as [Hdf|Hdf].
  - intros H. now apply stos_loop_forward in H.
  - destruct fuel as [|fuel]; cbn [stos_loop]; [discriminate|]. cbv zeta.
    destruct (_ =? _); [|discriminate]. cbn [ctx with_mem].
    apply Z.eqb_neq in Hdf. rewrite Hdf. cbn [negb]. intros H. now injection H as _ <-.
Qed.

Lemma movs_loop_unhandled (fuel : nat) (addr a_addr d_size reg : Z) (s : state)
    (b : bool) (s' : state) :
  movs_loop vm_base_priv fuel addr a_addr d_size reg s = Return b s' ->
  ctx s' = ctx s.
Proof.
  destruct (Z.eq_dec (Z.land (EFLAGS (ctx s)) 0x400) 0) as [Hdf|Hdf].
  - intros H. now apply movs_loop_forward in H.
  - destruct fuel as [|fuel]; cbn [movs_loop]; [discriminate|]. cbv zeta.
    destruct (_ =? _); [|discriminate]. cbn [ctx with_mem].
    apply Z.eqb_neq in Hdf. rewrite Hdf. cbn [negb]. intros H. now injection H as _ <-.
Qed.

Lemma after_block_loop_unhandled (reg : Z) (o : outcome) (s s' : state) :
  (forall b s1, o = Return b s1 -> ctx s1 = ctx s) ->
  after_block_loop reg o = Return false s' -> ctx s' = ctx s.
Proof.
  intros Ho. destruct o as [s1|b s1|]; cbn [after_block_loop]; try discriminate.
  - destruct (_ || _); discriminate.
  - intros H. injection H as -> <-. now apply (Ho false s1).
Qed.

Lemma rmw_case_unhandled (s s' : state) (addr d_size : Z) (f : Z -> Z)
    (flags : Z -> Z * Z) (carry : bool) :
  rmw_case vm_base_priv s addr d_size f flags carry = Return false s' -> ctx s' = ctx s.
Proof.
  cbv beta iota zeta delta [rmw_case atomic_rmw].
  destruct (negb _); [intros H; now injection H as <-|].
  cbn [ctx with_mem]. destruct (set_x64_cmp_flags _ _ _ _ _); [discriminate|].
  intros H. now injection H as <-.
Qed.

Lemma privileged_access_unhandled (code : list byte) (addr : Z) (op : x64_op_t)
    (reg d_size i_size : Z) (s s' : state) :
  access code addr op reg d_size i_size s = Return false s' -> ctx s' = ctx s.
Proof.
  unfold privileged_access.
  destruct (_ || _); [intros H; now injection H as <-|].
  destruct op; try (intros H; now injection H as <-);
    try solve [destruct (get_x64_reg_value code (ctx s) reg d_size i_size);
               [apply rmw_case_unhandled|intros H; now injection H as <-]];
    try apply rmw_case_unhandled.
  - (* store *)
    repeat match goal with
    | |- context [if ?b then _ else _] => destruct b
    | |- context [match ?o with Some _ => _ | None => _ end] => destruct o
    end; intros H; try discriminate H; now injection H as <-.
  - (* store, big endian *)
    destruct (_ && _); [destruct (_ <=? _); intros H; try discriminate H; now injection H as <-|].
    destruct (get_x64_reg_value _ _ _ _ _); [|intros H; now injection H as <-].
    destruct (bool_decide _).
    + size_cases d_size; intros H; try discriminate H; now injection H as <-.
    + discriminate.
  - (* block move *)
    destruct (8 <? d_size); [intros H; now injection H as <-|].
    destruct (negb _); [intros H; now injection H as <-|].
    apply after_block_loop_unhandled. intros b s1. apply movs_loop_unhandled.
  - (* block store *)
    destruct (8 <? d_size); [intros H; now injection H as <-|].
    destruct (negb _); [intros H; now injection H as <-|].
    destruct (get_x64_reg_value _ _ _ _ _); [|intros H; now injection H as <-].
    apply after_block_loop_unhandled. intros b s1. apply stos_loop_unhandled.
  - (* exchange *)
    destruct (get_x64_reg_value _ _ _ _ _); [|intros H; now injection H as <-].
    destruct (negb _); [intros H; now injection H as <-|].
    cbv beta iota zeta delta [atomic_rmw]. cbn [ctx with_mem].
    destruct (put_x64_reg_value _ _ _ _); [discriminate|].
    intros H. now injection H as <-.
  - (* compare and exchange *)
    destruct (get_x64_reg_value code (ctx s) reg d_size i_size);
      [|intros H; now injection H as <-].
    destruct (get_x64_reg_value code (ctx s) X64R_RAX d_size i_size);
      [|intros H; now injection H as <-].
    destruct (is_access_size d_size) eqn:Hsz; cbn [negb]; [|intros H; now injection H as <-].
    cbv beta iota zeta delta [atomic_rmw]. cbn [ctx with_mem].
    destruct (put_x64_reg_value _ _ _ _) as [c1|]; [|intros H; now injection H as <-].
    match goal with
    | |- context [set_x64_cmp_flags c1 d_size ?x ?y true] =>
      destruct (set_x64_cmp_flags_defined c1 d_size x y true Hsz) as [c2 ->]
    end.
    discriminate.
Qed.

Lemma hav_unhandled_context
    (code : list byte) (addr : Z) (is_writing : bool) (s s' : state) :
  hav code addr is_writing s = Some (false, s') -> ctx s' = ctx s.
Proof.
  unfold handle_access_violation.
  destruct (hook_claims hook addr is_writing); [discriminate|]. cbv zeta.
  destruct (out_of_range _ addr); [intros H; now injection H as <-|].
  destruct (out_of_range _ addr); [intros H; now injection H as <-|].
  destruct (is_raw_spu_mmio BASE OFFSET PROB addr).
  - intros H. injection H as H.
    destruct (raw_spu_access _ _ _ _ _ _ _ _ _ _ _ _ _ _) as [b s1] eqn:E.
    injection H as -> ->. now apply raw_spu_access_unhandled in E.
  - unfold ram_access, reservation_query.
    destruct (privileged_access _ _ _ _ _ _ _ _ _) as [s1|b s1|] eqn:E; cbn [finish];
      try discriminate.
    intros H. injection H as -> ->. now apply privileged_access_unhandled in E.
Qed.

(** X16. A fault that the handler reports as unhandled leaves the register
    context exactly as it found it: no register, flag or RIP update of a
    partly emulated instruction survives (memory may have been written). *)
Theorem unhandled_fault_keeps_context
    (code : list byte) (addr : Z) (is_writing : bool) (s s' : state) :
  hav code addr is_writing s = Some (false, s') -> ctx s' = ctx s.
Proof. apply hav_unhandled_context. Qed.

End Unhandled.

Lemma unhandled_fault_keeps_context_witness :
  exists s',
    handle (bytes [0x86; 0x18]) 0x3000 true xchg_start = Some (false, s')
    /\ ctx s' = ctx xchg_start.
Proof.
  eexists. split; [reflexivity|].
  apply (unhandled_fault_keeps_context RAW_SPU_BASE_ADDR RAW_SPU_OFFSET RAW_SPU_PROB_OFFSET
           vm_base vm_base_priv no_hook no_thread no_read no_write
           (bytes [0x86; 0x18]) 0x3000 true xchg_start).
  reflexivity.
Defined.

(** ** From the fault to the throw *)

Import Fault.

Section FaultEntry.

Variables BASE OFFSET PROB : Z.
Variables vm_base vm_base_priv : Z -> Z.
Variable hook : option (Z -> bool -> bool).
Variable raw_spu_thread : Z -> bool.
Variable read_reg : Z -> Z -> option Z.
Variable write_reg : Z -> Z -> Z -> bool.
Variables ARG1 ARG2 : Z.
Variable is_leaf_function : Z -> bool.
Variable entry : Z.
Variables cause_writing cause_reading : Z.
Variable SIGUSR1 : Z.

Local Notation "'hav'" :=
  (handle_access_violation BASE OFFSET PROB vm_base vm_base_priv hook
     raw_spu_thread read_reg write_reg).
Local Notation "'prepare'" :=
  (prepare_throw_access_violation ARG1 ARG2 is_leaf_function entry).
Local Notation "'on_signal'" :=
  (signal_handler BASE OFFSET PROB vm_base vm_base_priv hook raw_spu_thread read_reg
     write_reg ARG1 ARG2 is_leaf_function entry cause_writing cause_reading SIGUSR1).
Local Notation "'filter'" :=
  (exception_filter vm_base ARG1 ARG2 is_leaf_function entry cause_writing cause_reading).
Local Notation "'on_exception'" :=
  (exception_handler BASE OFFSET PROB vm_base vm_base_priv hook raw_spu_thread read_reg
     write_reg).

Hypothesis ARG1_general : 0 <= ARG1 < 16 /\ ARG1 <> 4.
Hypothesis ARG2_general : 0 <= ARG2 < 16 /\ ARG2 <> 4.

(** The context and the stack that [throw_access_violation] starts with:
    its second argument is the address, and unless the fault was in a leaf
    function the faulting RIP has been pushed as by a call instruction. *)
Lemma prepare_then_throw (cause address : Z) (c c' : x64_context) (t t' : tls)
    (m : memory) :
  well_formed c -> 0 <= RIP c < 2^64 ->
  prepare cause address c t = (c', t') ->
  RIP c' = u64 entry
  /\ X64REG c' ARG2 = address
  /\ (forall r, 0 <= r < 16 -> r <> ARG1 -> r <> ARG2 -> r <> 4 -> X64REG c' r = X64REG c r)
  /\ EFLAGS c' = EFLAGS c /\ xmm c' = xmm c
  /\ g_tls_fault_count t' = g_tls_fault_count t
  /\ if is_leaf_function (RIP c)
     then RSP c' = RSP c /\ throw_access_violation t' m = m
     else RSP c' = u64 (RSP c - 8)
          /\ (RSP c' <> 0 ->
              load (throw_access_violation t' m) (RSP c') 8 = RIP c
              /\ forall q, q < RSP c' \/ RSP c' + 8 <= q ->
                   throw_access_violation t' m !! q = m !! q).
Proof.
  intros [Hg Hx] Hrip. destruct ARG1_general as [H1 H1']. destruct ARG2_general as [H2 H2'].
  unfold prepare_throw_access_violation. cbv zeta.
  assert (Erip : RIP (set_X64REG (set_X64REG c ARG1 (u64 cause)) ARG2 address) = RIP c)
    by (unfold RIP; now regs_simpl).
  assert (Ersp : Fault.RSP (set_X64REG (set_X64REG c ARG1 (u64 cause)) ARG2 address)
                 = Fault.RSP c)
    by (unfold Fault.RSP; now regs_simpl).
  rewrite Erip, Ersp.
  destruct (is_leaf_function (RIP c)); intros H; injection H as <- <-;
    unfold RIP, Fault.RSP in *; cbn [s_tls_ret_pos s_tls_ret_addr g_tls_fault_count].
  - split; [now regs_simpl|]. split; [now regs_simpl|].
    split; [intros r Hr Ha Hb H4; now regs_simpl|].
    split; [reflexivity|]. split; [reflexivity|]. split; [reflexivity|].
    split; [now regs_simpl|reflexivity].
  - split; [now regs_simpl|]. split; [now regs_simpl|].
    split; [intros r Hr Ha Hb H4; now regs_simpl|].
    split; [reflexivity|]. split; [reflexivity|]. split; [reflexivity|].
    regs_simpl. split; [reflexivity|].
    intros Hnz. unfold throw_access_violation. cbn [s_tls_ret_pos s_tls_ret_addr].
    regs_simpl. apply Z.eqb_neq in Hnz. rewrite Hnz. split.
    + rewrite load_store. apply Z.mod_small. exact Hrip.
    + intros q Hq. apply store_other. lia.
Qed.

(** X17. A fault inside the 4 GiB window either is handled, and the thread
    resumes with the context the handler left, or makes the thread resume in
    [throw_access_violation]: with the faulting address as second argument,
    every register other than the two argument registers, RSP and RIP as at
    the fault, and, once [throw_access_violation] has fixed the stack, the
    faulting RIP on top of the stack as the return address of a call. *)
Theorem unhandled_fault_becomes_call
    (sig si_addr err : Z) (code : list byte) (current : bool)
    (s s' : state) (t t' : tls) :
  let addr := u32 (u64 (si_addr - vm_base 0)) in
  let is_writing := negb (Z.land err 0x2 =? 0) in
  well_formed (ctx s) -> 0 <= RIP (ctx s) < 2^64 ->
  is_leaf_function (RIP (ctx s)) = false ->
  on_signal sig si_addr err code current s t = Resume s' t' ->
  (current = true /\ hav code addr is_writing s = Some (true, s'))
  \/ (RIP (ctx s') = u64 entry
      /\ X64REG (ctx s') ARG2 = addr
      /\ (forall r, 0 <= r < 16 -> r <> ARG1 -> r <> ARG2 -> r <> 4 ->
            X64REG (ctx s') r = X64REG (ctx s) r)
      /\ Fault.RSP (ctx s') = u64 (Fault.RSP (ctx s) - 8)
      /\ (Fault.RSP (ctx s') <> 0 ->
          load (throw_access_violation t' (mem s')) (Fault.RSP (ctx s')) 8 = RIP (ctx s))).
Proof.
  intros addr is_writing Hw Hrip Hleaf. unfold signal_handler.
  destruct (sig =? SIGUSR1); [discriminate|]. cbv zeta.
  destruct (_ <? 0x100000000); [|discriminate].
  fold addr. fold is_writing.
  assert (P : forall cause s1 t1,
            ctx s1 = ctx s ->
            (let '(c, t2) := prepare cause addr (ctx s1) t1 in Resume (with_ctx s1 c) t2)
            = Resume s' t' ->
            RIP (ctx s') = u64 entry
            /\ X64REG (ctx s') ARG2 = addr
            /\ (forall r, 0 <= r < 16 -> r <> ARG1 -> r <> ARG2 -> r <> 4 ->
                  X64REG (ctx s') r = X64REG (ctx s) r)
            /\ Fault.RSP (ctx s') = u64 (Fault.RSP (ctx s) - 8)
            /\ (Fault.RSP (ctx s') <> 0 ->
                load (throw_access_violation t' (mem s')) (Fault.RSP (ctx s')) 8
                = RIP (ctx s))).
  { intros cause s1 t1 Hc. rewrite Hc.
    destruct (prepare cause addr (ctx s) t1) as [c t2] eqn:E.
    intros H. injection H as <- <-. cbn [ctx mem with_ctx].
    destruct (prepare_then_throw cause addr (ctx s) c t1 t2 (mem s1) Hw Hrip E)
      as (A1 & A2 & A3 & _ & _ & _ & A4).
    rewrite Hleaf in A4. destruct A4 as [A4 A5].
    repeat split; try assumption. intros Hnz. now apply A5. }
  destruct current; cbn [negb].
  - destruct (hav code addr is_writing s) as [[[] s1]|] eqn:E; try discriminate.
    + intros H. injection H as <- <-. left. split; reflexivity.
    + intros H. right. refine (P _ s1 _ _ H).
      now apply (hav_unhandled_context BASE OFFSET PROB vm_base vm_base_priv hook
                   raw_spu_thread read_reg write_reg code addr is_writing).
  - intros H. right. exact (P _ s _ eq_refl H).
Qed.

(** X18. On Windows the unhandled-exception filter turns an access
    violation into a throw once: it marks the fault counter, and while the
    mark is there (the vectored handler only counts faults) a further
    access violation that reaches the filter is reported as fatal instead of
    being thrown again. *)
Theorem exception_filter_throws_once
    (code1 a0 a1 : Z) (c1 c1' : x64_context) (t1 t1' : tls)
    (code2 b0 b1 : Z) (insn : list byte) (current : bool) (s2 s2' : state) (t2 : tls)
    (d : disposition) (code3 e0 e1 : Z) (c3 : x64_context) :
  g_tls_fault_count t1 + 1 < 2^63 -> 0 <= g_tls_fault_count t1 ->
  filter code1 a0 a1 c1 t1 = Some (c1', t1') ->
  on_exception code2 b0 b1 insn current s2 t1' = Some (d, s2', t2) ->
  filter code3 e0 e1 c3 t2 = None.
Proof.
  intros Hc Hc0. unfold exception_filter at 1.
  destruct (code1 =? _); [|discriminate]. cbv zeta.
  destruct (_ && _); [|discriminate].
  unfold prepare_throw_access_violation. cbv zeta.
  set (n := g_tls_fault_count t1) in *.
  assert (Emark : Z.lor n (Z.shiftl 1 63) = n + 2^63).
  { change (Z.shiftl 1 63) with (2^63). rewrite <- Z.add_nocarry_lor; [reflexivity|].
    apply Z.bits_inj'. intros k Hk. rewrite Z.land_spec, Z.bits_0, Z.pow2_bits_eqb by lia.
    destruct (Z.eqb_spec 63 k) as [<-|]; [|apply andb_false_r].
    rewrite andb_true_r. apply Z.bits_above_log2; [lia|].
    destruct (Z.eq_dec n 0) as [->|]; [cbn; lia|]. apply Z.log2_lt_pow2; lia. }
  assert (Hmarked : forall k, n + 2^63 <= k < 2^64 ->
            (Z.land k (Z.shiftl 1 63) =? 0) = false).
  { intros k Hk. change (Z.shiftl 1 63) with (2^63). rewrite land_pow2_eqb by lia.
    pose proof (testbit_top k 64 ltac:(lia) ltac:(lia)) as T.
    change (64 - 1) with 63 in T. rewrite T. apply negb_false_iff, Z.leb_le. lia. }
  assert (Hfinal : forall t, n + 2^63 <= g_tls_fault_count t < 2^64 ->
                             filter code3 e0 e1 c3 t = None).
  { intros t Ht. unfold exception_filter. destruct (code3 =? _); [|reflexivity].
    cbv zeta. now rewrite (Hmarked _ Ht). }
  assert (Hcount : forall t, g_tls_fault_count t = n + 2^63 ->
            n + 2^63 <= g_tls_fault_count (count_fault t) < 2^64).
  { intros t Ht. unfold count_fault. cbn [g_tls_fault_count]. rewrite Ht.
    unfold u64. rewrite Z.mod_small by lia. lia. }
  intros H1.
  assert (Ht1' : g_tls_fault_count t1' = n + 2^63).
  { destruct (is_leaf_function _); injection H1 as _ <-; cbn [g_tls_fault_count];
      exact Emark. }
  unfold exception_handler. cbv zeta.
  destruct (_ && _).
  - destruct current.
    + destruct (hav _ _ _ _) as [[[] s3]|]; try discriminate;
        intros H; injection H as _ _ <-; apply Hfinal, Hcount, Ht1'.
    + intros H; injection H as _ _ <-; apply Hfinal, Hcount, Ht1'.
  - intros H; injection H as _ _ <-. apply Hfinal. rewrite Ht1'. lia.
Qed.

End FaultEntry.

(** A load from guarded memory, which the handler does not emulate, on a
    Linux thread: RDI and RSI carry the arguments. *)
Lemma unhandled_fault_becomes_call_witness :
  match signal_handler RAW_SPU_BASE_ADDR RAW_SPU_OFFSET RAW_SPU_PROB_OFFSET
          vm_base vm_base_priv no_hook no_thread no_read no_write
          7 6 (fun _ => false) 0x500000 0x600000 0x600008 10
          11 0x100003000 0 (bytes [0x8b; 0x18]) true xchg_start (mk_tls 0 0 0) with
  | Resume s' t' =>
    RIP (ctx s') = 0x500000
    /\ X64REG (ctx s') 6 = 0x3000
    /\ load (throw_access_violation t' (mem s')) (Fault.RSP (ctx s')) 8 = 0x400000
  | _ => False
  end.
Proof.
  destruct (signal_handler _ _ _ _ _ _ _ _ _ _ _ _ _ _ _ _ _ _ _ _ _ _ _)
    as [s' t'| | |] eqn:E; try (vm_compute in E; discriminate E).
  destruct (unhandled_fault_becomes_call RAW_SPU_BASE_ADDR RAW_SPU_OFFSET RAW_SPU_PROB_OFFSET
              vm_base vm_base_priv no_hook no_thread no_read no_write
              7 6 (fun _ => false) 0x500000 0x600000 0x600008 10
              ltac:(lia) ltac:(lia)
              11 0x100003000 0 (bytes [0x8b; 0x18]) true xchg_start s' (mk_tls 0 0 0) t'
              ltac:(split; reflexivity) ltac:(vm_compute; split; [discriminate|reflexivity])
              eq_refl E)
    as [[_ H]|(H1 & H2 & _ & H4 & H5)].
  - vm_compute in H. discriminate H.
  - split; [exact H1|]. split; [exact H2|]. apply H5. rewrite H4. vm_compute. discriminate.
Defined.

(** Two access violations in a row on a Windows thread. *)
Lemma exception_filter_throws_once_witness :
  exception_filter vm_base 1 2 (fun _ => false) 0x500000 0x600000 0x600008
    EXCEPTION_ACCESS_VIOLATION 0 0x100005000 zero_context
    (mk_tls (2^64 - 8) 0 (2^63 + 6)) = None.
Proof.
  apply (exception_filter_throws_once RAW_SPU_BASE_ADDR RAW_SPU_OFFSET RAW_SPU_PROB_OFFSET
           vm_base vm_base_priv no_hook no_thread no_read no_write
           1 2 (fun _ => false) 0x500000 0x600000 0x600008
           EXCEPTION_ACCESS_VIOLATION 1 0x100003000 zero_context
           (set_X64REG (set_X64REG (set_X64REG (set_X64REG zero_context 1 0x600000) 2 0x3000)
                                   4 (2^64 - 8)) 16 0x500000)
           (mk_tls 0 0 5) (mk_tls (2^64 - 8) 0 (2^63 + 5))
           EXCEPTION_ACCESS_VIOLATION 0 0x100004000 [] false (start zero_context)
           (start zero_context) (mk_tls (2^64 - 8) 0 (2^63 + 6))
           EXCEPTION_CONTINUE_SEARCH);
    [vm_compute; reflexivity|vm_compute; discriminate|vm_compute; reflexivity
    |vm_compute; reflexivity].
Defined.

(** ** Interrupts *)

Import Interrupts.

(** The log of a thread that had [pending] posted: nothing yet, the wake-up
    alone (the handler was discarded), or the wake-up and the call. *)
Lemma step_possibilities (pending : option Z) (th : thread) (a : action) :
  (log th = [] /\ interrupt th = pending)
  \/ (interrupt th = None
      /\ exists h, pending = Some h /\ (log th = [Notified] \/ log th = [Notified; Ran h])) ->
  (log (step th a) = [] /\ interrupt (step th a) = pending)
  \/ (interrupt (step th a) = None
      /\ exists h, pending = Some h
                   /\ (log (step th a) = [Notified] \/ log (step th a) = [Notified; Ran h])).
Proof.
  destruct th as [g i l]. cbn [log interrupt].
  intros [[Hl Hi]|(Hi & h & Hp & Hl)]; subst.
  - destruct a as [|u|v]; cbn [step]; [unfold handle_interrupt|unfold test_interrupt|];
      cbn [m_guard interrupt log];
      repeat match goal with
      | |- context [match ?o with Some _ => _ | None => _ end] => destruct o as [h|]
      | |- context [if ?b then _ else _] => destruct b
      end; cbn [log interrupt app];
      first [ left; split; reflexivity
            | right; split; [reflexivity|]; exists h; split; [reflexivity|]; auto ].
  - right. destruct a as [|u|v]; cbn [step]; [unfold handle_interrupt|unfold test_interrupt|];
      cbn [m_guard interrupt log];
      repeat match goal with
      | |- context [if ?b then _ else _] => destruct b
      end; cbn [log interrupt]; (split; [reflexivity|]);
      exists h; (split; [reflexivity|]); exact Hl.
Qed.

Lemma run_possibilities (pending : option Z) (acts : list action) (th : thread) :
  (log th = [] /\ interrupt th = pending)
  \/ (interrupt th = None
      /\ exists h, pending = Some h /\ (log th = [Notified] \/ log th = [Notified; Ran h])) ->
  (log (run acts th) = [] /\ interrupt (run acts th) = pending)
  \/ (interrupt (run acts th) = None
      /\ exists h, pending = Some h
                   /\ (log (run acts th) = [Notified] \/ log (run acts th) = [Notified; Ran h])).
Proof.
  revert th. induction acts as [|a acts IH]; intros th H; [exact H|].
  cbn [run fold_left]. apply IH. now apply step_possibilities.
Qed.

(** X19. However the signal deliveries, the polls and the guard changes of
    a thread follow one another, a posted handler is called at most once,
    only that handler is called, and the sender is woken exactly when the
    handler leaves the slot, before the call: the log is empty with the
    handler still posted, or the slot is empty and the log is the wake-up,
    alone or followed by the one call. *)
Theorem interrupt_runs_at_most_once (acts : list action) (th : thread) :
  log th = [] ->
  let th' := run acts th in
  (log th' = [] /\ interrupt th' = interrupt th)
  \/ (interrupt th' = None
      /\ exists h, interrupt th = Some h
                   /\ (log th' = [Notified] \/ log th' = [Notified; Ran h])).
Proof.
  intros Hl. apply run_possibilities. left. split; [exact Hl|reflexivity].
Qed.

Lemma interrupt_runs_at_most_once_witness :
  log (run [Guard 1; Deliver; Poll false; Guard 0x40000000; Poll false; Deliver; Poll false]
           (mk_thread 0 (Some 0x401000) []))
  = [Notified; Ran 0x401000].
Proof.
  destruct (interrupt_runs_at_most_once
              [Guard 1; Deliver; Poll false; Guard 0x40000000; Poll false; Deliver; Poll false]
              (mk_thread 0 (Some 0x401000) []) eq_refl)
    as [[H _]|(_ & h & Hh & [H|H])].
  - vm_compute in H. discriminate H.
  - vm_compute in H. discriminate H.
  - injection Hh as <-. exact H.
Defined.

Lemma step_disabled (th : thread) (a : action) :
  Z.land (m_guard th) 0x80000000 <> 0 -> keeps_disabled a = true ->
  Forall (fun e => e = Notified) (log th) ->
  Z.land (m_guard (step th a)) 0x80000000 <> 0
  /\ Forall (fun e => e = Notified) (log (step th a))
  /\ match a with
     | Guard _ => interrupt (step th a) = interrupt th
     | _ => interrupt (step th a) = None
     end.
Proof.
  intros Hg Ha Hl. apply Z.eqb_neq in Hg.
  destruct a as [|u|g]; cbn [step]; [unfold handle_interrupt|unfold test_interrupt|].
  - rewrite Hg. cbn [negb]. apply Z.eqb_neq in Hg.
    destruct (interrupt th); cbn [m_guard log interrupt]; repeat split; auto.
    apply Forall_app. split; [assumption|]. constructor; [reflexivity|constructor].
  - rewrite Hg. cbn [negb]. apply Z.eqb_neq in Hg.
    destruct (interrupt th); cbn [m_guard log interrupt]; repeat split; auto.
    apply Forall_app. split; [assumption|]. constructor; [reflexivity|constructor].
  - cbn [m_guard log interrupt keeps_disabled] in *. apply negb_true_iff, Z.eqb_neq in Ha.
    repeat split; auto.
Qed.

(** X20. While interrupts stay disabled (bit 31 of the guard) no handler is
    ever called, whatever is delivered or polled: all the thread does is
    wake the sender, and after the first delivery or poll the slot is
    empty. *)
Theorem disabled_interrupts_never_run (acts : list action) (th : thread) :
  Z.land (m_guard th) 0x80000000 <> 0 ->
  forallb keeps_disabled acts = true ->
  log th = [] ->
  Forall (fun e => e = Notified) (log (run acts th))
  /\ (existsb (fun a => match a with Guard _ => false | _ => true end) acts = true ->
      interrupt (run acts th) = None).
Proof.
  intros Hg Ha Hl.
  assert (G : forall acts th,
            Z.land (m_guard th) 0x80000000 <> 0 -> forallb keeps_disabled acts = true ->
            Forall (fun e => e = Notified) (log th) ->
            Forall (fun e => e = Notified) (log (run acts th))
            /\ ((interrupt th = None
                 \/ existsb (fun a => match a with Guard _ => false | _ => true end) acts
                    = true) ->
                interrupt (run acts th) = None)).
  { clear. induction acts as [|a acts IH]; intros th Hg Ha Hl.
    - cbn. split; [exact Hl|]. intros [H|H]; [exact H|discriminate H].
    - cbn [forallb] in Ha. apply andb_true_iff in Ha as [Ha1 Ha2].
      destruct (step_disabled th a Hg Ha1 Hl) as (S1 & S2 & S3).
      cbn [run fold_left]. destruct (IH (step th a) S1 Ha2 S2) as [I1 I2].
      split; [exact I1|]. intros H. apply I2. cbn [existsb] in H.
      destruct a as [|u|g].
      + left. exact S3.
      + left. exact S3.
      + cbn [orb] in H. destruct H as [H|H]; [left; now rewrite S3|right; exact H]. }
  destruct (G acts th Hg Ha) as [G1 G2]; [rewrite Hl; constructor|].
  split; [exact G1|]. intros H. apply G2. now right.
Qed.

Lemma disabled_interrupts_never_run_witness :
  let th := run [Deliver; Guard 0x80000002; Poll false] (mk_thread 0x80000001 (Some 0x401000) []) in
  Forall (fun e => e = Notified) (log th) /\ interrupt th = None.
Proof.
  destruct (disabled_interrupts_never_run [Deliver; Guard 0x80000002; Poll false]
              (mk_thread 0x80000001 (Some 0x401000) []))
    as [H1 H2]; [vm_compute; discriminate|reflexivity|reflexivity|].
  split; [exact H1|apply H2; reflexivity].
Defined.

Section InstalledCall.

Variable is_leaf_function : Z -> bool.
Variable entry : Z.

Local Notation "'install'" := (install_function_call is_leaf_function entry).

(** X21. On Windows the interrupt handler is run as a call installed on the
    interrupted context, and a handler that returns resumes the thread where
    it was: after [execute_interrupt_handler], RIP, RSP and every other
    general register, the flags and the vector registers are those of the
    interrupted context, and the stack slot borrowed for the return address
    holds its old contents again. *)
Theorem installed_call_round_trip
    (handler : memory -> option memory)
    (c c1 c2 : x64_context) (t t1 t2 : tls) (m m2 : memory) :
  well_formed c -> byte_memory m ->
  0 <= RIP c < 2^64 -> 0 <= Fault.RSP c < 2^64 -> Fault.RSP c <> 8 ->
  (forall m0 m', handler m0 = Some m' ->
     load m' (s_tls_ret_pos t1) 8 = load m0 (s_tls_ret_pos t1) 8) ->
  install c t = (c1, t1) ->
  execute_interrupt_handler handler c1 t1 m = Some (c2, t2, m2) ->
  (forall r, 0 <= r <= 16 -> X64REG c2 r = X64REG c r)
  /\ EFLAGS c2 = EFLAGS c /\ xmm c2 = xmm c
  /\ (is_leaf_function (RIP c) = false ->
      load m2 (u64 (Fault.RSP c - 8)) 8 = load m (u64 (Fault.RSP c - 8)) 8).
Proof.
  intros [Hg Hx] Hm Hrip Hrsp Hne Hh.
  unfold install_function_call, execute_interrupt_handler. cbv zeta.
  destruct (is_leaf_function (RIP c)) eqn:Hleaf; intros H; injection H as <- <-;
    cbn [s_tls_ret_pos s_tls_ret_addr g_tls_fault_count] in *.
  - change (0 =? 0) with true. cbv iota.
    destruct (handler m) as [m'|]; [|discriminate]. cbv iota.
    intros H. injection H as <- _ _.
    split; [|split; [reflexivity|split; [reflexivity|discriminate]]].
    intros r Hr. unfold RIP in *. destruct (Z.eq_dec r 16) as [->|]; now regs_simpl.
  - unfold Fault.RSP, RIP in *. regs_simpl.
    set (pos := u64 (X64REG c 4 - 8)) in *.
    assert (Hpos : pos <> 0).
    { subst pos. unfold u64. destruct (Z_lt_le_dec (X64REG c 4) 8).
      - replace (X64REG c 4 - 8) with (X64REG c 4 - 8 + 2^64 + (-1) * 2^64) by lia.
        rewrite Z.mod_add, Z.mod_small by lia. lia.
      - rewrite Z.mod_small by lia. lia. }
    assert (E4 : X64REG (set_X64REG c 4 pos) 4 = pos) by (apply X64REG_set_same; lia).
    rewrite ?E4 in *.
    apply Z.eqb_neq in Hpos. rewrite Hpos. cbv iota.
    cbn [s_tls_ret_pos s_tls_ret_addr].
    destruct (handler _) as [m'|] eqn:E; [|discriminate]. rewrite Hpos.
    apply Hh in E. rewrite load_store in E.
    intros H.
    pose proof (f_equal (fun o => match o with Some (x, _, _) => x | None => c2 end) H)
      as Hc2.
    pose proof (f_equal (fun o => match o with Some (_, _, x) => x | None => m2 end) H)
      as Hm2.
    cbv beta iota in Hc2, Hm2. subst c2 m2. clear H.
    split; [|split; [reflexivity|split; [reflexivity|]]].
    + intros r Hr. regs_simpl.
      destruct (Z.eq_dec r 4) as [->|]; [|destruct (Z.eq_dec r 16) as [->|]]; regs_simpl.
      * subst pos. unfold u64. rewrite Zplus_mod_idemp_l.
        replace (X64REG c 4 - 8 + 8) with (X64REG c 4) by lia. apply Z.mod_small. lia.
      * rewrite E. apply Z.mod_small. exact Hrip.
      * reflexivity.
    + intros _. rewrite load_store. apply Z.mod_small. now apply (load_range m pos 8).
Qed.

End InstalledCall.

Lemma installed_call_round_trip_witness :
  let c := with_regs [(4, 0x7fff0000); (16, 0x400000)] zero_context in
  let m := store ∅ 0x7ffefff8 8 0xdeadbeef in
  match install_function_call (fun _ => false) 0x500000 c (mk_tls 0 0 0) with
  | (c1, t1) =>
    match execute_interrupt_handler (fun m => Some m) c1 t1 m with
    | Some (c2, _, m2) =>
      RIP c2 = 0x400000 /\ Fault.RSP c2 = 0x7fff0000 /\ load m2 0x7ffefff8 8 = 0xdeadbeef
    | None => False
    end
  end.
Proof.
  intros c m.
  destruct (install_function_call _ _ c _) as [c1 t1] eqn:E1.
  destruct (execute_interrupt_handler _ c1 t1 m) as [[[c2 t2] m2]|] eqn:E2;
    [|vm_compute in E1; injection E1 as <- <-; vm_compute in E2; discriminate E2].
  destruct (installed_call_round_trip (fun _ => false) 0x500000 (fun m => Some m)
              c c1 c2 (mk_tls 0 0 0) t1 t2 m m2) as (H1 & _ & _ & H4);
    [split; reflexivity|apply store_byte_memory, byte_memory_empty
    |vm_compute; split; [discriminate|reflexivity]
    |vm_compute; split; [discriminate|reflexivity]
    |vm_compute; discriminate
    |intros m0 m' H; now injection H as <-
    |exact E1|exact E2|].
  split; [apply (H1 16); lia|]. split; [apply (H1 4); lia|].
  apply (H4 eq_refl).
Defined.

(** ** Segment overrides *)

Ltac close_fields :=
  cbv beta iota;
  change (byte_val xc5 =? 197) with true; change (byte_val xc4 =? 197) with false;
  cbv beta iota;
  split_ifs; cbv beta iota delta [out_op out_reg out_size unsupported];
  solve [repeat split; reflexivity].

(** The operation, operand and size depend on the REX byte and the four
    prefix flags, not on the segment override or on the bytes counted. *)
Lemma decode_opcode_fields (p p' : prefixes) (n n' : Z) (code : list byte) :
  rex p' = rex p -> oso p' = oso p -> lock p' = lock p ->
  repne p' = repne p -> repe p' = repe p ->
  out_op (decode_opcode p' n' code) = out_op (decode_opcode p n code)
  /\ out_reg (decode_opcode p' n' code) = out_reg (decode_opcode p n code)
  /\ out_size (decode_opcode p' n' code) = out_size (decode_opcode p n code).
Proof.
  intros H1 H2 H3 H4 H5. index_stream. rewrite H1, H2, H3, H4, H5.
  destruct (nth 0 code x00) eqn:E0; cbv beta iota; try solve [close_fields].
  - destruct (nth 1 code x00) eqn:E1; cbv beta iota; try solve [close_fields].
    destruct (nth 2 code x00) eqn:E2; cbv beta iota; close_fields.
  - change (byte_val xc4 =? 197) with false; cbv beta iota.
    destruct (nth 3 code x00) eqn:E3; close_fields.
  - change (byte_val xc5 =? 197) with true; cbv beta iota.
    destruct (nth 2 code x00) eqn:E3; close_fields.
Qed.

Lemma seg_is_prefix (b : byte) : is_seg b = true -> is_prefix_byte b = true.
Proof. destruct b; try discriminate; reflexivity. Qed.

Lemma seg_is_no_flag (b : byte) :
  is_seg b = true ->
  is_rex b = false /\ Byte.eqb x66 b = false /\ Byte.eqb xf0 b = false
  /\ Byte.eqb xf2 b = false /\ Byte.eqb xf3 b = false.
Proof. destruct b; try discriminate; intros _; repeat split; reflexivity. Qed.

(** X22. A segment-override prefix is transparent to the decoder: put in
    front of an instruction it leaves the operation, the operand and the
    size as they are and makes the instruction one byte longer. *)
Theorem segment_override_is_transparent (b : byte) (code : list byte) :
  is_seg b = true ->
  let d := decode_x64_reg_op code in
  let d' := decode_x64_reg_op (b :: code) in
  out_op d' = out_op d /\ out_reg d' = out_reg d /\ out_size d' = out_size d
  /\ (out_op d <> X64OP_NONE -> out_length d' = out_length d + 1).
Proof.
  intros Hb. cbv zeta. pose proof (seg_is_prefix b Hb) as Hp.
  destruct (seg_is_no_flag b Hb) as (Hr & F1 & F2 & F3 & F4).
  unfold decode_x64_reg_op. rewrite scan_prefixes_cons, Hp.
  pose proof (scan_prefixes_spec code no_prefixes 0) as S0.
  pose proof (scan_prefixes_spec code (apply_prefix b no_prefixes) (0 + 1)) as S1.
  destruct (apply_prefix_flags b no_prefixes Hp) as (A1 & A2 & A3 & A4).
  rewrite F1 in A1. rewrite F2 in A2. rewrite F3 in A3. rewrite F4 in A4.
  assert (Arex : rex (apply_prefix b no_prefixes) = rex no_prefixes).
  { destruct b; try discriminate Hb; reflexivity. }
  destruct (scan_prefixes code no_prefixes 0) as [q|q m rest];
    destruct (scan_prefixes code (apply_prefix b no_prefixes) (0 + 1)) as [q'|q' m' rest'].
  - repeat split; try reflexivity. intros H. now contradiction H.
  - now destruct S1 as (S1 & _).
  - now destruct S0 as (S0 & _).
  - destruct S0 as (_ & -> & -> & R0 & _ & O0 & L0 & N0 & E0).
    destruct S1 as (_ & -> & -> & R1 & _ & O1 & L1 & N1 & E1).
    rewrite Arex in R1. rewrite A1 in O1. rewrite A2 in L1. rewrite A3 in N1.
    rewrite A4 in E1. rewrite !orb_false_r in *.
    assert (Hrex : rex q' = rex q) by congruence. assert (Hoso : oso q' = oso q) by congruence.
    assert (Hlock : lock q' = lock q) by congruence.
    assert (Hrepne : repne q' = repne q) by congruence.
    assert (Hrepe : repe q' = repe q) by congruence.
    destruct (decode_opcode_fields q q' (0 + Z.of_nat (length (prefix_run code)))
                (0 + 1 + Z.of_nat (length (prefix_run code))) (body code)
                Hrex Hoso Hlock Hrepne Hrepe) as (D1 & D2 & D3).
    split; [exact D1|]. split; [exact D2|]. split; [exact D3|].
    intros Hop. rewrite (decode_opcode_length q _ _ Hop).
    rewrite <- D1 in Hop. rewrite (decode_opcode_length q' _ _ Hop). rewrite Hoso. lia.
Qed.

(** [mov fs:[rax], ebx] against [mov [rax], ebx]. *)
Lemma segment_override_is_transparent_witness :
  out_op (decode_x64_reg_op (x64 :: bytes [0x89; 0x18])) = X64OP_STORE
  /\ out_reg (decode_x64_reg_op (x64 :: bytes [0x89; 0x18])) = X64R_RBX
  /\ out_length (decode_x64_reg_op (x64 :: bytes [0x89; 0x18])) = 3.
Proof.
  destruct (segment_override_is_transparent x64 (bytes [0x89; 0x18]) eq_refl)
    as (H1 & H2 & _ & H4).
  split; [rewrite H1; reflexivity|]. split; [rewrite H2; reflexivity|].
  rewrite H4; [reflexivity|vm_compute; discriminate].
Defined.

(** ** Read-modify-write instructions *)

Import Arithmetic.

Lemma land_trunc_r (d a b : Z) : 0 <= d -> trunc d (Z.land a (trunc d b)) = trunc d (Z.land a b).
Proof.
  intros Hd. unfold trunc. apply Z.bits_inj'. intros k Hk.
  destruct (Z_lt_le_dec k (8 * d)).
  - rewrite !Z.mod_pow2_bits_low, !Z.land_spec, Z.mod_pow2_bits_low by lia. reflexivity.
  - rewrite !Z.mod_pow2_bits_high by lia. reflexivity.
Qed.

Lemma lor_trunc_r (d a b : Z) : 0 <= d -> trunc d (Z.lor a (trunc d b)) = trunc d (Z.lor a b).
Proof.
  intros Hd. unfold trunc. apply Z.bits_inj'. intros k Hk.
  destruct (Z_lt_le_dec k (8 * d)).
  - rewrite !Z.mod_pow2_bits_low, !Z.lor_spec, Z.mod_pow2_bits_low by lia. reflexivity.
  - rewrite !Z.mod_pow2_bits_high by lia. reflexivity.
Qed.

Lemma lxor_trunc_r (d a b : Z) :
  0 <= d -> trunc d (Z.lxor a (trunc d b)) = trunc d (Z.lxor a b).
Proof.
  intros Hd. unfold trunc. apply Z.bits_inj'. intros k Hk.
  destruct (Z_lt_le_dec k (8 * d)).
  - rewrite !Z.mod_pow2_bits_low, !Z.lxor_spec, Z.mod_pow2_bits_low by lia. reflexivity.
  - rewrite !Z.mod_pow2_bits_high by lia. reflexivity.
Qed.

Lemma trunc_range (d v : Z) : 0 <= d -> 0 <= trunc d v < 2^(8 * d).
Proof. intros Hd. unfold trunc. apply Z.mod_pos_bound. apply Z.pow_pos_nonneg; lia. Qed.

Lemma group1_op_rmw (z : Z) :
  group1_op z <> X64OP_INC /\ group1_op z <> X64OP_DEC.
Proof.
  destruct z as [|q|q]; try (split; discriminate);
    do 4 (try (destruct q as [q|q|]; try (split; discriminate))).
Qed.

Lemma group1_op8_rmw (z : Z) :
  group1_op8 z <> X64OP_INC /\ group1_op8 z <> X64OP_DEC.
Proof.
  destruct z as [|q|q]; try (split; discriminate);
    do 4 (try (destruct q as [q|q|]; try (split; discriminate))).
Qed.

Lemma group3_op_rmw (z : Z) :
  group3_op z <> X64OP_INC /\ group3_op z <> X64OP_DEC /\ is_rmw (group3_op z) = false.
Proof. destruct z; repeat split; discriminate. Qed.

Ltac close_rmw :=
  cbv beta iota;
  change (byte_val xc5 =? 197) with true; change (byte_val xc4 =? 197) with false;
  cbv beta iota;
  split_ifs; cbv beta iota delta [out_op out_size unsupported];
  solve
    [ split; [split; discriminate|discriminate]
    | split; [split; discriminate|intros _; reflexivity]
    | split; [split; discriminate|];
      intros _; match goal with
      | |- context [get_op_size ?r ?o] =>
        destruct (get_op_size_cases r o) as [->|[-> | ->]]; reflexivity
      end
    | split; [first [apply group1_op_rmw | apply group1_op8_rmw]|];
      first [ intros _; reflexivity
            | intros _; match goal with
              | |- context [get_op_size ?r ?o] =>
                destruct (get_op_size_cases r o) as [->|[-> | ->]]; reflexivity
              end ]
    | split; [split; apply group3_op_rmw|];
      rewrite (proj2 (proj2 (group3_op_rmw _))); discriminate ].

(** No [case] of the decoder assigns [X64OP_INC] or [X64OP_DEC], and a
    read-modify-write operation is decoded with an operand of 1, 2, 4 or 8
    bytes. *)
Lemma decode_opcode_rmw (p : prefixes) (n : Z) (code : list byte) :
  let d := decode_opcode p n code in
  (out_op d <> X64OP_INC /\ out_op d <> X64OP_DEC)
  /\ (is_rmw (out_op d) = true -> is_access_size (out_size d) = true).
Proof.
  cbv zeta. index_stream.
  destruct (nth 0 code x00) eqn:E0; cbv beta iota; try solve [close_rmw].
  - destruct (nth 1 code x00) eqn:E1; cbv beta iota; try solve [close_rmw].
    destruct (nth 2 code x00) eqn:E2; cbv beta iota; close_rmw.
  - change (byte_val xc4 =? 197) with false; cbv beta iota.
    destruct (nth 3 code x00) eqn:E3; close_rmw.
  - change (byte_val xc5 =? 197) with true; cbv beta iota.
    destruct (nth 2 code x00) eqn:E3; close_rmw.
Qed.

Lemma decode_never_inc_dec (code : list byte) :
  out_op (decode_x64_reg_op code) <> X64OP_INC
  /\ out_op (decode_x64_reg_op code) <> X64OP_DEC.
Proof.
  unfold decode_x64_reg_op.
  destruct (scan_prefixes code no_prefixes 0) as [q|q m rest].
  - split; discriminate.
  - apply decode_opcode_rmw.
Qed.

Lemma decode_rmw_size (code : list byte) :
  is_rmw (out_op (decode_x64_reg_op code)) = true ->
  is_access_size (out_size (decode_x64_reg_op code)) = true.
Proof.
  unfold decode_x64_reg_op.
  destruct (scan_prefixes code no_prefixes 0) as [q|q m rest].
  - discriminate.
  - apply decode_opcode_rmw.
Qed.

Section ReadModifyWrite.

Variables BASE OFFSET PROB : Z.
Variables vm_base vm_base_priv : Z -> Z.
Variable hook : option (Z -> bool -> bool).
Variable raw_spu_thread : Z -> bool.
Variable read_reg : Z -> Z -> option Z.
Variable write_reg : Z -> Z -> Z -> bool.

Local Notation "'hav'" :=
  (handle_access_violation BASE OFFSET PROB vm_base vm_base_priv hook
     raw_spu_thread read_reg write_reg).
Local Notation "'access'" := (privileged_access vm_base vm_base_priv).

(** What the callback does for a read-modify-write instruction, in one
    equation. *)
Lemma access_rmw (code : list byte) (addr : Z) (op : x64_op_t) (reg d_size i_size : Z)
    (s : state) (v : Z) :
  is_rmw op = true -> is_access_size d_size = true -> 1 <= i_size ->
  get_x64_reg_value code (ctx s) reg d_size i_size = Some v ->
  exists x y carry c',
    let new := trunc d_size (rmw_result op (load (mem s) (vm_base_priv addr) (Z.to_nat d_size))
                                        v (Z.land (EFLAGS (ctx s)) 1)) in
    set_x64_cmp_flags (ctx s) d_size x y carry = Some c'
    /\ (is_bitwise op = true -> x = new /\ y = 0 /\ carry = true)
    /\ access code addr op reg d_size i_size s
       = Break (mk_state c' (store (mem s) (vm_base_priv addr) (Z.to_nat d_size) new)
                         (trace s)).
Proof.
  intros Hop Hsz Hi Hv. pose proof (is_access_size_range _ Hsz) as Hd.
  unfold privileged_access. rewrite no_early_exit by lia.
  assert (G : forall f flags carry new,
            trunc d_size (f (load (mem s) (vm_base_priv addr) (Z.to_nat d_size))) = new ->
            exists c',
              set_x64_cmp_flags (ctx s) d_size (fst (flags new)) (snd (flags new)) carry
              = Some c'
              /\ rmw_case vm_base_priv s addr d_size f flags carry
                 = Break (mk_state c' (store (mem s) (vm_base_priv addr) (Z.to_nat d_size) new)
                                   (trace s))).
  { intros f flags carry new Hnew. cbv beta iota zeta delta [rmw_case atomic_rmw].
    rewrite Hsz. cbn [negb ctx with_mem]. rewrite Hnew.
    destruct (set_x64_cmp_flags_defined (ctx s) d_size (fst (flags new)) (snd (flags new))
                carry Hsz) as [c' Hc].
    exists c'. split; [exact Hc|]. now rewrite Hc. }
  unfold trunc in *.
  destruct op; try discriminate Hop; cbn [rmw_result is_bitwise];
    rewrite Hv;
    match goal with
    | |- context [rmw_case _ _ _ _ ?f ?flags ?carry] =>
      edestruct (G f flags carry) as (c' & Hc & ->);
        [|do 4 eexists; split; [exact Hc|split;
            [first [discriminate | intros _; repeat split; reflexivity]|reflexivity]]]
    end; cbv beta.
  - apply (land_trunc_r d_size); lia.
  - apply (lor_trunc_r d_size); lia.
  - apply (lxor_trunc_r d_size); lia.
  - apply Zplus_mod_idemp_r.
  - rewrite Zplus_mod_idemp_r. f_equal. lia.
  - apply Zminus_mod_idemp_r.
  - rewrite Zminus_mod_idemp_r. f_equal. lia.
Qed.

(** X24. The decoder yields no INC and no DEC, so of the read-modify-write
    cases of the handler those of AND, OR, XOR, ADD, ADC, SUB and SBB are the
    ones a fault can reach.  Such an instruction faulting on guarded memory
    is carried out on the memory operand: afterwards it holds the result of
    the operation on the old contents, the other operand and, for ADC and
    SBB, the carry flag, truncated to the operand size; no other byte of
    memory changes and RIP points past the instruction. *)
Theorem rmw_updates_memory
    (code : list byte) (addr : Z) (is_writing : bool) (s : state) (v : Z) :
  let d := decode_x64_reg_op code in
  let n := Z.to_nat (out_size d) in
  let p := vm_base_priv addr in
  (out_op d <> X64OP_INC /\ out_op d <> X64OP_DEC)
  /\ (hook_claims hook addr is_writing = false ->
      is_raw_spu_mmio BASE OFFSET PROB addr = false ->
      is_rmw (out_op d) = true ->
      get_x64_reg_value code (ctx s) (out_reg d) (out_size d) (out_length d) = Some v ->
      well_formed (ctx s) ->
      0 <= addr -> addr + out_size d < 2^32 ->
      exists s',
        hav code addr is_writing s = Some (true, s')
        /\ load (mem s') p n
           = trunc (out_size d)
               (rmw_result (out_op d) (load (mem s) p n) v (Z.land (EFLAGS (ctx s)) 1))
        /\ (forall q, q < p \/ p + out_size d <= q -> mem s' !! q = mem s !! q)
        /\ RIP (ctx s') = u64 (RIP (ctx s) + out_length d)).
Proof.
  intros d n p. split; [apply decode_never_inc_dec|].
  intros Hh Hm Hop Hv Hw Ha Hr.
  pose proof (decode_rmw_size code Hop) as Hsz. fold d in Hsz.
  pose proof (is_access_size_range _ Hsz) as Hd.
  assert (Hne : out_op d <> X64OP_NONE) by (intros E; rewrite E in Hop; discriminate).
  pose proof (decode_length_pos code Hne) as Hl. fold d in Hl.
  assert (Ea : get_x64_access_size code (ctx s) (out_op d) (out_reg d) (out_size d)
                 (out_length d) = out_size d).
  { unfold get_x64_access_size. destruct (out_op d); try discriminate Hop; reflexivity. }
  rewrite hav_ram_path; fold d; rewrite ?Ea; try assumption; try (apply in_range; lia).
  destruct (access_rmw code addr (out_op d) (out_reg d) (out_size d) (out_length d)
              (emit (EvReservationQuery addr (u32 (out_size d)) is_writing) s) v
              Hop Hsz Hl Hv) as (x & y & carry & c' & Hc & _ & ->).
  cbn [ctx mem emit trace] in *. cbn [finish].
  destruct (set_x64_cmp_flags_frame _ _ _ _ _ _ Hc) as [Hg Hx].
  eexists. split; [reflexivity|]. cbn [ctx mem with_ctx].
  split; [|split].
  - subst n p. rewrite load_store. unfold trunc.
    replace (8 * Z.of_nat (Z.to_nat (out_size d))) with (8 * out_size d) by lia.
    apply Z.mod_mod. apply Z.pow_nonzero; lia.
  - intros q Hq. apply store_other. subst n p. lia.
  - assert (Hw' : well_formed c') by (destruct Hw; split; congruence).
    rewrite (RIP_advanced c') by assumption. unfold RIP, X64REG. now rewrite Hg.
Qed.

(** X25. After AND, OR or XOR on guarded memory the status flags are those
    of the processor for the result now in memory: CF and OF are clear, ZF
    says whether the result is zero, SF is its top bit and PF the parity of
    its low byte. *)
Theorem bitwise_flags
    (code : list byte) (addr : Z) (is_writing : bool) (s s' : state) (v : Z) :
  let d := decode_x64_reg_op code in
  let w := 8 * out_size d in
  let result := load (mem s') (vm_base_priv addr) (Z.to_nat (out_size d)) in
  hook_claims hook addr is_writing = false ->
  is_raw_spu_mmio BASE OFFSET PROB addr = false ->
  is_bitwise (out_op d) = true ->
  is_access_size (out_size d) = true ->
  get_x64_reg_value code (ctx s) (out_reg d) (out_size d) (out_length d) = Some v ->
  0 <= addr -> addr + out_size d < 2^32 ->
  hav code addr is_writing s = Some (true, s') ->
  Z.testbit (EFLAGS (ctx s')) CF = false
  /\ Z.testbit (EFLAGS (ctx s')) OF = false
  /\ Z.testbit (EFLAGS (ctx s')) ZF = (result =? 0)
  /\ Z.testbit (EFLAGS (ctx s')) SF = Z.testbit result (w - 1)
  /\ Z.testbit (EFLAGS (ctx s')) PF = Z.even (ones result).
Proof.
  intros d w result Hh Hm Hop Hsz Hv Ha Hr.
  pose proof (is_access_size_range _ Hsz) as Hd.
  assert (Hrmw : is_rmw (out_op d) = true) by (destruct (out_op d); try discriminate; reflexivity).
  assert (Hne : out_op d <> X64OP_NONE) by (intros E; rewrite E in Hop; discriminate).
  pose proof (decode_length_pos code Hne) as Hl. fold d in Hl.
  assert (Ea : get_x64_access_size code (ctx s) (out_op d) (out_reg d) (out_size d)
                 (out_length d) = out_size d).
  { unfold get_x64_access_size. destruct (out_op d); try discriminate Hop; reflexivity. }
  rewrite hav_ram_path; fold d; rewrite ?Ea; try assumption; try (apply in_range; lia).
  destruct (access_rmw code addr (out_op d) (out_reg d) (out_size d) (out_length d)
              (emit (EvReservationQuery addr (u32 (out_size d)) is_writing) s) v
              Hrmw Hsz Hl Hv) as (x & y & carry & c' & Hc & Hb & ->).
  destruct (Hb Hop) as (-> & -> & ->). cbn [ctx mem emit trace] in *. cbn [finish].
  intros H. injection H as <-. subst result. cbn [ctx mem with_ctx].
  set (new := trunc (out_size d) _) in *.
  assert (Hnew : 0 <= new < 2^(8 * out_size d)) by (apply trunc_range; lia).
  rewrite load_store.
  replace (8 * Z.of_nat (Z.to_nat (out_size d))) with (8 * out_size d) by lia.
  rewrite (Z.mod_small new) by exact Hnew.
  change (EFLAGS (set_X64REG c' 16 (u64 (RIP c' + out_length d)))) with (EFLAGS c').
  pose proof (flags_against_zero (ctx s) c' (out_size d) new Hsz Hnew Hc) as F.
  destruct (sub_flags_testbit (out_size d) new 0) as (S0 & S2 & _ & S6 & S7 & S11).
  rewrite (F CF), (F OF), (F ZF), (F SF), (F PF) by reflexivity.
  rewrite S0, S2, S6, S7, S11. rewrite Z.sub_0_r, (Z.mod_small new) by exact Hnew.
  assert (Hp : 0 < 2^(8 * out_size d - 1)) by (apply Z.pow_pos_nonneg; lia).
  pose proof (pow2_double (8 * out_size d) ltac:(lia)) as Hdbl.
  split; [apply Z.ltb_ge; lia|]. split; [|split; [reflexivity|split; [|reflexivity]]].
  - unfold as_signed. replace (0 <? 2^(8 * out_size d - 1)) with true
      by (symmetry; apply Z.ltb_lt; lia).
    apply orb_false_iff. rewrite Z.ltb_ge, Z.leb_gt.
    destruct (new <? 2^(8 * out_size d - 1)) eqn:E;
      [apply Z.ltb_lt in E|apply Z.ltb_ge in E]; lia.
  - subst w. symmetry. apply testbit_top; lia.
Qed.

End ReadModifyWrite.

(** [lock add dword [rax], 5] and [lock and [rax], ebx] with EBX = 0x55 and
    0x66 in memory. *)
Lemma rmw_updates_memory_witness :
  exists s',
    handle (bytes [0xf0; 0x83; 0x00; 0x05]) 0x3000 true xchg_start = Some (true, s')
    /\ load (mem s') (vm_base_priv 0x3000) 4 = 0x6b
    /\ RIP (ctx s') = 0x400004.
Proof.
  destruct (rmw_updates_memory RAW_SPU_BASE_ADDR RAW_SPU_OFFSET RAW_SPU_PROB_OFFSET
              vm_base vm_base_priv no_hook no_thread no_read no_write
              (bytes [0xf0; 0x83; 0x00; 0x05]) 0x3000 true xchg_start 5) as [_ R].
  destruct R as (s' & H & H1 & _ & H3);
    [reflexivity|reflexivity|reflexivity|reflexivity|split; reflexivity|lia
    |vm_compute; reflexivity|].
  exists s'. split; [exact H|]. split; [exact H1|exact H3].
Defined.

(** Each of the seven operations is reached by some instruction. *)
Lemma rmw_operations_are_decoded :
  map (fun code => out_op (decode_x64_reg_op (bytes code)))
      [[0xf0; 0x21; 0x18]; [0xf0; 0x83; 0x08; 0x01]; [0xf0; 0x83; 0x30; 0x01];
       [0xf0; 0x83; 0x00; 0x01]; [0xf0; 0x83; 0x10; 0x01]; [0xf0; 0x83; 0x28; 0x01];
       [0xf0; 0x83; 0x18; 0x01]]
  = [X64OP_AND; X64OP_OR; X64OP_XOR; X64OP_ADD; X64OP_ADC; X64OP_SUB; X64OP_SBB].
Proof. reflexivity. Qed.

Lemma bitwise_flags_witness :
  exists s',
    handle (bytes [0xf0; 0x21; 0x18]) 0x3000 true xchg_start = Some (true, s')
    /\ load (mem s') (vm_base_priv 0x3000) 4 = 0x44
    /\ Z.testbit (EFLAGS (ctx s')) ZF = false
    /\ Z.testbit (EFLAGS (ctx s')) PF = true.
Proof.
  eexists. split; [vm_compute; reflexivity|]. split; [reflexivity|].
  match goal with
  | |- context [ctx ?st] =>
    destruct (bitwise_flags RAW_SPU_BASE_ADDR RAW_SPU_OFFSET RAW_SPU_PROB_OFFSET
                vm_base vm_base_priv no_hook no_thread no_read no_write
                (bytes [0xf0; 0x21; 0x18]) 0x3000 true xchg_start st 0x55)
      as (_ & _ & H3 & _ & H5);
      [reflexivity|reflexivity|reflexivity|reflexivity|reflexivity|lia
      |vm_compute; reflexivity|vm_compute; reflexivity|]
  end.
  split; [exact H3|exact H5].
Defined.

(** ** A single block move *)

Section SingleMove.

Variables BASE OFFSET PROB : Z.
Variables vm_base vm_base_priv : Z -> Z.
Variable hook : option (Z -> bool -> bool).
Variable raw_spu_thread : Z -> bool.
Variable read_reg : Z -> Z -> option Z.
Variable write_reg : Z -> Z -> Z -> bool.

Local Notation "'hav'" :=
  (handle_access_violation BASE OFFSET PROB vm_base vm_base_priv hook
     raw_spu_thread read_reg write_reg).

Lemma movs_loop_single (fuel : nat) (addr d_size : Z) (s : state) :
  Z.land (EFLAGS (ctx s)) 0x400 = 0 ->
  movs_loop vm_base_priv (S fuel) addr addr d_size X64_NOT_SET s
  = Break (mk_state (set_X64REG (set_X64REG (ctx s) 6 (u64 (RSI (ctx s) + d_size))) 7
                       (u64 (RDI (set_X64REG (ctx s) 6 (u64 (RSI (ctx s) + d_size)))
                             + d_size)))
                    (store (mem s) (vm_base_priv addr) (Z.to_nat d_size)
                           (load (mem s) (RSI (ctx s)) (Z.to_nat d_size)))
                    (trace s)).
Proof.
  intros Hdf. cbn [movs_loop]. cbv zeta. rewrite Z.eqb_refl. cbn [ctx with_mem mem trace].
  rewrite Hdf. reflexivity.
Qed.

(** X26. MOVSB without a repeat prefix to guarded memory copies one byte:
    the byte RSI points to is stored at the faulting address, RSI and RDI
    advance by one, the other general registers keep their values and RIP
    points past the instruction. *)
Theorem movs_copies_one_byte
    (code : list byte) (addr : Z) (is_writing : bool) (s : state) :
  let d := decode_x64_reg_op code in
  hook_claims hook addr is_writing = false ->
  is_raw_spu_mmio BASE OFFSET PROB addr = false ->
  out_op d = X64OP_MOVS -> out_reg d = X64_NOT_SET ->
  well_formed (ctx s) -> Z.land (EFLAGS (ctx s)) 0x400 = 0 ->
  vm_base addr = RDI (ctx s) ->
  0 <= addr -> addr + 1 < 2^32 ->
  exists s',
    hav code addr is_writing s = Some (true, s')
    /\ mem s' = <[vm_base_priv addr := default 0 (mem s !! RSI (ctx s)) mod 2^8]> (mem s)
    /\ RSI (ctx s') = u64 (RSI (ctx s) + 1)
    /\ RDI (ctx s') = u64 (RDI (ctx s) + 1)
    /\ (forall r, 0 <= r < 16 -> r <> 6 -> r <> 7 -> X64REG (ctx s') r = X64REG (ctx s) r)
    /\ RIP (ctx s') = u64 (RIP (ctx s) + out_length d).
Proof.
  intros d Hh Hm Hop Hreg Hw Hdf Hrdi Ha Hr.
  destruct (decode_facts code) as (_ & Hsz & _). fold d in Hsz.
  assert (Hblock : is_block_op (out_op d) = true) by (rewrite Hop; reflexivity).
  specialize (Hsz Hblock).
  assert (Hne : out_op d <> X64OP_NONE) by (rewrite Hop; discriminate).
  pose proof (decode_length_pos code Hne) as Hl. fold d in Hl.
  assert (Ea : get_x64_access_size code (ctx s) (out_op d) (out_reg d) (out_size d)
                 (out_length d) = 1).
  { unfold get_x64_access_size. rewrite Hblock, Hdf, Hop, Hreg, Hsz. reflexivity. }
  rewrite hav_ram_path; fold d; rewrite ?Ea, ?Hsz; try assumption; try (apply in_range; lia).
  unfold privileged_access. cbn [ctx mem emit].
  rewrite no_early_exit by lia. rewrite Hop, Hreg. change (8 <? 1) with false. cbv iota.
  rewrite Hrdi, Z.eqb_refl. cbn [negb].
  change page_fuel with (S 4096). rewrite movs_loop_single by exact Hdf.
  cbn [after_block_loop]. change (X64_NOT_SET =? X64_NOT_SET) with true. cbn [orb finish].
  destruct Hw as [Hg Hx].
  eexists. split; [reflexivity|]. cbn [ctx mem trace with_ctx emit].
  unfold RSI, RDI, RIP in *. change (Z.to_nat 1) with 1%nat. cbn [store load].
  split; [|split; [|split; [|split]]].
  - f_equal. rewrite Z.mul_0_r, Z.add_0_r. reflexivity.
  - now regs_simpl.
  - now regs_simpl.
  - intros r H0 H6 H7. now regs_simpl.
  - now regs_simpl.
Qed.

End SingleMove.

(** [movsb] with the source byte 0x5a at RSI. *)
Lemma movs_copies_one_byte_witness :
  let s := mk_state (with_regs [(6, 0x7000); (7, 0x100003000); (16, 0x400000)] zero_context)
                    (store ∅ 0x7000 1 0x5a) [] in
  exists s',
    handle (bytes [0xa4]) 0x3000 true s = Some (true, s')
    /\ mem s' !! vm_base_priv 0x3000 = Some 0x5a
    /\ RSI (ctx s') = 0x7001 /\ RIP (ctx s') = 0x400001.
Proof.
  intros s.
  destruct (movs_copies_one_byte RAW_SPU_BASE_ADDR RAW_SPU_OFFSET RAW_SPU_PROB_OFFSET
              vm_base vm_base_priv no_hook no_thread no_read no_write
              (bytes [0xa4]) 0x3000 true s)
    as (s' & H & H1 & H2 & _ & _ & H5);
    [reflexivity|reflexivity|reflexivity|reflexivity|split; reflexivity|reflexivity
    |reflexivity|lia|lia|].
  exists s'. split; [exact H|]. split; [rewrite H1; apply mem_insert_same|].
  split; [exact H2|exact H5].
Defined.

(** ** Block operations at a page boundary *)

Section BlockBoundary.

Variables BASE OFFSET PROB : Z.
Variables vm_base vm_base_priv : Z -> Z.
Variable hook : option (Z -> bool -> bool).
Variable raw_spu_thread : Z -> bool.
Variable read_reg : Z -> Z -> option Z.
Variable write_reg : Z -> Z -> Z -> bool.

Local Notation "'hav'" :=
  (handle_access_violation BASE OFFSET PROB vm_base vm_base_priv hook
     raw_spu_thread read_reg write_reg).

(** The rule for the instruction pointer, for every block move and block
    store the handler handles. *)
Lemma hav_block_rip (code : list byte) (addr : Z) (is_writing : bool) (s s' : state) :
  let d := decode_x64_reg_op code in
  hook_claims hook addr is_writing = false ->
  well_formed (ctx s) ->
  is_block_op (out_op d) = true ->
  hav code addr is_writing s = Some (true, s') ->
  if (out_reg d =? X64_NOT_SET) || (RCX (ctx s') =? 0)
  then RIP (ctx s') = u64 (RIP (ctx s) + out_length d)
  else RIP (ctx s') = RIP (ctx s).
Proof.
  intros d Hh Hw Hop. unfold handle_access_violation. rewrite Hh. cbv zeta. fold d.
  destruct (out_of_range (out_size d) addr); [discriminate|].
  destruct (out_of_range _ addr); [discriminate|].
  destruct (is_raw_spu_mmio BASE OFFSET PROB addr).
  { rewrite raw_spu_access_block by exact Hop. discriminate. }
  unfold ram_access, reservation_query. intros H.
  apply (block_op_rip vm_base vm_base_priv code addr (out_op d) (out_reg d) (out_size d)
           (out_length d) _ s' Hop) in H; [|exact Hw].
  exact (proj2 H).
Qed.

(** REP STOSB with five bytes to go and two bytes left in the page. *)
Lemma hav_stos_two_bytes (code : list byte) (addr : Z) (is_writing : bool) (s : state) :
  let d := decode_x64_reg_op code in
  let al := u8 (RAX (ctx s)) in
  hook_claims hook addr is_writing = false ->
  is_raw_spu_mmio BASE OFFSET PROB addr = false ->
  out_op d = X64OP_STOS -> out_reg d <> X64_NOT_SET ->
  well_formed (ctx s) -> Z.land (EFLAGS (ctx s)) 0x400 = 0 ->
  vm_base addr = RDI (ctx s) ->
  0 <= addr -> addr + 5 < 2^32 -> addr mod 4096 = 4094 -> RCX (ctx s) = 5 ->
  exists s',
    hav code addr is_writing s = Some (true, s')
    /\ mem s' = store (store (mem s) (vm_base_priv addr) 1 al) (vm_base_priv (addr + 1)) 1 al
    /\ RCX (ctx s') = 3
    /\ RDI (ctx s') = u64 (RDI (ctx s) + 2)
    /\ RIP (ctx s') = RIP (ctx s)
    /\ trace s' = trace s ++ [EvReservationQuery addr 5 is_writing].
Proof.
  intros d al Hh Hm Hop Hreg Hw Hdf Hrdi Ha Hr Hpage Hc.
  destruct (decode_facts code) as (_ & Hsz & _). fold d in Hsz.
  assert (Hblock : is_block_op (out_op d) = true) by (rewrite Hop; reflexivity).
  specialize (Hsz Hblock).
  destruct (decode_block_reg code Hblock) as [Hns|Hcnt]; [contradiction|]. fold d in Hcnt.
  assert (Hne : out_op d <> X64OP_NONE) by (rewrite Hop; discriminate).
  pose proof (decode_length_pos code Hne) as Hl. fold d in Hl.
  assert (Ea : get_x64_access_size code (ctx s) (out_op d) (out_reg d) (out_size d)
                 (out_length d) = 5).
  { unfold get_x64_access_size. rewrite Hblock, Hdf. cbn [Z.eqb negb andb].
    apply Z.eqb_neq in Hreg. rewrite Hreg. cbn [negb].
    rewrite (get_counter code (ctx s) (out_reg d) (out_length d) Hcnt) by (rewrite Hc; lia).
    rewrite Hsz, Hc. reflexivity. }
  rewrite hav_ram_path; fold d; rewrite ?Ea, ?Hsz; try assumption; try (apply in_range; lia).
  unfold privileged_access. cbn [ctx mem emit].
  rewrite no_early_exit by lia. rewrite Hop. change (8 <? 1) with false. cbv iota.
  rewrite Hrdi, Z.eqb_refl. cbn [negb].
  change (get_x64_reg_value code (ctx s) X64R_RAX 1 (out_length d))
    with (Some (u8 (X64REG (ctx s) 0))). cbv iota.
  change (u32 5) with 5.
  set (s0 := mk_state (ctx s) (mem s) (trace s ++ [EvReservationQuery addr 5 is_writing])).
  destruct (stos_loop_run vm_base_priv (u8 (X64REG (ctx s) 0)) (out_reg d) addr 2
              Hreg ltac:(split; lia) page_fuel addr s0)
    as (s1 & R & R1 & R2 & R3 & R4 & R5).
  - unfold page_fuel. lia.
  - lia.
  - exact Hdf.
  - exact Hw.
  - lia.
  - reflexivity.
  - change (Z.of_nat 2) with 2. replace (addr + 2 - 1) with (addr + 1) by lia.
    apply same_page. lia.
  - cbn [ctx s0]. rewrite Hc. change (Z.of_nat 2) with 2. lia.
  - right. change (Z.of_nat 2) with 2.
    replace (addr + 2) with (addr + (4096 - addr mod 4096)) by lia.
    rewrite next_page. lia.
  - cbn [ctx mem s0] in R1, R2, R3, R5. rewrite Hc in R1. change (Z.of_nat 2) with 2 in *.
    change (stos_loop vm_base_priv page_fuel addr addr 1 (u8 (X64REG (ctx s) 0)) (out_reg d)
              (emit (EvReservationQuery addr 5 is_writing) s))
      with (stos_loop vm_base_priv page_fuel addr addr 1 (u8 (X64REG (ctx s) 0)) (out_reg d) s0).
    rewrite R. cbn [after_block_loop]. apply Z.eqb_neq in Hreg. rewrite Hreg. cbn [orb].
    rewrite R1. change (5 - 2 =? 0) with false. cbv iota. cbn [finish].
    exists s1. split; [reflexivity|]. split; [exact R5|]. split; [exact R1|].
    split; [exact R2|]. split; [unfold RIP; apply R3; lia|].
    pose proof (stos_loop_frame vm_base_priv page_fuel addr addr 1 (u8 (X64REG (ctx s) 0))
                  (out_reg d) s0) as F.
    rewrite R in F. cbn [outcome_holds] in F. exact (proj2 F).
Qed.

(** C4. A repeated byte store (the element size the decoder yields for a
    block store) with counter 5, ascending, that faults two bytes below the
    end of a 4096-byte page performs exactly two element writes and stops at
    the page boundary: the counter is left at 3, the fault is handled and
    the instruction pointer is unchanged.  And for every block move or block
    store the handler handles, the instruction pointer is advanced exactly
    when the instruction has no counter or its counter is exhausted. *)
Theorem block_store_stops_at_page_boundary
    (code : list byte) (addr : Z) (is_writing : bool) (s : state) :
  let d := decode_x64_reg_op code in
  let al := u8 (RAX (ctx s)) in
  hook_claims hook addr is_writing = false ->
  well_formed (ctx s) ->
  is_block_op (out_op d) = true ->
  (forall s',
     hav code addr is_writing s = Some (true, s') ->
     if (out_reg d =? X64_NOT_SET) || (RCX (ctx s') =? 0)
     then RIP (ctx s') = u64 (RIP (ctx s) + out_length d)
     else RIP (ctx s') = RIP (ctx s))
  /\ (out_op d = X64OP_STOS -> out_reg d <> X64_NOT_SET ->
      is_raw_spu_mmio BASE OFFSET PROB addr = false ->
      Z.land (EFLAGS (ctx s)) 0x400 = 0 -> vm_base addr = RDI (ctx s) ->
      0 <= addr -> addr + 5 < 2^32 -> addr mod 4096 = 4094 -> RCX (ctx s) = 5 ->
      exists s',
        hav code addr is_writing s = Some (true, s')
        /\ mem s' = store (store (mem s) (vm_base_priv addr) 1 al)
                          (vm_base_priv (addr + 1)) 1 al
        /\ RCX (ctx s') = 3
        /\ RDI (ctx s') = u64 (RDI (ctx s) + 2)
        /\ RIP (ctx s') = RIP (ctx s)
        /\ trace s' = trace s ++ [EvReservationQuery addr 5 is_writing]).
Proof.
  intros d al Hh Hw Hop. split.
  - intros s' H. now apply (hav_block_rip code addr is_writing s s').
  - intros. now apply hav_stos_two_bytes.
Qed.

End BlockBoundary.

(** [rep stosb] with RCX = 5 faulting two bytes below the end of page
    0x10. *)
Lemma block_store_stops_at_page_boundary_witness :
  let s := start (with_regs [(0, 0xAABBCCDD); (1, 5); (7, vm_base 0x10ffe); (16, 0x400000)]
                            zero_context) in
  let code := bytes [0xf3; 0xaa] in
  (forall s',
     handle code 0x10ffe true s = Some (true, s') ->
     if (X64R_ECX =? X64_NOT_SET) || (RCX (ctx s') =? 0)
     then RIP (ctx s') = u64 (RIP (ctx s) + 2)
     else RIP (ctx s') = RIP (ctx s))
  /\ exists s',
       handle code 0x10ffe true s = Some (true, s')
       /\ mem s' = store (store (mem s) (vm_base_priv 0x10ffe) 1 0xDD)
                         (vm_base_priv 0x10fff) 1 0xDD
       /\ RCX (ctx s') = 3
       /\ RDI (ctx s') = vm_base 0x11000
       /\ RIP (ctx s') = 0x400000
       /\ trace s' = [EvReservationQuery 0x10ffe 5 true].
Proof.
  intros s code.
  destruct (block_store_stops_at_page_boundary RAW_SPU_BASE_ADDR RAW_SPU_OFFSET
              RAW_SPU_PROB_OFFSET vm_base vm_base_priv no_hook no_thread no_read no_write
              code 0x10ffe true s) as [H1 H2];
    [reflexivity|split; reflexivity|reflexivity|].
  split; [exact H1|].
  apply H2; [reflexivity|vm_compute; discriminate|reflexivity|reflexivity|reflexivity
            |lia|lia|reflexivity|reflexivity].
Defined.

(** The 4-byte form, [rep stosd] (F3 AB), in the situation of the worked
    case, eight bytes below the end of the page: the decoder has no case for
    0xAB, the fault is unhandled and nothing is written. *)
Lemma rep_stos_dword_is_unhandled :
  let s := start (with_regs [(0, 0xAABBCCDD); (1, 5); (7, vm_base 0x10ff8); (16, 0x400000)]
                            zero_context) in
  decode_x64_reg_op (bytes [0xf3; 0xab]) = unsupported
  /\ exists s',
       handle (bytes [0xf3; 0xab]) 0x10ff8 true s = Some (false, s')
       /\ mem s' = mem s /\ ctx s' = ctx s.
Proof.
  cbv zeta. split; [reflexivity|]. eexists. split; [vm_compute; reflexivity|].
  split; reflexivity.
Qed.

(** ** The flag routine in full *)

Lemma add_flags_testbit (d_size x y : Z) :
  let w := 8 * d_size in
  let s := as_signed w x + as_signed w y in
  Z.testbit (add_flags d_size x y) CF = (2^w <=? x + y)
  /\ Z.testbit (add_flags d_size x y) AF = (16 <=? x mod 16 + y mod 16)
  /\ Z.testbit (add_flags d_size x y) OF = ((s <? - 2^(w - 1)) || (2^(w - 1) <=? s)).
Proof.
  unfold add_flags. cbv zeta.
  generalize (2 ^ (8 * d_size) <=? x + y),
    (Z.even (ones ((x + y) mod 2 ^ (8 * d_size)))), (16 <=? x mod 16 + y mod 16),
    ((x + y) mod 2 ^ (8 * d_size) =? 0), (2 ^ (8 * d_size - 1) <=? (x + y) mod 2 ^ (8 * d_size)),
    ((as_signed (8 * d_size) x + as_signed (8 * d_size) y <? - 2 ^ (8 * d_size - 1))
     || (2 ^ (8 * d_size - 1) <=? as_signed (8 * d_size) x + as_signed (8 * d_size) y)).
  intros [] [] [] [] [] []; repeat split; reflexivity.
Qed.

Lemma testbit_quotient (a i : Z) : 0 <= i -> Z.testbit a i = Z.odd (a / 2^i).
Proof. intros Hi. now rewrite Z.testbit_odd, Z.shiftr_div_pow2. Qed.

(** The quotient of a sum: the quotients and the carry of the remainders. *)
Lemma quotient_of_sum (x y h : Z) :
  0 < h ->
  (x + y) / h = x / h + y / h + (if h <=? x mod h + y mod h then 1 else 0).
Proof.
  intros Hh. pose proof (Z.div_mod x h ltac:(lia)) as Ex.
  pose proof (Z.div_mod y h ltac:(lia)) as Ey.
  pose proof (Z.mod_pos_bound x h Hh). pose proof (Z.mod_pos_bound y h Hh).
  destruct (h <=? x mod h + y mod h) eqn:E; [apply Z.leb_le in E|apply Z.leb_gt in E].
  - symmetry. apply (Z.div_unique _ _ _ (x mod h + y mod h - h)); lia.
  - symmetry. apply (Z.div_unique _ _ _ (x mod h + y mod h)); lia.
Qed.

Lemma low_bits_split (x h : Z) :
  0 < h -> x mod (h * 2) = x mod h + h * (if Z.odd (x / h) then 1 else 0).
Proof. intros Hh. rewrite Z.rem_mul_r by lia. now rewrite Zmod_odd. Qed.

Lemma odd_carry (a b : Z) (c : bool) :
  Z.odd (a + b + (if c then 1 else 0)) = xorb (xorb (Z.odd a) (Z.odd b)) c.
Proof. rewrite !Z.odd_add. now destruct c. Qed.

(** Case analysis on every comparison of the goal. *)
Ltac compare_cases :=
  repeat (match goal with
          | |- context [?a <=? ?b] => destruct (Z.leb_spec a b)
          | |- context [?a <? ?b] => destruct (Z.ltb_spec a b)
          | H : context [?a <=? ?b] |- _ => destruct (Z.leb_spec a b)
          | H : context [?a <? ?b] |- _ => destruct (Z.ltb_spec a b)
          end; cbv beta iota in *);
  change (Z.odd 1) with true; change (Z.odd 0) with false;
  cbn [xorb andb orb negb];
  first [reflexivity | exfalso; lia].

(** Bit [i] of the vector [(x & y) | ((x ^ y) & ~(x + y))] is the carry of
    the addition out of bit [i]. *)
Lemma carry_vector_bit (x y i : Z) :
  0 <= i < 64 ->
  Z.testbit (carry_vector x y) i = (2^(i + 1) <=? x mod 2^(i + 1) + y mod 2^(i + 1)).
Proof.
  intros Hi. unfold carry_vector, u64.
  rewrite Z.lor_spec, !Z.land_spec, Z.lxor_spec, Z.lnot_spec by lia.
  rewrite Z.mod_pow2_bits_low by lia. rewrite !testbit_quotient by lia.
  replace (2^(i + 1)) with (2^i * 2) by (rewrite Z.pow_add_r by lia; reflexivity).
  assert (Hh : 0 < 2^i) by (apply Z.pow_pos_nonneg; lia).
  set (h := 2^i) in *.
  rewrite (quotient_of_sum x y h Hh), odd_carry, !low_bits_split by exact Hh.
  pose proof (Z.mod_pos_bound x h Hh). pose proof (Z.mod_pos_bound y h Hh).
  destruct (Z.odd (x / h)), (Z.odd (y / h)); compare_cases.
Qed.

(** The top bit of the vector [(x ^ (x + y)) & (y ^ (x + y))] is the signed
    overflow of the addition. *)
Lemma overflow_vector_bit (x y w : Z) :
  0 < w <= 64 -> 0 <= x < 2^w -> 0 <= y < 2^w ->
  Z.testbit (overflow_vector x y) (w - 1)
  = ((as_signed w x + as_signed w y <? - 2^(w - 1))
     || (2^(w - 1) <=? as_signed w x + as_signed w y)).
Proof.
  intros Hw Hx Hy. unfold overflow_vector, u64.
  rewrite Z.land_spec, !Z.lxor_spec. rewrite Z.mod_pow2_bits_low by lia.
  rewrite (testbit_top x w), (testbit_top y w) by lia.
  rewrite (testbit_quotient (x + y)) by lia.
  assert (Hp : 2^w = 2 * 2^(w - 1)).
  { replace w with (Z.succ (w - 1)) at 1 by lia. apply Z.pow_succ_r. lia. }
  assert (Hh : 0 < 2^(w - 1)) by (apply Z.pow_pos_nonneg; lia).
  unfold as_signed. rewrite Hp in *. set (h := 2^(w - 1)) in *.
  rewrite (quotient_of_sum x y h Hh), odd_carry.
  assert (Qx : x / h = if h <=? x then 1 else 0).
  { destruct (h <=? x) eqn:E; [apply Z.leb_le in E|apply Z.leb_gt in E].
    - symmetry. apply (Z.div_unique _ _ _ (x - h)); lia.
    - apply Z.div_small. lia. }
  assert (Qy : y / h = if h <=? y then 1 else 0).
  { destruct (h <=? y) eqn:E; [apply Z.leb_le in E|apply Z.leb_gt in E].
    - symmetry. apply (Z.div_unique _ _ _ (y - h)); lia.
    - apply Z.div_small. lia. }
  assert (Mx : x mod h = if h <=? x then x - h else x).
  { pose proof (Z.div_mod x h ltac:(lia)) as E. rewrite Qx in E.
    destruct (h <=? x); lia. }
  assert (My : y mod h = if h <=? y then y - h else y).
  { pose proof (Z.div_mod y h ltac:(lia)) as E. rewrite Qy in E.
    destruct (h <=? y); lia. }
  rewrite Qx, Qy, Mx, My. compare_cases.
Qed.

(** What the flag routine leaves in EFLAGS, bit by bit: ZF, SF and PF are
    those of the comparison [x - y]; CF, AF and OF are those of the addition
    [x + y]; every other bit is kept. *)
Lemma flags_of_routine (c c' : x64_context) (d_size x y : Z) :
  is_access_size d_size = true ->
  0 <= x < 2^(8 * d_size) -> 0 <= y < 2^(8 * d_size) ->
  set_x64_cmp_flags c d_size x y true = Some c' ->
  forall k, 0 <= k ->
    Z.testbit (EFLAGS c') k
    = if (k =? ZF) || (k =? SF) || (k =? PF) then Z.testbit (sub_flags d_size x y) k
      else if (k =? CF) || (k =? AF) || (k =? OF) then Z.testbit (add_flags d_size x y) k
      else Z.testbit (EFLAGS c) k.
Proof.
  intros Hsz Hx Hy H k Hk.
  destruct (result_flags_agree c c' d_size x y true Hsz Hx Hy H) as (R6 & R7 & R2).
  pose proof (set_x64_cmp_flags_bits _ _ _ _ _ _ H) as B.
  destruct (add_flags_testbit d_size x y) as (A0 & A4 & A11).
  assert (Hw : 8 <= 8 * d_size <= 64) by (apply is_access_size_cases in Hsz; lia).
  destruct (Z.eq_dec k ZF) as [->|N6]; [exact R6|].
  destruct (Z.eq_dec k SF) as [->|N7]; [exact R7|].
  destruct (Z.eq_dec k PF) as [->|N2]; [exact R2|].
  replace ((k =? ZF) || (k =? SF) || (k =? PF)) with false
    by (symmetry; rewrite !orb_false_iff; repeat split; now apply Z.eqb_neq).
  destruct (Z.eq_dec k CF) as [->|N0].
  { rewrite (B CF) by (unfold CF; lia). rewrite A0.
    unfold CF, AF, PF, OF, SF, ZF. cbn [Z.eqb Pos.eqb orb].
    rewrite sign_mask, land_pow2_eqb, negb_involutive by (assumption || lia).
    rewrite carry_vector_bit by lia. replace (8 * d_size - 1 + 1) with (8 * d_size) by lia.
    now rewrite !Z.mod_small by lia. }
  destruct (Z.eq_dec k AF) as [->|N4].
  { rewrite (B AF) by (unfold AF; lia). rewrite A4.
    unfold CF, AF, PF, OF, SF, ZF. cbn [Z.eqb Pos.eqb orb].
    change 8 with (2^3) at 1. rewrite land_pow2_eqb, negb_involutive by lia.
    rewrite carry_vector_bit by lia. reflexivity. }
  destruct (Z.eq_dec k OF) as [->|N11].
  { rewrite (B OF) by (unfold OF; lia). rewrite A11.
    unfold CF, AF, PF, OF, SF, ZF. cbn [Z.eqb Pos.eqb orb].
    rewrite sign_mask, land_pow2_eqb, negb_involutive by (assumption || lia).
    apply overflow_vector_bit; lia. }
  replace ((k =? CF) || (k =? AF) || (k =? OF)) with false
    by (symmetry; rewrite !orb_false_iff; repeat split; now apply Z.eqb_neq).
  rewrite (B k Hk).
  apply Z.eqb_neq in N6, N7, N2, N0, N4, N11. now rewrite N6, N7, N2, N0, N4, N11.
Qed.

(** ** Compare and exchange with equal operands *)

Lemma disjoint_lor (a b m1 m2 : Z) :
  Z.land m1 m2 = 0 -> Z.lor (Z.land a m1) (Z.land b m2) = Z.land a m1 + Z.land b m2.
Proof.
  intros Hm. symmetry. apply Z.add_nocarry_lor. apply Z.bits_inj'. intros k Hk.
  rewrite !Z.land_spec, Z.bits_0.
  pose proof (f_equal (fun z => Z.testbit z k) Hm) as E. cbv beta in E.
  rewrite Z.land_spec, Z.bits_0 in E.
  destruct (Z.testbit m1 k), (Z.testbit m2 k); try discriminate E;
    now rewrite ?andb_false_r, ?andb_false_l.
Qed.

Lemma split_mask (a m1 m2 : Z) :
  Z.land m1 m2 = 0 -> Z.land a (Z.lor m1 m2) = Z.land a m1 + Z.land a m2.
Proof. intros Hm. rewrite Z.land_lor_distr_r. now apply disjoint_lor. Qed.

(** The register after [put_x64_reg_value]: the value written below, and
    above it bits 8..31 (16..31) of the old register for sizes 1 and 2,
    nothing for sizes 4 and 8. *)
Lemma put_value (c c' : x64_context) (reg d_size value : Z) :
  well_formed c -> 0 <= reg < 16 -> 0 <= value < 2^(8 * d_size) ->
  put_x64_reg_value c reg d_size value = Some c' ->
  X64REG c' reg
  = value + (if d_size <? 4
             then X64REG c reg mod 2^32 - X64REG c reg mod 2^(8 * d_size) else 0).
Proof.
  intros [Hg _] Hr Hv. unfold put_x64_reg_value.
  rewrite general_register_test by assumption. unfold X64R_RAX. rewrite Z.sub_0_r.
  assert (Hn : (Z.to_nat reg < length (gregs c))%nat) by lia.
  set (old := X64REG c reg).
  assert (E32 : Z.land old 0xffffffff = old mod 2^32)
    by (change 0xffffffff with (2^32 - 1); apply land_ones_mod; lia).
  intros H. size_cases d_size; try discriminate H; injection H as <-;
    rewrite X64REG_set_same by assumption; cbv beta iota.
  - change (1 <? 4) with true. cbv iota. change (8 * 1) with 8 in *.
    rewrite (disjoint_lor value old 0xff 0xffffff00) by reflexivity.
    pose proof (split_mask old 0xffffff00 0xff eq_refl) as S.
    change (Z.lor 0xffffff00 0xff) with 0xffffffff in S.
    change 0xff with (2^8 - 1) in *. rewrite !land_ones_mod in * by lia.
    rewrite (Z.mod_small value) by lia. lia.
  - change (2 <? 4) with true. cbv iota. change (8 * 2) with 16 in *.
    rewrite (disjoint_lor value old 0xffff 0xffff0000) by reflexivity.
    pose proof (split_mask old 0xffff0000 0xffff eq_refl) as S.
    change (Z.lor 0xffff0000 0xffff) with 0xffffffff in S.
    change 0xffff with (2^16 - 1) in *. rewrite !land_ones_mod in * by lia.
    rewrite (Z.mod_small value) by lia. lia.
  - change (4 <? 4) with false. cbv iota. change (8 * 4) with 32 in *.
    change 0xffffffff with (2^32 - 1). rewrite land_ones_mod by lia.
    rewrite Z.mod_small by lia. lia.
  - change (8 <? 4) with false. cbv iota. lia.
Qed.

Section EqualOperands.

Variables BASE OFFSET PROB : Z.
Variables vm_base vm_base_priv : Z -> Z.
Variable hook : option (Z -> bool -> bool).
Variable raw_spu_thread : Z -> bool.
Variable read_reg : Z -> Z -> option Z.
Variable write_reg : Z -> Z -> Z -> bool.

Local Notation "'hav'" :=
  (handle_access_violation BASE OFFSET PROB vm_base vm_base_priv hook
     raw_spu_thread read_reg write_reg).

(** C5. A compare-exchange whose operand register holds the value of the
    accumulator at the access width has access size 0, which is what the
    reservation query is given.  The callback still compares and swaps the
    backing memory (the operand it stores on equality is the value that is
    there, so memory reads as before), writes the old value of memory into
    the accumulator, sets the flags from (accumulator, old value) and skips
    the instruction.  The accumulator holds the old value in its low bytes,
    bits 8..31 (16..31) of its former value above a 1-byte (2-byte) write
    and zero elsewhere; ZF, SF and PF are those of comparing the
    accumulator with the old value, CF, AF and OF are those of adding the
    two, which is where the flag routine takes them from; no other register
    and no other flag changes. *)
Theorem cmpxchg_equal_operands
    (code : list byte) (addr : Z) (is_writing : bool) (s : state) :
  let d := decode_x64_reg_op code in
  let n := out_size d in
  let p := vm_base_priv addr in
  let old := load (mem s) p (Z.to_nat n) in
  let acc := trunc n (RAX (ctx s)) in
  hook_claims hook addr is_writing = false ->
  0 <= addr -> addr + n < 2^32 ->
  is_raw_spu_mmio BASE OFFSET PROB addr = false ->
  out_op d = X64OP_CMPXCHG ->
  well_formed (ctx s) -> byte_memory (mem s) -> 0 <= RAX (ctx s) < 2^64 ->
  get_x64_reg_value code (ctx s) (out_reg d) n (out_length d)
  = get_x64_reg_value code (ctx s) X64R_RAX n (out_length d) ->
  get_x64_access_size code (ctx s) X64OP_CMPXCHG (out_reg d) n (out_length d) = 0
  /\ exists s',
       hav code addr is_writing s = Some (true, s')
       /\ trace s' = trace s ++ [EvReservationQuery addr 0 is_writing]
       /\ mem s' = store (mem s) p (Z.to_nat n) (if old =? acc then acc else old)
       /\ load (mem s') p (Z.to_nat n) = old
       /\ RAX (ctx s')
          = old + (if n <? 4 then RAX (ctx s) mod 2^32 - RAX (ctx s) mod 2^(8 * n) else 0)
       /\ (forall r, 1 <= r < 16 -> X64REG (ctx s') r = X64REG (ctx s) r)
       /\ RIP (ctx s') = u64 (RIP (ctx s) + out_length d)
       /\ xmm (ctx s') = xmm (ctx s)
       /\ (forall k, 0 <= k ->
             Z.testbit (EFLAGS (ctx s')) k
             = if (k =? ZF) || (k =? SF) || (k =? PF)
               then Z.testbit (sub_flags n acc old) k
               else if (k =? CF) || (k =? AF) || (k =? OF)
                    then Z.testbit (add_flags n acc old) k
                    else Z.testbit (EFLAGS (ctx s)) k).
Proof.
  intros d n p old acc Hh Ha Hfit Hm Hop Hw Hb Hrax Heq.
  destruct (decode_facts code) as (Hc & _ & _). fold d in Hc.
  destruct (Hc Hop) as [Hsz Hlen]. fold n in Hsz.
  pose proof (is_access_size_range _ Hsz) as Hd.
  destruct (get_general_truncated code (ctx s) 0 n (out_length d) ltac:(lia) Hsz)
    as (cv & Hcv & _ & Hcv').
  specialize (Hcv' Hrax). fold (RAX (ctx s)) in Hcv'. fold acc in Hcv'. subst cv.
  change (get_x64_reg_value code (ctx s) 0 n (out_length d))
    with (get_x64_reg_value code (ctx s) X64R_RAX n (out_length d)) in Hcv.
  assert (Hsize : get_x64_access_size code (ctx s) X64OP_CMPXCHG (out_reg d) n (out_length d)
                  = 0).
  { unfold get_x64_access_size. cbn [is_block_op andb].
    rewrite bool_decide_eq_true_2 by reflexivity.
    rewrite Heq, Hcv, Z.eqb_refl. reflexivity. }
  split; [exact Hsize|].
  assert (Hacc : 0 <= acc < 2^(8 * n)) by (apply trunc_range; lia).
  assert (Hold : 0 <= old < 2^(8 * n)).
  { pose proof (load_range (mem s) p (Z.to_nat n) Hb) as R.
    replace (8 * Z.of_nat (Z.to_nat n)) with (8 * n) in R by lia. exact R. }
  assert (Hnew : trunc n (if old =? trunc n acc then acc else old)
                 = (if old =? acc then acc else old)).
  { unfold acc at 1. rewrite trunc_idem by lia. fold acc. unfold trunc.
    destruct (old =? acc); apply Z.mod_small; assumption. }
  rewrite hav_ram_path; fold d; fold n; rewrite ?Hop, ?Hsize;
    try assumption; try (apply in_range; lia).
  unfold privileged_access. cbn [ctx mem emit].
  rewrite no_early_exit by lia. rewrite Heq, Hcv, Hsz.
  cbn [negb]. cbv beta iota zeta delta [atomic_rmw]. cbn [ctx mem with_mem emit].
  fold p old. rewrite Hnew.
  destruct (put_defined (ctx s) 0 n old ltac:(lia) Hsz) as [c1 Hput].
  change (put_x64_reg_value (ctx s) X64R_RAX n old) with (put_x64_reg_value (ctx s) 0 n old).
  rewrite Hput.
  destruct (set_x64_cmp_flags_defined c1 n acc old true Hsz) as [c2 Hfl].
  rewrite Hfl. cbn [finish].
  destruct (put_low_bytes (ctx s) c1 0 n old Hw ltac:(lia) Hput)
    as (_ & P2 & P3 & P4 & Hw1).
  pose proof (put_value (ctx s) c1 0 n old Hw ltac:(lia) Hold Hput) as P1.
  destruct (set_x64_cmp_flags_frame _ _ _ _ _ _ Hfl) as [Hg Hx].
  assert (Hreg : forall r, X64REG c2 r = X64REG c1 r)
    by (intros r; unfold X64REG; now rewrite Hg).
  assert (Hw2 : well_formed c2).
  { destruct Hw1 as [W1 W2]. split; [now rewrite Hg|now rewrite Hx]. }
  eexists. split; [reflexivity|]. cbn [ctx mem trace with_ctx with_mem emit].
  change (u32 0) with 0.
  split; [reflexivity|]. split; [reflexivity|].
  split; [|split; [|split; [|split; [|split]]]].
  - rewrite load_store.
    replace (8 * Z.of_nat (Z.to_nat n)) with (8 * n) by lia.
    destruct (old =? acc) eqn:E.
    + apply Z.eqb_eq in E. rewrite <- E. now apply Z.mod_small.
    + now apply Z.mod_small.
  - unfold RAX. rewrite X64REG_set_other by lia. rewrite Hreg. exact P1.
  - intros r Hr. rewrite X64REG_set_other by lia. rewrite Hreg. apply P2; lia.
  - rewrite (RIP_advanced c2) by assumption. f_equal. f_equal.
    unfold RIP. rewrite Hreg. apply P2; lia.
  - cbn [xmm set_X64REG]. now rewrite Hx.
  - intros k Hk.
    change (EFLAGS (set_X64REG c2 16 (u64 (RIP c2 + out_length d)))) with (EFLAGS c2).
    rewrite (flags_of_routine c1 c2 n acc old Hsz Hacc Hold Hfl k Hk). now rewrite P3.
Qed.

End EqualOperands.

(** [lock cmpxchg [rbx], cl] with RAX = 0x1122334455667707, CL = 7 and 9
    in memory: the byte stays, AL takes it, the upper half of RAX is
    cleared. *)
Lemma cmpxchg_equal_operands_witness :
  let code := bytes [0xf0; 0x0f; 0xb0; 0x0b] in
  let s := mk_state (with_regs [(0, 0x1122334455667707); (1, 7); (16, 0x400000)]
                               zero_context)
                    (store ∅ (vm_base_priv 0x2000) 1 9) [] in
  get_x64_access_size code (ctx s) X64OP_CMPXCHG X64R_CL 1 4 = 0
  /\ exists s',
       handle code 0x2000 true s = Some (true, s')
       /\ trace s' = [EvReservationQuery 0x2000 0 true]
       /\ load (mem s') (vm_base_priv 0x2000) 1 = 9
       /\ RAX (ctx s') = 0x55667709
       /\ RIP (ctx s') = 0x400004
       /\ Z.testbit (EFLAGS (ctx s')) ZF = false
       /\ Z.testbit (EFLAGS (ctx s')) CF = false
       /\ Z.testbit (EFLAGS (ctx s')) SF = true.
Proof.
  intros code s.
  destruct (cmpxchg_equal_operands RAW_SPU_BASE_ADDR RAW_SPU_OFFSET RAW_SPU_PROB_OFFSET
              vm_base vm_base_priv no_hook no_thread no_read no_write code 0x2000 true s)
    as (H0 & s' & H & H1 & _ & H3 & H4 & _ & H6 & _ & H8);
    [reflexivity|lia|vm_compute; reflexivity|reflexivity|reflexivity|split; reflexivity
    |apply store_byte_memory, byte_memory_empty
    |vm_compute; split; [discriminate|reflexivity]|reflexivity|].
  split; [exact H0|]. exists s'. split; [exact H|]. split; [exact H1|].
  split; [exact H3|]. split; [exact H4|]. split; [exact H6|].
  split; [|split].
  - rewrite (H8 ZF) by (vm_compute; discriminate). reflexivity.
  - rewrite (H8 CF) by (vm_compute; discriminate). reflexivity.
  - rewrite (H8 SF) by (vm_compute; discriminate). reflexivity.
Defined.

